(** * Conversation / message coordination engine of the messaging backend

    A shallow embedding of [backend/index.js]: the Mongoose collections
    (users, conversations, messages) and the in-process presence map are an
    explicit [Store]; every route and socket handler is a function from a
    store (and a clock reading) to a new store and a reply.  *)

From stdpp Require Import gmap strings list sorting.
From Stdlib Require Import ZArith String Ascii.

Local Open Scope string_scope.
Local Open Scope Z_scope.

(** ** JavaScript helpers *)

Module JS.

(** [String.prototype.toLowerCase] on the ASCII letters. *)
Definition lower_ascii (c : ascii) : ascii :=
  let n := nat_of_ascii c in
  if ((65 <=? n)%nat && (n <=? 90)%nat)%bool then ascii_of_nat (n + 32) else c.

Fixpoint toLowerCase (s : string) : string :=
  match s with
  | EmptyString => EmptyString
  | String c r => String (lower_ascii c) (toLowerCase r)
  end.

(** White space removed by [String.prototype.trim] (the ASCII part: tab,
    line feed, vertical tab, form feed, carriage return, space). *)
Definition is_space (c : ascii) : bool :=
  let n := nat_of_ascii c in
  ((9 <=? n)%nat && (n <=? 13)%nat)%bool || (n =? 32)%nat.

Fixpoint trimStart (s : string) : string :=
  match s with
  | EmptyString => EmptyString
  | String c r => if is_space c then trimStart r else s
  end.

Fixpoint trimEnd (s : string) : string :=
  match s with
  | EmptyString => EmptyString
  | String c r =>
      match trimEnd r with
      | EmptyString => if is_space c then EmptyString else String c EmptyString
      | r' => String c r'
      end
  end.

Definition trim (s : string) : string := trimEnd (trimStart s).

(** Truthiness of an optional string: [undefined] and [''] are falsy. *)
Definition truthy (o : option string) : bool :=
  match o with
  | Some s => negb (String.eqb s "")
  | None => false
  end.

(** [a || b] on strings. *)
Definition or_else (o : option string) (d : string) : string :=
  match o with
  | Some s => if String.eqb s "" then d else s
  | None => d
  end.

(** [Array.prototype.sort()] with the default comparator: the elements are
    compared as strings, by code unit; the sort is stable. *)
Fixpoint sort_insert (x : string) (l : list string) : list string :=
  match l with
  | [] => [x]
  | y :: r => if String.leb x y then x :: l else y :: sort_insert x r
  end.

Definition sort (l : list string) : list string := foldr sort_insert [] l.

End JS.

(** ** Data model (the Mongoose schemas) *)

(** Object ids of users travel as their 24-digit hexadecimal strings
    ([String(_id)], map keys, room names); the ids of conversations and
    messages are allocated by the store. *)
Abbreviation UserId := string (only parsing).
Abbreviation ConvId := N (only parsing).
Abbreviation MsgId := N (only parsing).
Abbreviation SocketId := string (only parsing).
(** A [Date], in milliseconds. *)
Abbreviation Date := Z (only parsing).

Record User := mkUser {
  u_id : UserId;
  u_name : string;
  u_email : string
}.

Record LastMessage := mkLastMessage {
  lm_text : string;
  lm_from : option UserId;
  lm_timestamp : Date
}.

Record Conversation := mkConversation {
  c_id : ConvId;
  participants : list UserId;
  lastMessage : LastMessage;
  unreadCount : gmap string nat
}.

Inductive Status := sent | delivered | read.

Record FileAttachment := mkFileAttachment {
  fileName : option string;
  filePath : option string;
  fileSize : option Z;
  mimeType : option string
}.

Record Message := mkMessage {
  m_id : MsgId;
  conversationId : ConvId;
  m_from : UserId;
  m_to : UserId;
  m_text : string;
  status : Status;
  seenAt : option Date;
  messageType : string;
  fileAttachment : option FileAttachment;
  createdAt : Date
}.

(** An entry of [connectedUsers]. *)
Record Presence := mkPresence {
  socketId : SocketId;
  p_email : string;
  p_name : string;
  connectedAt : Date
}.

Record Store := mkStore {
  users : list User;
  conversations : list Conversation;
  messages : list Message;
  connectedUsers : gmap string Presence;
  (** next object id handed out by [create] *)
  next_oid : N;
  (** whether the legacy unique index [participants_1] is on the
      conversations collection *)
  participants_1_unique : bool
}.

#[global] Instance Status_eq_dec : EqDecision Status.
Proof. solve_decision. Defined.

Definition status_rank (s : Status) : nat :=
  match s with sent => 0 | delivered => 1 | read => 2 end.

(** ** Store updates, one field at a time *)

Definition set_conversations (cs : list Conversation) (st : Store) : Store :=
  mkStore (users st) cs (messages st) (connectedUsers st) (next_oid st)
          (participants_1_unique st).

Definition set_messages (ms : list Message) (st : Store) : Store :=
  mkStore (users st) (conversations st) ms (connectedUsers st) (next_oid st)
          (participants_1_unique st).

Definition set_connectedUsers (cu : gmap string Presence) (st : Store) : Store :=
  mkStore (users st) (conversations st) (messages st) cu (next_oid st)
          (participants_1_unique st).

Definition set_next_oid (n : N) (st : Store) : Store :=
  mkStore (users st) (conversations st) (messages st) (connectedUsers st) n
          (participants_1_unique st).

Definition set_participants_1_unique (b : bool) (st : Store) : Store :=
  mkStore (users st) (conversations st) (messages st) (connectedUsers st)
          (next_oid st) b.

(** Server start-up: [dropIndex('participants_1')]; the schema then
    declares only non-unique indexes on the conversations. *)
Definition startup (st : Store) : Store := set_participants_1_unique false st.

(** ** Queries on the collections *)

Definition User_findById (st : Store) (id : UserId) : option User :=
  find (fun u => String.eqb (u_id u) id) (users st).

Definition User_findByEmail (st : Store) (email : string) : option User :=
  find (fun u => String.eqb (u_email u) email) (users st).

(** [validateUserExists] *)
Definition validateUserExists (st : Store) (userId : UserId) : option User :=
  User_findById st userId.

Definition Conversation_findById (st : Store) (id : ConvId) : option Conversation :=
  find (fun c => N.eqb (c_id c) id) (conversations st).

Definition Message_findById (st : Store) (id : MsgId) : option Message :=
  find (fun m => N.eqb (m_id m) id) (messages st).

Definition mem_id (x : UserId) (l : list UserId) : bool :=
  existsb (String.eqb x) l.

(** The filter [{ participants: { $all: ps, $size: ps.length } }]. *)
Definition all_size_match (ps : list UserId) (c : Conversation) : bool :=
  forallb (fun p => mem_id p (participants c)) ps
  && (List.length (participants c) =? List.length ps)%nat.

Definition Conversation_findOne (st : Store) (ps : list UserId) : option Conversation :=
  find (all_size_match ps) (conversations st).

(** [findByIdAndUpdate]: the first document with that id is updated. *)
Fixpoint update_first {A} (p : A -> bool) (f : A -> A) (l : list A) : list A :=
  match l with
  | [] => []
  | x :: r => if p x then f x :: r else x :: update_first p f r
  end.

Definition Conversation_findByIdAndUpdate
    (id : ConvId) (f : Conversation -> Conversation) (st : Store) : Store :=
  set_conversations
    (update_first (fun c => N.eqb (c_id c) id) f (conversations st)) st.

(** ** Conversation helpers *)

Inductive Error :=
  | E11000                      (* duplicate key *)
  | ValidationError
  | FailedToCreateOrFind.       (* 'Failed to create or find conversation' *)

Inductive Result (A : Type) :=
  | Ok (a : A)
  | Throw (e : Error).
Arguments Ok {A} a.
Arguments Throw {A} e.

(** A unique index on the array field [participants] is multikey: an insert
    is a duplicate as soon as it shares one participant with a stored
    conversation. *)
Definition participants_1_conflict (st : Store) (ps : list UserId) : bool :=
  participants_1_unique st
  && existsb (fun c => existsb (fun p => mem_id p (participants c)) ps)
             (conversations st).

(** [Conversation.create({ participants, lastMessage, unreadCount })] *)
Definition Conversation_create (st : Store) (ps : list UserId)
    (lm : LastMessage) (uc : gmap string nat) : Store * Result Conversation :=
  if participants_1_conflict st ps then (st, Throw E11000)
  else
    let c := mkConversation (next_oid st) ps lm uc in
    (set_next_oid (next_oid st + 1)%N
       (set_conversations (conversations st ++ [c]) st), Ok c).

Definition getOrCreateConversation (st : Store) (now : Date)
    (participantIds : list UserId) : Store * Result Conversation :=
  let sortedParticipants := JS.sort participantIds in
  match Conversation_findOne st sortedParticipants with
  | Some conversation => (st, Ok conversation)
  | None =>
      match Conversation_create st sortedParticipants
              (mkLastMessage "" None now) ∅ with
      | (st1, Ok conversation) => (st1, Ok conversation)
      | (st1, Throw E11000) =>
          match Conversation_findOne st1 sortedParticipants with
          | Some conversation => (st1, Ok conversation)
          | None => (st1, Throw FailedToCreateOrFind)
          end
      | (st1, Throw error) => (st1, Throw error)
      end
  end.

Definition updateConversationLastMessage (conversationId : ConvId)
    (text : string) (from : UserId) (createdAt : Date) (st : Store) : Store :=
  Conversation_findByIdAndUpdate conversationId
    (fun c => mkConversation (c_id c) (participants c)
                (mkLastMessage text (Some from) createdAt) (unreadCount c)) st.

(** [$inc] of an absent key starts from 0. *)
Definition incrementUnreadCount (conversationId : ConvId) (userId : UserId)
    (st : Store) : Store :=
  Conversation_findByIdAndUpdate conversationId
    (fun c => mkConversation (c_id c) (participants c) (lastMessage c)
                (<[userId := S (default 0%nat (unreadCount c !! userId))]>
                   (unreadCount c))) st.

Definition resetUnreadCount (conversationId : ConvId) (userId : UserId)
    (st : Store) : Store :=
  Conversation_findByIdAndUpdate conversationId
    (fun c => mkConversation (c_id c) (participants c) (lastMessage c)
                (<[userId := 0%nat]> (unreadCount c))) st.

(** The reading [unreadCount.get(userId) || 0] of the thread list. *)
Definition unread_of (st : Store) (conversationId : ConvId) (userId : UserId) : nat :=
  match Conversation_findById st conversationId with
  | Some c => default 0%nat (unreadCount c !! userId)
  | None => 0%nat
  end.

(** *** [getOrCreateConversation], one [await] at a time

    The function suspends at each database call, so calls of several
    requests interleave there.  A call in flight is a [GocState]. *)

Inductive GocState :=
  | GocFind (participantIds : list UserId)
  | GocCreate (sortedParticipants : list UserId)
  | GocRequery (sortedParticipants : list UserId)
  | GocDone (r : Result Conversation).

Definition goc_step (st : Store) (now : Date) (t : GocState) : Store * GocState :=
  match t with
  | GocFind participantIds =>
      let sortedParticipants := JS.sort participantIds in
      match Conversation_findOne st sortedParticipants with
      | Some conversation => (st, GocDone (Ok conversation))
      | None => (st, GocCreate sortedParticipants)
      end
  | GocCreate sortedParticipants =>
      match Conversation_create st sortedParticipants
              (mkLastMessage "" None now) ∅ with
      | (st1, Ok conversation) => (st1, GocDone (Ok conversation))
      | (st1, Throw E11000) => (st1, GocRequery sortedParticipants)
      | (st1, Throw error) => (st1, GocDone (Throw error))
      end
  | GocRequery sortedParticipants =>
      match Conversation_findOne st sortedParticipants with
      | Some conversation => (st, GocDone (Ok conversation))
      | None => (st, GocDone (Throw FailedToCreateOrFind))
      end
  | GocDone r => (st, GocDone r)
  end.

(** A schedule names, step by step, the call that runs next. *)
Fixpoint run_schedule (st : Store) (now : Date) (ts : list GocState)
    (schedule : list nat) : Store * list GocState :=
  match schedule with
  | [] => (st, ts)
  | i :: rest =>
      match ts !! i with
      | Some t =>
          let '(st1, t1) := goc_step st now t in
          run_schedule st1 now (<[i := t1]> ts) rest
      | None => run_schedule st now ts rest
      end
  end.

(** The conversations stored for the pair [{a, b}]. *)
Definition conversations_of_pair (st : Store) (a b : UserId) : list Conversation :=
  filter (fun c => all_size_match [a; b] c = true) (conversations st).

(** ** Messages *)

(** The document handed to [Message.create]. *)
Record MessageDoc := mkMessageDoc {
  d_conversationId : ConvId;
  d_from : UserId;
  d_to : UserId;
  d_text : string;
  d_messageType : string;
  d_fileAttachment : option FileAttachment;
  d_status : Status
}.

(** Schema validation of a message: [maxlength: 2000] on the text and the
    [enum] of message types.  (Lengths count bytes here, UTF-16 code units
    in the source; they agree on ASCII text.) *)
Definition message_valid (d : MessageDoc) : bool :=
  (String.length (d_text d) <=? 2000)%nat
  && existsb (String.eqb (d_messageType d)) ["text"; "image"; "file"].

(** [Message.create(doc)]; [timestamps: true] stamps [createdAt]. *)
Definition Message_create (st : Store) (now : Date) (d : MessageDoc)
  : Store * Result Message :=
  if message_valid d then
    let m := mkMessage (next_oid st) (d_conversationId d) (d_from d) (d_to d)
               (d_text d) (d_status d) None (d_messageType d)
               (d_fileAttachment d) now in
    (set_next_oid (next_oid st + 1)%N
       (set_messages (messages st ++ [m]) st), Ok m)
  else (st, Throw ValidationError).

(** [message.save()] after the handler changed [status] and [seenAt]. *)
Definition Message_save (m : Message) (st : Store) : Store :=
  set_messages
    (update_first (fun x => N.eqb (m_id x) (m_id m)) (fun _ => m) (messages st)) st.

(** The thread preview computed after a send.  The schema has no [count]
    under [fileAttachment], so [fileAttachment?.count || 1] is 1. *)
Definition lastMessageText (msg : Message) : string :=
  if String.eqb (messageType msg) "image" then "ðŸ“· Photo"
  else if String.eqb (messageType msg) "multi_image" then "ðŸ“· 1 Photos"
  else if String.eqb (messageType msg) "file" then
    "ðŸ“Ž " ++
      JS.or_else (match fileAttachment msg with
                  | Some f => fileName f
                  | None => None
                  end) "File"
  else m_text msg.

(** ** Replies and live events *)

Inductive Target :=
  | ToRoom (room : string)          (* io.to(room) *)
  | ToSocket (sid : SocketId).      (* socket.emit *)

Inductive Event :=
  | message_new (payload : Message)
  | thread_update (conversationId : ConvId) (peerId : UserId)
  | message_read (messageId : MsgId) (readBy : UserId).

Definition Emit : Type := Target * Event.

Inductive Body :=
  | error_body (error : string)
  | messages_body (peer : User) (msgs : list Message) (conversationId : ConvId)
  | sent_body (message : Message) (conversationId : ConvId)
  | conversation_body (conversation : Conversation) (unread : nat)
      (peer : option UserId)
  | created_body (conversationId : ConvId) (ps : list UserId) (peer : User).

Record Response := mkResponse {
  res_status : nat;
  res_body : Body
}.

(** What a socket handler passes to its acknowledgement callback. *)
Inductive AckPayload :=
  | ack_error (error : string)
  | ack_ok (message : Message).

(** An authenticated socket: [socket.id] and [socket.data]. *)
Record Socket := mkSocket {
  s_id : SocketId;
  s_userId : UserId;
  s_userEmail : string;
  s_userName : string
}.

(** ** [GET /api/messages] *)

Record MessagesQuery := mkMessagesQuery {
  q_peerId : option string;
  q_peerEmail : option string;
  q_conversationId : option ConvId;
  (** the numeric value of [limit], an integer; [None] when absent or not
      a number *)
  q_limit : option Z;
  (** [new Date(before)]; [None] when [before] is absent or empty *)
  q_before : option Date
}.

(** [Math.min(Number(limit) || 30, 100)] *)
Definition query_limit (limit : option Z) : Z :=
  Z.min (match limit with
         | Some n => if n =? 0 then 30 else n
         | None => 30
         end) 100.

(** A cursor's [limit(n)]: 0 is no limit, a negative [n] stands for [-n]. *)
Definition cursor_limit {A} (n : Z) (l : list A) : list A :=
  if n =? 0 then l else take (Z.to_nat (Z.abs n)) l.

(** Newest first: the order of [sort({ createdAt: -1 })]. *)
Definition newer_or_same (m1 m2 : Message) : Prop := createdAt m2 <= createdAt m1.

#[global] Instance newer_or_same_dec : RelDecision newer_or_same.
Proof. intros m1 m2. unfold newer_or_same. apply _. Defined.

(** The query [q = { conversationId, createdAt: { $lt: before } }]; the
    second condition is there only when [before] is given. *)
Definition matches_query (conversationId' : ConvId) (before : option Date)
    (m : Message) : bool :=
  N.eqb (conversationId m) conversationId'
  && match before with
     | Some b => createdAt m <? b
     | None => true
     end.

(** [Message.find(q).sort({ createdAt: -1 }).limit(n)]; the database fixes
    no order among messages created at the same instant, the merge sort
    picks one. *)
Definition Message_find (st : Store) (conversationId' : ConvId)
    (before : option Date) (n : Z) : list Message :=
  cursor_limit n
    (merge_sort newer_or_same
       (filter (fun m => matches_query conversationId' before m = true)
               (messages st))).

(** [authWithUserValidation]: the token's subject must be a stored user. *)
Definition authWithUserValidation (st : Store) (sub : UserId)
    (next : User -> Store * Response) : Store * Response :=
  match User_findById st sub with
  | None => (st, mkResponse 401 (error_body "User not found"))
  | Some user => next user
  end.

(** The peer named by [peerId], else by [peerEmail]. *)
Definition query_peer (st : Store) (q : MessagesQuery) : option User :=
  if JS.truthy (q_peerId q)
  then User_findById st (JS.or_else (q_peerId q) "")
  else User_findByEmail st (JS.toLowerCase (JS.or_else (q_peerEmail q) "")).

Definition get_api_messages (st : Store) (now : Date) (sub : UserId)
    (q : MessagesQuery) : Store * Response :=
  authWithUserValidation st sub (fun _ =>
    let meId := sub in
    let fetch (st : Store) (conversation : Conversation) (peer : User) :=
      let list := Message_find st (c_id conversation) (q_before q)
                    (query_limit (q_limit q)) in
      let msgs := reverse list in
      (resetUnreadCount (c_id conversation) meId st,
       mkResponse 200 (messages_body peer msgs (c_id conversation))) in
    match q_conversationId q with
    | Some conversationId =>
        match Conversation_findById st conversationId with
        | None => (st, mkResponse 404 (error_body "Conversation not found"))
        | Some conversation =>
            if negb (mem_id meId (participants conversation))
            then (st, mkResponse 404 (error_body "Conversation not found"))
            else
              let otherParticipantId :=
                find (fun p => negb (String.eqb p meId)) (participants conversation) in
              match otherParticipantId ≫= User_findById st with
              | None =>
                  (st, mkResponse 404 (error_body "Conversation participant not found"))
              | Some peer => fetch st conversation peer
              end
        end
    | None =>
        if JS.truthy (q_peerId q) || JS.truthy (q_peerEmail q) then
          match query_peer st q with
          | None => (st, mkResponse 404 (error_body "Peer not found"))
          | Some peer =>
              match getOrCreateConversation st now [meId; u_id peer] with
              | (st1, Ok conversation) => fetch st1 conversation peer
              | (st1, Throw _) => (st1, mkResponse 500 (error_body "Server error"))
              end
          end
        else
          (st, mkResponse 400 (error_body "peerId, peerEmail, or conversationId required"))
    end).

(** ** Sending a message *)

Record SendRequest := mkSendRequest {
  toId : option string;
  toEmail : option string;
  text : option string;
  r_messageType : option string;
  r_fileAttachment : option FileAttachment
}.

(** The receiver named by [toId], else by [toEmail]. *)
Definition resolve_peer (st : Store) (req : SendRequest) : option User :=
  if JS.truthy (toId req) then validateUserExists st (JS.or_else (toId req) "")
  else if JS.truthy (toEmail req)
       then User_findByEmail st (JS.toLowerCase (JS.or_else (toEmail req) ""))
       else None.

Definition message_doc (conversation : Conversation) (senderId receiverId : UserId)
    (req : SendRequest) : MessageDoc :=
  mkMessageDoc (c_id conversation) senderId receiverId
    (if JS.truthy (text req) then JS.trim (JS.or_else (text req) "") else "")
    (JS.or_else (r_messageType req) "text")
    (r_fileAttachment req)
    sent.

(** [POST /api/messages]: the reply and the events emitted.  The first
    lookup is the middleware [authWithUserValidation]. *)
Definition post_api_messages (st : Store) (now : Date) (sub : UserId)
    (req : SendRequest) : Store * Response * list Emit :=
  match User_findById st sub with
  | None => (st, mkResponse 401 (error_body "User not found"), [])
  | Some _ =>
  if negb (JS.truthy (text req)) && negb (bool_decide (is_Some (r_fileAttachment req)))
  then (st, mkResponse 400 (error_body "Text or file required"), [])
  else
    match validateUserExists st sub with
    | None => (st, mkResponse 401 (error_body "Sender not found"), [])
    | Some sender =>
        match resolve_peer st req with
        | None =>
            (st, mkResponse 404 (error_body "Peer not found or not registered"), [])
        | Some peer =>
            if String.eqb (u_id sender) (u_id peer)
            then (st, mkResponse 400 (error_body "Cannot send message to yourself"), [])
            else
              let senderId := u_id sender in
              let receiverId := u_id peer in
              match getOrCreateConversation st now [senderId; receiverId] with
              | (st1, Throw _) => (st1, mkResponse 500 (error_body "Server error"), [])
              | (st1, Ok conversation) =>
                  match Message_create st1 now
                          (message_doc conversation senderId receiverId req) with
                  | (st2, Throw _) =>
                      (st2, mkResponse 500 (error_body "Server error"), [])
                  | (st2, Ok msg) =>
                      let st3 :=
                        updateConversationLastMessage (c_id conversation)
                          (lastMessageText msg) (m_from msg) (createdAt msg) st2 in
                      let st4 := incrementUnreadCount (c_id conversation) receiverId st3 in
                      (st4,
                       mkResponse 201 (sent_body msg (c_id conversation)),
                       [ (ToRoom (m_from msg), message_new msg);
                         (ToRoom (m_to msg), message_new msg);
                         (ToRoom (m_from msg),
                          thread_update (c_id conversation) (m_to msg));
                         (ToRoom (m_to msg),
                          thread_update (c_id conversation) (m_from msg)) ])
                  end
              end
        end
    end
  end.

(** ** Socket handlers *)

Record SocketOutcome := mkSocketOutcome {
  so_store : Store;
  (** the argument of [ack?.(...)]; [None] for a handler without one *)
  so_ack : option AckPayload;
  so_emits : list Emit
}.

(** [io.on('connection')]: the socket's user is entered in
    [connectedUsers] under the user id. *)
Definition io_connection (st : Store) (now : Date) (socket : Socket) : Store :=
  set_connectedUsers
    (<[s_userId socket :=
         mkPresence (s_id socket) (s_userEmail socket) (s_userName socket) now]>
       (connectedUsers st)) st.

(** [socket.on('disconnect')] *)
Definition socket_disconnect (st : Store) (socket : Socket) : Store :=
  set_connectedUsers (delete (s_userId socket) (connectedUsers st)) st.

(** [socket.on('message:send')] *)
Definition socket_message_send (st : Store) (now : Date) (socket : Socket)
    (payload : SendRequest) : SocketOutcome :=
  if negb (JS.truthy (text payload))
     && negb (bool_decide (is_Some (r_fileAttachment payload)))
  then mkSocketOutcome st (Some (ack_error "Text or file required")) []
  else
    match validateUserExists st (s_userId socket) with
    | None =>
        mkSocketOutcome st
          (Some (ack_error "Sender not found - please re-authenticate")) []
    | Some sender =>
        match resolve_peer st payload with
        | None =>
            mkSocketOutcome st
              (Some (ack_error "Peer not found or not registered")) []
        | Some peer =>
            if String.eqb (u_id sender) (u_id peer)
            then mkSocketOutcome st
                   (Some (ack_error "Cannot send message to yourself")) []
            else
              let senderId := u_id sender in
              let receiverId := u_id peer in
              match getOrCreateConversation st now [senderId; receiverId] with
              | (st1, Throw _) =>
                  mkSocketOutcome st1 (Some (ack_error "Server error")) []
              | (st1, Ok conversation) =>
                  match Message_create st1 now
                          (message_doc conversation senderId receiverId payload) with
                  | (st2, Throw _) =>
                      mkSocketOutcome st2 (Some (ack_error "Server error")) []
                  | (st2, Ok msg) =>
                      let st3 :=
                        updateConversationLastMessage (c_id conversation)
                          (lastMessageText msg) (m_from msg) (createdAt msg) st2 in
                      let st4 := incrementUnreadCount (c_id conversation) receiverId st3 in
                      mkSocketOutcome st4 (Some (ack_ok msg))
                        [ (ToSocket (s_id socket), message_new msg);
                          (ToRoom receiverId, message_new msg);
                          (ToSocket (s_id socket),
                           thread_update (c_id conversation) receiverId);
                          (ToRoom receiverId,
                           thread_update (c_id conversation) senderId) ]
                  end
              end
        end
    end.

(** [socket.on('message:read')]: the handler takes no acknowledgement
    callback and reports nothing to the caller. *)
Definition socket_message_read (st : Store) (now : Date) (socket : Socket)
    (messageId : option MsgId) : SocketOutcome :=
  let userId := s_userId socket in
  match messageId with
  | None => mkSocketOutcome st None []
  | Some messageId =>
      match Message_findById st messageId with
      | Some message =>
          if String.eqb (m_to message) userId then
            let message' :=
              mkMessage (m_id message) (conversationId message) (m_from message)
                (m_to message) (m_text message) read (Some now)
                (messageType message) (fileAttachment message)
                (createdAt message) in
            mkSocketOutcome (Message_save message' st) None
              [ (ToRoom (m_from message), message_read messageId userId) ]
          else mkSocketOutcome st None []
      | None => mkSocketOutcome st None []
      end
  end.

(** ** Conversation routes *)

(** [GET /api/conversations/:conversationId] (middleware [auth]: the token
    alone).  The participants are populated from the users, which no route
    ever deletes; they are compared by id. *)
Definition get_api_conversation (st : Store) (sub : UserId)
    (conversationId : ConvId) : Response :=
  let userId := sub in
  match Conversation_findById st conversationId with
  | None => mkResponse 404 (error_body "Conversation not found")
  | Some conversation =>
      if negb (mem_id userId (participants conversation))
      then mkResponse 403 (error_body "Access denied")
      else
        let otherParticipant :=
          find (fun p => negb (String.eqb p userId)) (participants conversation) in
        mkResponse 200
          (conversation_body conversation
             (default 0%nat (unreadCount conversation !! userId))
             otherParticipant)
  end.

(** [POST /api/conversations] *)
Definition post_api_conversations (st : Store) (now : Date) (sub : UserId)
    (peerId : option string) : Store * Response :=
  authWithUserValidation st sub (fun _ =>
    if negb (JS.truthy peerId)
    then (st, mkResponse 400 (error_body "peerId is required"))
    else
      match validateUserExists st sub with
      | None => (st, mkResponse 401 (error_body "Current user not found"))
      | Some currentUser =>
          match validateUserExists st (JS.or_else peerId "") with
          | None =>
              (st, mkResponse 404 (error_body "Peer user not found or not registered"))
          | Some peer =>
              if String.eqb (u_id currentUser) (u_id peer)
              then (st, mkResponse 400
                          (error_body "Cannot create conversation with yourself"))
              else
                match getOrCreateConversation st now
                        [u_id currentUser; u_id peer] with
                | (st1, Ok conversation) =>
                    (st1, mkResponse 200
                            (created_body (c_id conversation)
                               [u_id currentUser; u_id peer] peer))
                | (st1, Throw _) =>
                    (st1, mkResponse 500 (error_body "Server error"))
                end
          end
      end).

(** ** The operations of the engine *)

Inductive Op :=
  | OpConnect (now : Date) (socket : Socket)
  | OpDisconnect (socket : Socket)
  | OpSendHttp (now : Date) (sub : UserId) (req : SendRequest)
  | OpSendSocket (now : Date) (socket : Socket) (payload : SendRequest)
  | OpGetMessages (now : Date) (sub : UserId) (q : MessagesQuery)
  | OpMarkRead (now : Date) (socket : Socket) (messageId : option MsgId)
  | OpCreateConversation (now : Date) (sub : UserId) (peerId : option string).

Definition apply_op (st : Store) (op : Op) : Store :=
  match op with
  | OpConnect now socket => io_connection st now socket
  | OpDisconnect socket => socket_disconnect st socket
  | OpSendHttp now sub req => (post_api_messages st now sub req).1.1
  | OpSendSocket now socket payload => so_store (socket_message_send st now socket payload)
  | OpGetMessages now sub q => (get_api_messages st now sub q).1
  | OpMarkRead now socket messageId => so_store (socket_message_read st now socket messageId)
  | OpCreateConversation now sub peerId => (post_api_conversations st now sub peerId).1
  end.

Definition run_ops (st : Store) (ops : list Op) : Store := foldl apply_op st ops.

(** ** How the specification words the page size

    The limit "clamped to [1,100] (with a default when no limit is given)",
    to be compared with [query_limit]. *)
Definition spec_limit (limit : option Z) : Z :=
  match limit with
  | Some n => Z.max 1 (Z.min n 100)
  | None => 30
  end.

(** The order of the statuses: sent, then delivered, then read. *)
Definition status_le (s1 s2 : Status) : Prop :=
  (status_rank s1 <= status_rank s2)%nat.

(** Oldest first. *)
Definition older_or_same (m1 m2 : Message) : Prop := createdAt m1 <= createdAt m2.

(** The message as [message:read] leaves it. *)
Definition mark_read (now : Date) (m : Message) : Message :=
  mkMessage (m_id m) (conversationId m) (m_from m) (m_to m) (m_text m)
    read (Some now) (messageType m) (fileAttachment m) (createdAt m).


(** The conversation [getOrCreateConversation] inserts when it finds none. *)
Definition new_conversation (st : Store) (now : Date) (ps : list UserId) : Conversation :=
  mkConversation (next_oid st) ps (mkLastMessage "" None now) ∅.

(** Well-formed stores: the unique index is gone (start-up dropped it), and
    every stored object id was handed out by the store. *)
Definition store_wf (st : Store) : Prop :=
  participants_1_unique st = false
  /\ Forall (fun c => (c_id c < next_oid st)%N) (conversations st)
  /\ Forall (fun m => (m_id m < next_oid st)%N /\ (conversationId m < next_oid st)%N)
            (messages st).

(** The message list of a reply. *)
Definition reply_messages (r : Response) : list Message :=
  match res_body r with
  | messages_body _ msgs _ => msgs
  | _ => []
  end.

(** At most one conversation per unordered pair of distinct users. *)
Definition pair_unique (st : Store) : Prop :=
  forall a b : UserId, a <> b ->
    (List.length (conversations_of_pair st a b) <= 1)%nat.

(** A call of [getOrCreateConversation] run alone, for [fuel] steps. *)
Fixpoint goc_run (fuel : nat) (st : Store) (now : Date) (t : GocState)
  : Store * GocState :=
  match fuel with
  | O => (st, t)
  | S fuel' => let '(st1, t1) := goc_step st now t in goc_run fuel' st1 now t1
  end.

(** The writes the handlers are made of.  Every operation of the engine is
    a sequence of these. *)
Inductive write : Store -> Store -> Prop :=
  | write_getOrCreate st now ids :
      write st (getOrCreateConversation st now ids).1
  | write_message st now c d :
      In c (conversations st) -> d_conversationId d = c_id c ->
      write st (Message_create st now d).1
  | write_lastMessage st cid text from createdAt' :
      write st (updateConversationLastMessage cid text from createdAt' st)
  | write_increment st cid u :
      write st (incrementUnreadCount cid u st)
  | write_reset st cid u :
      write st (resetUnreadCount cid u st)
  | write_read st now m :
      In m (messages st) ->
      write st (Message_save (mark_read now m) st)
  | write_connect st now socket :
      write st (io_connection st now socket)
  | write_disconnect st socket :
      write st (socket_disconnect st socket).

(** The persistence steps shared by the two send handlers. *)
Definition persisted (st : Store) (now : Date) (senderId : UserId)
    (req : SendRequest) (st' : Store) (msg : Message) (cid : ConvId) : Prop :=
  exists peer st1 c st2,
    resolve_peer st req = Some peer
    /\ u_id peer <> senderId
    /\ getOrCreateConversation st now [senderId; u_id peer] = (st1, Ok c)
    /\ c_id c = cid
    /\ Message_create st1 now (message_doc c senderId (u_id peer) req) = (st2, Ok msg)
    /\ st' = incrementUnreadCount cid (u_id peer)
               (updateConversationLastMessage cid (lastMessageText msg)
                  (m_from msg) (createdAt msg) st2).

(** What a persisted send did to the store. *)
Definition send_effect (st st' : Store) (senderId : UserId) (msg : Message)
    (cid : ConvId) : Prop :=
  messages st' = (messages st ++ [msg])%list
  /\ status msg = sent
  /\ m_from msg = senderId /\ m_to msg <> senderId /\ conversationId msg = cid
  /\ unread_of st' cid (m_to msg) = S (unread_of st cid (m_to msg))
  /\ unread_of st' cid senderId = unread_of st cid senderId
  /\ (store_wf st -> conversations_of_pair st senderId (m_to msg) = [] ->
      unread_of st' cid (m_to msg) = 1%nat /\ unread_of st' cid senderId = 0%nat).

(** Every message of [st] is still in [st'], with a status at least as
    advanced. *)
Definition status_kept (st st' : Store) : Prop :=
  forall id m, Message_findById st id = Some m ->
    exists m', Message_findById st' id = Some m'
               /\ status_le (status m) (status m').

(** ** A small deployment used in the examples *)

Module Scenario.

Definition alice : User := mkUser "u1" "Alice" "alice@example.org".
Definition bob : User := mkUser "u2" "Bob" "bob@example.org".
Definition carol : User := mkUser "u3" "Carol" "carol@example.org".

(** The database as the server finds it, with the legacy unique index. *)
Definition legacy_store : Store := mkStore [alice; bob; carol] [] [] ∅ 0%N true.

(** After start-up. *)
Definition store0 : Store := startup legacy_store.

Definition hello : SendRequest :=
  mkSendRequest (Some "u2") None (Some "hello") None None.

(** After Alice's first "hello" to Bob, at time 1000. *)
Definition store1 : Store := (post_api_messages store0 1000 "u1" hello).1.1.

(** After a second message, at time 2000. *)
Definition store2 : Store := (post_api_messages store1 2000 "u1" hello).1.1.

(** Alice's phone and, later, her laptop. *)
Definition phone : Socket := mkSocket "s1" "u1" "alice@example.org" "Alice".
Definition laptop : Socket := mkSocket "s2" "u1" "alice@example.org" "Alice".
Definition bob_socket : Socket := mkSocket "s3" "u2" "bob@example.org" "Bob".
Definition carol_socket : Socket := mkSocket "s4" "u3" "carol@example.org" "Carol".

End Scenario.

(** ** Further routes *)

(** The reply of a route: a status with a body, or a status with an error. *)
Inductive Reply (A : Type) :=
  | replied (code : nat) (body : A)
  | refused (code : nat) (error : string).
Arguments replied {A} code body.
Arguments refused {A} code error.

(** *** [GET /api/threads] *)

Record Thread := mkThread {
  t_conversationId : ConvId;
  t_peerId : UserId;
  t_name : string;
  t_email : string;
  t_lastMessage : string;
  t_lastAt : Date;
  t_unreadCount : nat
}.

(** [populate('participants', 'name email')]: the ids are replaced by the
    users found; an id without a user is dropped from the array. *)
Definition populate (st : Store) (ps : list UserId) : list User :=
  omap (User_findById st) ps.

(** Latest first: the order of [sort({ 'lastMessage.timestamp': -1 })]. *)
Definition later_or_same (c1 c2 : Conversation) : Prop :=
  lm_timestamp (lastMessage c2) <= lm_timestamp (lastMessage c1).

#[global] Instance later_or_same_dec : RelDecision later_or_same.
Proof. intros c1 c2. unfold later_or_same. apply _. Defined.

(** [Conversation.find({ participants: userId })], latest first. *)
Definition Conversation_find_user (st : Store) (userId : UserId) : list Conversation :=
  merge_sort later_or_same
    (filter (fun c => mem_id userId (participants c) = true) (conversations st)).

(** One row of the thread list; [None] when no other participant is found,
    where [otherParticipant._id] throws. *)
Definition thread_of (st : Store) (userId : UserId) (conv : Conversation)
  : option Thread :=
  match find (fun p => negb (String.eqb (u_id p) userId))
             (populate st (participants conv)) with
  | Some otherParticipant =>
      Some (mkThread (c_id conv) (u_id otherParticipant) (u_name otherParticipant)
              (u_email otherParticipant) (lm_text (lastMessage conv))
              (lm_timestamp (lastMessage conv))
              (default 0%nat (unreadCount conv !! userId)))
  | None => None
  end.

Definition get_api_threads (st : Store) (sub : UserId) : Reply (list Thread) :=
  match User_findById st sub with
  | None => refused 401 "User not found"
  | Some _ =>
      match mapM (thread_of st sub) (Conversation_find_user st sub) with
      | Some threads => replied 200 threads
      | None => refused 500 "Server error"
      end
  end.

(** *** Presence routes *)

(** [getConnectedUsers], as the collection of its entries (the iteration
    order of the [Map] is not modelled). *)
Definition getConnectedUsers (st : Store) : list (UserId * Presence) :=
  map_to_list (connectedUsers st).

Record UserStatus := mkUserStatus {
  us_userId : UserId;
  isOnline : bool;
  lastSeen : option Date
}.

(** [GET /api/users/:userId/status] *)
Definition get_api_user_status (st : Store) (userId : UserId) : UserStatus :=
  mkUserStatus userId
    (bool_decide (is_Some (connectedUsers st !! userId)))
    (connectedAt <$> connectedUsers st !! userId).

(** *** [GET /api/users/:userId] *)

Definition hex_digit (c : ascii) : bool :=
  let n := nat_of_ascii c in
  ((48 <=? n)%nat && (n <=? 57)%nat)%bool
  || ((97 <=? n)%nat && (n <=? 102)%nat)%bool
  || ((65 <=? n)%nat && (n <=? 70)%nat)%bool.

Fixpoint hex_digits (s : string) : bool :=
  match s with
  | EmptyString => true
  | String c r => hex_digit c && hex_digits r
  end.

(** [new mongoose.Types.ObjectId(text)], which is also the cast
    [User.findById] makes of its argument: an id is read from 24
    hexadecimal digits in either case, and prints in lower case; on other
    text the cast throws.  (A text of 12 characters, which some versions of
    the driver read as the twelve bytes of an id, is not treated apart.) *)
Definition ObjectId (text : string) : option UserId :=
  if ((String.length text =? 24)%nat && hex_digits text)%bool
  then Some (JS.toLowerCase text)
  else None.

(** The route parameter [userId] is text as it stands in the URL: the
    guard compares this text with the printed id of the caller, the lookup
    casts it to an id.  The middleware is [auth], the token alone. *)
Definition get_api_user (st : Store) (sub : string) (userId : string)
  : Reply (User * option ConvId) :=
  match ObjectId sub with
  | None => refused 500 "Server error"
  | Some currentUserId =>
      if String.eqb userId currentUserId
      then refused 400 "Cannot get own profile via this endpoint"
      else
        match ObjectId userId with
        | None => refused 500 "Server error"
        | Some oid =>
            match User_findById st oid with
            | None => refused 404 "User not found"
            | Some user =>
                replied 200
                  (user, c_id <$> Conversation_findOne st [currentUserId; oid])
            end
        end
  end.

(** *** [POST /api/admin/cleanup] *)

(** The references of a message document as the collection holds it.  The
    schema requires the three of every message the handlers create; a
    document written in another way may lack any of them, and the second
    step of the clean-up looks for those. *)
Record Document := mkDocument {
  doc_id : MsgId;
  doc_conversationId : option ConvId;
  doc_from : option UserId;
  doc_to : option UserId
}.

(** What the clean-up works on: the store of the engine, and beside its
    messages the message documents that a [Message] cannot hold. *)
Record Collections := mkCollections {
  stored : Store;
  incomplete : list Document
}.

Definition document_of (m : Message) : Document :=
  mkDocument (m_id m) (Some (conversationId m)) (Some (m_from m)) (Some (m_to m)).

(** [{ $or: [{ conversationId: { $exists: false } }, { from: { $exists:
    false } }, { to: { $exists: false } }] }] *)
Definition lacks_reference (d : Document) : bool :=
  negb (bool_decide (is_Some (doc_conversationId d)))
  || negb (bool_decide (is_Some (doc_from d)))
  || negb (bool_decide (is_Some (doc_to d))).

Fixpoint delete_first {A} (p : A -> bool) (l : list A) : list A :=
  match l with
  | [] => []
  | x :: r => if p x then r else x :: delete_first p r
  end.

Definition Conversation_findByIdAndDelete (id : ConvId) (st : Store) : Store :=
  set_conversations
    (delete_first (fun c => N.eqb (c_id c) id) (conversations st)) st.

(** [Message.deleteMany({ conversationId })] on the messages of the store. *)
Definition Message_deleteMany (id : ConvId) (st : Store) : Store :=
  set_messages
    (filter (fun m => N.eqb (conversationId m) id = false) (messages st)) st.

(** [Message.deleteMany({ conversationId })] on all message documents. *)
Definition Document_deleteMany (id : ConvId) (db : Collections) : Collections :=
  mkCollections (Message_deleteMany id (stored db))
    (filter (fun d => doc_conversationId d <> Some id) (incomplete db)).

(** The participants that are stored users. *)
Definition validParticipants (st : Store) (conv : Conversation) : list UserId :=
  filter (fun p => is_Some (User_findById st p)) (participants conv).

(** The body of the loop over the conversations read at the start. *)
Definition cleanup_conversation (acc : Collections * nat) (conv : Conversation)
  : Collections * nat :=
  let '(db, cleanedConversations) := acc in
  let valid := validParticipants (stored db) conv in
  if (List.length valid =? List.length (participants conv))%nat
  then (db, cleanedConversations)
  else if (List.length valid <? 2)%nat
       then (Document_deleteMany (c_id conv)
               (mkCollections
                  (Conversation_findByIdAndDelete (c_id conv) (stored db))
                  (incomplete db)),
             S cleanedConversations)
       else (mkCollections
               (Conversation_findByIdAndUpdate (c_id conv)
                  (fun c => mkConversation (c_id c) valid (lastMessage c)
                              (unreadCount c)) (stored db))
               (incomplete db),
             cleanedConversations).

(** [Message.find({ $or: ... })]: the message documents that lack a
    reference. *)
Definition Message_find_orphaned (db : Collections) : list Document :=
  filter (fun d => lacks_reference d = true)
    ((document_of <$> messages (stored db)) ++ incomplete db)%list.

(** [Message.deleteMany({ $or: ... })] *)
Definition Message_deleteMany_orphaned (db : Collections) : Collections :=
  mkCollections
    (set_messages
       (filter (fun m => lacks_reference (document_of m) = false)
          (messages (stored db)))
       (stored db))
    (filter (fun d => lacks_reference d = false) (incomplete db)).

(** The reply counts the conversations deleted and the orphaned messages
    found after the loop. *)
Definition post_api_admin_cleanup (db : Collections) (sub : UserId)
  : Collections * Reply (nat * nat) :=
  match User_findById (stored db) sub with
  | None => (db, refused 401 "User not found")
  | Some _ =>
      let '(db1, cleanedConversations) :=
        foldl cleanup_conversation (db, 0%nat) (conversations (stored db)) in
      let orphanedMessages := Message_find_orphaned db1 in
      let db2 :=
        if (0 <? List.length orphanedMessages)%nat
        then Message_deleteMany_orphaned db1
        else db1 in
      (db2, replied 200 (cleanedConversations, List.length orphanedMessages))
  end.

(** The number of messages a fetch asks the cursor for. *)
Definition page_size (q : MessagesQuery) : nat :=
  Z.to_nat (Z.abs (query_limit (q_limit q))).

(** ** Invariants of the engine *)

(** Every participant of every conversation is a stored user. *)
Definition participants_known (st : Store) : Prop :=
  Forall (fun c => Forall (fun p => is_Some (User_findById st p)) (participants c))
         (conversations st).

(** The conversation ids are pairwise different. *)
Definition conversation_ids_unique (st : Store) : Prop :=
  NoDup (c_id <$> conversations st).

(** What the message schema and the send handlers guarantee of a stored
    message: text within 2000, a type of the enum, distinct sender and
    receiver, and a stored conversation that holds both. *)
Definition message_sound (st : Store) (m : Message) : Prop :=
  (String.length (m_text m) <= 2000)%nat
  /\ In (messageType m) ["text"; "image"; "file"]
  /\ m_from m <> m_to m
  /\ exists c, In c (conversations st) /\ c_id c = conversationId m
               /\ In (m_from m) (participants c) /\ In (m_to m) (participants c).

Definition messages_sound (st : Store) : Prop :=
  Forall (message_sound st) (messages st).

(** The writes of the handlers, with what the handlers have checked before
    them: get-or-create is called for two stored users, and a message is
    created for a stored conversation that holds its distinct sender and
    receiver. *)
Inductive checked_write : Store -> Store -> Prop :=
  | checked_getOrCreate st now a b :
      is_Some (User_findById st a) -> is_Some (User_findById st b) ->
      checked_write st (getOrCreateConversation st now [a; b]).1
  | checked_message st now c d :
      In c (conversations st) -> d_conversationId d = c_id c ->
      d_from d <> d_to d ->
      In (d_from d) (participants c) -> In (d_to d) (participants c) ->
      checked_write st (Message_create st now d).1
  | checked_lastMessage st cid text from createdAt' :
      checked_write st (updateConversationLastMessage cid text from createdAt' st)
  | checked_increment st cid u :
      checked_write st (incrementUnreadCount cid u st)
  | checked_reset st cid u :
      checked_write st (resetUnreadCount cid u st)
  | checked_read st now m :
      In m (messages st) ->
      checked_write st (Message_save (mark_read now m) st)
  | checked_connect st now socket :
      checked_write st (io_connection st now socket)
  | checked_disconnect st socket :
      checked_write st (socket_disconnect st socket).

(** What the clean-up makes of a conversation: kept as it is when all its
    participants are stored users, removed when fewer than two are, cut
    down to the stored ones otherwise. *)
Definition cleaned (st : Store) (conv : Conversation) : option Conversation :=
  let valid := validParticipants st conv in
  if (List.length valid =? List.length (participants conv))%nat then Some conv
  else if (List.length valid <? 2)%nat then None
       else Some (mkConversation (c_id conv) valid (lastMessage conv)
                    (unreadCount conv)).

(** The id is that of one of the conversations [l] which the clean-up
    removes. *)
Definition removed (st : Store) (l : list Conversation) (id : ConvId) : bool :=
  existsb (fun c => N.eqb (c_id c) id && negb (bool_decide (is_Some (cleaned st c)))) l.

(** The message documents the loop of the clean-up leaves: those of no
    removed conversation. *)
Definition kept_document (st : Store) (l : list Conversation) (d : Document) : bool :=
  match doc_conversationId d with
  | Some id => negb (removed st l id)
  | None => true
  end.

(** ** A store with conversations of a user that is gone *)

Module Leftover.

(** Conversation 0 is with a user that is not stored, conversation 1 is
    sound, conversation 2 has a third participant that is not stored. *)
Definition store : Store :=
  mkStore [Scenario.alice; Scenario.bob]
    [ mkConversation 0 ["u1"; "gone"] (mkLastMessage "bye" (Some "gone") 100) ∅;
      mkConversation 1 ["u1"; "u2"] (mkLastMessage "hello" (Some "u1") 200) ∅;
      mkConversation 2 ["gone"; "u1"; "u2"] (mkLastMessage "" None 300) ∅ ]
    [ mkMessage 3 0 "gone" "u1" "bye" sent None "text" None 100;
      mkMessage 4 1 "u1" "u2" "hello" sent None "text" None 200 ]
    ∅ 5%N false.

(** Beside the messages: a document of conversation 0 without its sender,
    one of conversation 1 without its receiver, and one without a
    conversation. *)
Definition collections : Collections :=
  mkCollections store
    [ mkDocument 10 (Some 0%N) None (Some "u1");
      mkDocument 11 (Some 1%N) (Some "u1") None;
      mkDocument 12 None (Some "u1") (Some "u2") ].

End Leftover.

(** ** Users with printed object ids *)

Module Registered.

Definition dana : User := mkUser "65a1b2c3d4e5f60718293a4b" "Dana" "dana@example.org".
Definition eli : User := mkUser "65a1b2c3d4e5f60718293a4c" "Eli" "eli@example.org".
Definition fay : User := mkUser "65a1b2c3d4e5f60718293a4d" "Fay" "fay@example.org".

(** After Dana's first message to Eli. *)
Definition store : Store :=
  (post_api_messages (mkStore [dana; eli; fay] [] [] ∅ 0%N false) 1000 (u_id dana)
     (mkSendRequest (Some (u_id eli)) None (Some "hello") None None)).1.1.

End Registered.

(** * Properties *)

(** ** Lists of documents *)

Section Documents.
Context {A : Type} (key : A -> N).

Lemma find_app_found (p : A -> bool) (l l' : list A) (x : A) :
  find p l = Some x -> find p (l ++ l') = Some x.
Proof.
  induction l as [|y l IH]; simpl; [discriminate|].
  destruct (p y); auto.
Qed.

Lemma find_app_missing (p : A -> bool) (l l' : list A) :
  find p l = None -> find p (l ++ l') = find p l'.
Proof.
  induction l as [|y l IH]; simpl; [reflexivity|].
  destruct (p y); [discriminate|auto].
Qed.

Lemma find_holds (p : A -> bool) (l : list A) (x : A) :
  find p l = Some x -> p x = true /\ In x l.
Proof.
  induction l as [|y l IH]; simpl; [discriminate|].
  destruct (p y) eqn:E.
  - intros [= <-]. auto.
  - intros H. destruct (IH H). auto.
Qed.

Lemma length_update_first (p : A -> bool) (f : A -> A) (l : list A) :
  List.length (update_first p f l) = List.length l.
Proof.
  induction l as [|y l IH]; simpl; [reflexivity|].
  destruct (p y); simpl; congruence.
Qed.

(** Updating the document with key [k] by a key-preserving [f]. *)
Lemma find_update_first_same (k : N) (f : A -> A) (l : list A) :
  (forall x, key (f x) = key x) ->
  find (fun x => N.eqb (key x) k) (update_first (fun x => N.eqb (key x) k) f l)
  = f <$> find (fun x => N.eqb (key x) k) l.
Proof.
  intros Hf. induction l as [|y l IH]; simpl; [reflexivity|].
  destruct (N.eqb (key y) k) eqn:E; simpl.
  - rewrite Hf, E. reflexivity.
  - rewrite E. exact IH.
Qed.

Lemma find_update_first_other (k k' : N) (f : A -> A) (l : list A) :
  (forall x, key (f x) = key x) -> k' <> k ->
  find (fun x => N.eqb (key x) k') (update_first (fun x => N.eqb (key x) k) f l)
  = find (fun x => N.eqb (key x) k') l.
Proof.
  intros Hf Hne. induction l as [|y l IH]; simpl; [reflexivity|].
  destruct (N.eqb (key y) k) eqn:E; simpl.
  - rewrite Hf. apply N.eqb_eq in E.
    destruct (N.eqb (key y) k') eqn:E'; [|reflexivity].
    apply N.eqb_eq in E'. congruence.
  - destruct (N.eqb (key y) k'); [reflexivity|exact IH].
Qed.

Lemma update_first_missing (p : A -> bool) (f : A -> A) (l : list A) :
  find p l = None -> update_first p f l = l.
Proof.
  induction l as [|y l IH]; simpl; [reflexivity|].
  destruct (p y); [discriminate|]. intros H. f_equal. auto.
Qed.

Lemma Forall_update_first (P : A -> Prop) (p : A -> bool) (f : A -> A) (l : list A) :
  (forall x, P x -> P (f x)) -> Forall P l -> Forall P (update_first p f l).
Proof.
  intros Hf. induction 1 as [|y l Hy Hl IH]; simpl; [constructor|].
  destruct (p y); constructor; auto.
Qed.
End Documents.

(** ** The helpers and the first-contact scenario, evaluated *)

Example sort_pair : JS.sort ["u2"; "u1"] = ["u1"; "u2"].
Proof. reflexivity. Qed.

Example trim_body : JS.trim "  hello world  " = "hello world".
Proof. reflexivity. Qed.

Example lower_email : JS.toLowerCase "Bob@Example.ORG" = "bob@example.org".
Proof. reflexivity. Qed.

Example query_limit_values :
  query_limit None = 30 /\ query_limit (Some 0) = 30
  /\ query_limit (Some 7) = 7 /\ query_limit (Some 250) = 100.
Proof. repeat split. Qed.

(** Alice's first "hello" to Bob: one conversation with the sorted pair, one
    message, Bob's counter at 1 and Alice's at 0. *)
Example first_contact :
  participants <$> conversations Scenario.store1 = [["u1"; "u2"]]
  /\ messages Scenario.store1
     = [mkMessage 1 0 "u1" "u2" "hello" sent None "text" None 1000]
  /\ lm_text <$> (lastMessage <$> conversations Scenario.store1) = ["hello"]
  /\ unread_of Scenario.store1 0%N "u2" = 1%nat
  /\ unread_of Scenario.store1 0%N "u1" = 0%nat.
Proof. vm_compute. repeat split. Qed.

(** ** Presence registry *)

Lemma connectedUsers_disconnect (st : Store) (socket : Socket) (u : UserId) :
  connectedUsers (socket_disconnect st socket) !! u
  = if decide (s_userId socket = u) then None else connectedUsers st !! u.
Proof.
  unfold socket_disconnect; simpl. apply lookup_delete.
Qed.

Lemma connectedUsers_connection (st : Store) (now : Date) (socket : Socket) :
  connectedUsers (io_connection st now socket) !! s_userId socket
  = Some (mkPresence (s_id socket) (s_userEmail socket) (s_userName socket) now).
Proof.
  unfold io_connection; simpl. apply lookup_insert_eq.
Qed.

(** C4 (as stated, refuted).  Alice connects from her phone, then from her
    laptop, so the registry entry refers to the laptop's session; the
    phone's late disconnect removes that entry. *)
Lemma stale_disconnect_evicts_newer_session :
  let st := io_connection (io_connection Scenario.store0 10 Scenario.phone)
              20 Scenario.laptop in
  socketId <$> connectedUsers st !! "u1" = Some "s2"
  /\ connectedUsers (socket_disconnect st Scenario.phone) !! "u1" = None.
Proof.
  split.
  - simpl. rewrite lookup_insert_eq. reflexivity.
  - rewrite connectedUsers_disconnect. reflexivity.
Qed.

(** C4 (amended).  A disconnect unregisters by user id alone: whichever
    session of the user is registered, the entry is gone afterwards, and
    the entries of the other users stay as they are. *)
Theorem disconnect_unregisters_by_user_id
    (st : Store) (now : Date) (s1 s2 : Socket) (u : UserId) :
  s_userId s1 = s_userId s2 ->
  u <> s_userId s2 ->
  let st2 := io_connection st now s2 in
  socketId <$> connectedUsers st2 !! s_userId s2 = Some (s_id s2)
  /\ connectedUsers (socket_disconnect st2 s1) !! s_userId s2 = None
  /\ connectedUsers (socket_disconnect st2 s1) !! u = connectedUsers st !! u.
Proof.
  intros Hsame Hu st2. subst st2. split; [|split].
  - rewrite connectedUsers_connection. reflexivity.
  - rewrite connectedUsers_disconnect, Hsame.
    destruct (decide _) as [_|Hn]; [reflexivity|contradiction].
  - rewrite connectedUsers_disconnect, Hsame.
    destruct (decide _) as [He|_]; [congruence|].
    unfold io_connection; simpl. apply lookup_insert_ne. congruence.
Qed.

Lemma disconnect_unregisters_by_user_id_witness :
  let st2 := io_connection Scenario.store0 20 Scenario.laptop in
  socketId <$> connectedUsers st2 !! "u1" = Some "s2"
  /\ connectedUsers (socket_disconnect st2 Scenario.phone) !! "u1" = None
  /\ connectedUsers (socket_disconnect st2 Scenario.phone) !! "u2"
     = connectedUsers Scenario.store0 !! "u2".
Proof.
  apply (disconnect_unregisters_by_user_id Scenario.store0 20
           Scenario.phone Scenario.laptop "u2").
  - reflexivity.
  - discriminate.
Defined.

(** ** Read receipts *)

Lemma Message_findById_save (st : Store) (m : Message) (id : MsgId) :
  Message_findById (Message_save m st) id
  = if decide (id = m_id m)
    then (fun _ => m) <$> Message_findById st id
    else Message_findById st id.
Proof.
  unfold Message_findById, Message_save; simpl.
  destruct (decide (id = m_id m)) as [->|Hne].
  - induction (messages st) as [|x l IH]; simpl; [reflexivity|].
    destruct (N.eqb (m_id x) (m_id m)) eqn:E; simpl.
    + rewrite N.eqb_refl. reflexivity.
    + rewrite E. exact IH.
  - induction (messages st) as [|x l IH]; simpl; [reflexivity|].
    destruct (N.eqb (m_id x) (m_id m)) eqn:E; simpl.
    + apply N.eqb_eq in E.
      assert (N.eqb (m_id m) id = false) as -> by (apply N.eqb_neq; congruence).
      assert (N.eqb (m_id x) id = false) as -> by (apply N.eqb_neq; congruence).
      reflexivity.
    + destruct (N.eqb (m_id x) id); [reflexivity|exact IH].
Qed.

Lemma Message_findById_id (st : Store) (id : MsgId) (m : Message) :
  Message_findById st id = Some m -> m_id m = id.
Proof.
  intros H. apply find_holds in H as [H _]. apply N.eqb_eq in H. exact H.
Qed.

Lemma socket_message_read_ack (st : Store) (now : Date) (socket : Socket)
    (messageId : option MsgId) :
  so_ack (socket_message_read st now socket messageId) = None.
Proof.
  unfold socket_message_read. destruct messageId as [id|]; [|reflexivity].
  destruct (Message_findById st id) as [m|]; [|reflexivity].
  destruct (String.eqb _ _); reflexivity.
Qed.

(** The messages after a read receipt for [id], looked up by id. *)
Lemma socket_message_read_lookup (st : Store) (now : Date) (socket : Socket)
    (id id' : MsgId) :
  Message_findById (so_store (socket_message_read st now socket (Some id))) id'
  = match Message_findById st id with
    | Some m =>
        if String.eqb (m_to m) (s_userId socket) && bool_decide (id' = id)
        then Some (mark_read now m)
        else Message_findById st id'
    | None => Message_findById st id'
    end.
Proof.
  unfold socket_message_read.
  destruct (Message_findById st id) as [m|] eqn:Hm; [|reflexivity].
  destruct (String.eqb (m_to m) (s_userId socket)); [|reflexivity].
  pose proof (Message_findById_id _ _ _ Hm) as Hid. subst id.
  simpl. rewrite Message_findById_save. simpl.
  destruct (decide (id' = m_id m)) as [->|Hne].
  - rewrite bool_decide_eq_true_2 by reflexivity. rewrite Hm. reflexivity.
  - rewrite bool_decide_eq_false_2 by assumption. reflexivity.
Qed.

(** C5 (as stated, refuted).  Bob marks message 7 read when no such message
    is stored: nothing at all is reported to him, so no [NotFound]. *)
Lemma markRead_missing_message_reports_nothing :
  let out := socket_message_read Scenario.store1 3000 Scenario.bob_socket (Some 7%N) in
  Message_findById Scenario.store1 7%N = None
  /\ so_ack out = None
  /\ so_emits out = []
  /\ messages (so_store out) = messages Scenario.store1.
Proof. vm_compute. auto. Qed.

(** C5 (amended).  [message:read] never reports an error.  When no message
    has that id, or when the reader is not the message's receiver, it is a
    silent no-op: the store is unchanged and nothing is emitted.  When the
    reader is the receiver, the message gets status [read] and [seenAt]
    the current time, every other field and every other message stay, and
    the sender's room is told. *)
Theorem markRead_outcome
    (st : Store) (now : Date) (socket : Socket) (id id' : MsgId) :
  let out := socket_message_read st now socket (Some id) in
  so_ack out = None
  /\ match Message_findById st id with
     | None => so_store out = st /\ so_emits out = []
     | Some m =>
         if String.eqb (m_to m) (s_userId socket) then
           Message_findById (so_store out) id'
           = (if decide (id' = id) then Some (mark_read now m)
              else Message_findById st id')
           /\ conversations (so_store out) = conversations st
           /\ so_emits out
              = [(ToRoom (m_from m), message_read id (s_userId socket))]
         else so_store out = st /\ so_emits out = []
     end.
Proof.
  intros out. subst out. split; [apply socket_message_read_ack|].
  pose proof (socket_message_read_lookup st now socket id id') as Hlook.
  unfold socket_message_read in *.
  destruct (Message_findById st id) as [m|] eqn:Hm; [|auto].
  destruct (String.eqb (m_to m) (s_userId socket)) eqn:Hto; simpl in *; [|auto].
  split; [|split; reflexivity].
  rewrite Hlook. destruct (decide (id' = id)) as [->|Hne].
  - rewrite bool_decide_eq_true_2 by reflexivity. reflexivity.
  - rewrite bool_decide_eq_false_2 by assumption. reflexivity.
Qed.

(** ** Access to a conversation *)

(** [GET /api/messages] answers a non-participant exactly as it answers a
    request for a conversation that does not exist. *)
Lemma get_api_messages_hides_existence
    (st : Store) (now : Date) (sub : UserId) (q : MessagesQuery)
    (id : ConvId) (c : Conversation) :
  q_conversationId q = Some id ->
  is_Some (User_findById st sub) ->
  Conversation_findById st id = Some c ->
  mem_id sub (participants c) = false ->
  get_api_messages st now sub q
  = (st, mkResponse 404 (error_body "Conversation not found")).
Proof.
  intros Hq [u Hu] Hc Hp. unfold get_api_messages, authWithUserValidation.
  rewrite Hu, Hq, Hc, Hp. reflexivity.
Qed.

Lemma get_api_messages_missing_conversation
    (st : Store) (now : Date) (sub : UserId) (q : MessagesQuery) (id : ConvId) :
  q_conversationId q = Some id ->
  is_Some (User_findById st sub) ->
  Conversation_findById st id = None ->
  get_api_messages st now sub q
  = (st, mkResponse 404 (error_body "Conversation not found")).
Proof.
  intros Hq [u Hu] Hc. unfold get_api_messages, authWithUserValidation.
  rewrite Hu, Hq, Hc. reflexivity.
Qed.

(** C8 (the code at the failing input).  Carol is not in Alice and Bob's
    conversation 0.  [GET /api/conversations/0] answers her 403 "Access
    denied", while for the absent conversation 99 it answers 404: the two
    replies differ, and tell her that conversation 0 exists.  The messages
    route gives her the same 404 in both cases. *)
Theorem get_api_conversation_leaks_existence :
  (participants <$> Conversation_findById Scenario.store1 0%N = Some ["u1"; "u2"]
   /\ Conversation_findById Scenario.store1 99%N = None)
  /\ get_api_conversation Scenario.store1 "u3" 0%N
     = mkResponse 403 (error_body "Access denied")
  /\ get_api_conversation Scenario.store1 "u3" 99%N
     = mkResponse 404 (error_body "Conversation not found")
  /\ (get_api_messages Scenario.store1 5000 "u3"
        (mkMessagesQuery None None (Some 0%N) None None)).2
     = mkResponse 404 (error_body "Conversation not found")
  /\ (get_api_messages Scenario.store1 5000 "u3"
        (mkMessagesQuery None None (Some 99%N) None None)).2
     = mkResponse 404 (error_body "Conversation not found").
Proof. vm_compute. auto 10. Qed.

(** ** Sends that fail validation *)

Lemma User_findById_id (st : Store) (id : UserId) (u : User) :
  User_findById st id = Some u -> u_id u = id.
Proof.
  intros H. apply find_holds in H as [H _]. apply String.eqb_eq in H. exact H.
Qed.




(** C9 (the code at the failing input).  Alice sends Bob a text of three
    spaces, with no attachment, when the two have no conversation.  The
    handlers test the text as it arrives, and a string of spaces is not
    empty, so the test for an empty body lets it pass; the text is then
    trimmed, to the empty string, and stored.  Over HTTP the answer is 201,
    over the socket the message is acknowledged; a conversation of the two
    and a message with empty text and no attachment are stored and Bob's
    unread counter is 1.  The same request with the empty string as its text
    is answered 400 and stores nothing. *)
Theorem send_blank_text_is_stored :
  let blank := mkSendRequest (Some "u2") None (Some "   ") None None in
  let empty := mkSendRequest (Some "u2") None (Some "") None None in
  let stored := mkMessage 1 0 "u1" "u2" "" sent None "text" None 1000 in
  let http := post_api_messages Scenario.store0 1000 "u1" blank in
  let sock := socket_message_send Scenario.store0 1000 Scenario.phone blank in
  JS.trim "   " = ""
  /\ (conversations Scenario.store0 = [] /\ messages Scenario.store0 = [])
  /\ post_api_messages Scenario.store0 1000 "u1" empty
     = (Scenario.store0, mkResponse 400 (error_body "Text or file required"), [])
  /\ so_store (socket_message_send Scenario.store0 1000 Scenario.phone empty)
     = Scenario.store0
  /\ http.1.2 = mkResponse 201 (sent_body stored 0%N)
  /\ messages http.1.1 = [stored]
  /\ participants <$> conversations http.1.1 = [["u1"; "u2"]]
  /\ unread_of http.1.1 0%N "u2" = 1%nat
  /\ so_ack sock = Some (ack_ok stored)
  /\ so_store sock = http.1.1.
Proof. vm_compute. auto 12. Qed.

(** ** [getOrCreateConversation] as one atomic call *)

Lemma getOrCreate_cases (st : Store) (now : Date) (ids : list UserId)
    (st1 : Store) (r : Result Conversation) :
  getOrCreateConversation st now ids = (st1, r) ->
  (exists c, Conversation_findOne st (JS.sort ids) = Some c
             /\ st1 = st /\ r = Ok c)
  \/ (Conversation_findOne st (JS.sort ids) = None
      /\ participants_1_conflict st (JS.sort ids) = false
      /\ st1 = set_next_oid (next_oid st + 1)%N
                 (set_conversations
                    (conversations st ++ [new_conversation st now (JS.sort ids)]) st)
      /\ r = Ok (new_conversation st now (JS.sort ids)))
  \/ (Conversation_findOne st (JS.sort ids) = None
      /\ participants_1_conflict st (JS.sort ids) = true
      /\ st1 = st /\ r = Throw FailedToCreateOrFind).
Proof.
  unfold getOrCreateConversation, Conversation_create.
  destruct (Conversation_findOne st (JS.sort ids)) as [c|] eqn:Hfind.
  - intros [= <- <-]. left. eauto.
  - destruct (participants_1_conflict st (JS.sort ids)) eqn:Hc.
    + rewrite Hfind. intros [= <- <-]. right. right. auto.
    + intros [= <- <-]. right. left. auto.
Qed.

Lemma getOrCreate_messages (st : Store) (now : Date) (ids : list UserId)
    (st1 : Store) (r : Result Conversation) :
  getOrCreateConversation st now ids = (st1, r) ->
  messages st1 = messages st /\ users st1 = users st
  /\ connectedUsers st1 = connectedUsers st
  /\ participants_1_unique st1 = participants_1_unique st.
Proof.
  intros H. apply getOrCreate_cases in H
    as [(c & _ & -> & _)|[(_ & _ & -> & _)|(_ & _ & -> & _)]]; auto.
Qed.

(** The conversation returned is stored. *)
Lemma getOrCreate_stored (st : Store) (now : Date) (ids : list UserId)
    (st1 : Store) (c : Conversation) :
  getOrCreateConversation st now ids = (st1, Ok c) ->
  In c (conversations st1).
Proof.
  intros H. apply getOrCreate_cases in H
    as [(c' & Hf & -> & [= <-])|[(_ & _ & -> & [= <-])|(_ & _ & _ & [=])]].
  - apply find_holds in Hf. tauto.
  - simpl. apply in_or_app. right. left. reflexivity.
Qed.

Lemma In_findById (l : list Conversation) (c : Conversation) :
  In c l -> is_Some (find (fun x => N.eqb (c_id x) (c_id c)) l).
Proof.
  induction l as [|y l IH]; simpl; [tauto|].
  destruct (N.eqb (c_id y) (c_id c)) eqn:E; [eauto|].
  intros [->|H]; [|auto]. rewrite N.eqb_refl in E. discriminate.
Qed.

(** A conversation created on the way has no counters yet, so every unread
    count reads as before the call. *)
Lemma getOrCreate_unread (st : Store) (now : Date) (ids : list UserId)
    (st1 : Store) (r : Result Conversation) (cid : ConvId) (u : UserId) :
  getOrCreateConversation st now ids = (st1, r) ->
  unread_of st1 cid u = unread_of st cid u.
Proof.
  intros H. apply getOrCreate_cases in H
    as [(c & _ & -> & _)|[(_ & _ & -> & _)|(_ & _ & -> & _)]]; try reflexivity.
  unfold unread_of, Conversation_findById; simpl.
  destruct (find (fun c => N.eqb (c_id c) cid) (conversations st)) as [c|] eqn:Hf.
  - rewrite (find_app_found _ _ _ _ Hf). reflexivity.
  - rewrite (find_app_missing _ _ _ Hf). simpl.
    destruct (N.eqb (next_oid st) cid); reflexivity.
Qed.

(** ** The unread ledger *)

Lemma unread_of_update (st : Store) (cid cid' : ConvId) (u : UserId)
    (g : gmap string nat -> gmap string nat) (h : LastMessage -> LastMessage) :
  unread_of
    (Conversation_findByIdAndUpdate cid
       (fun c => mkConversation (c_id c) (participants c) (h (lastMessage c))
                   (g (unreadCount c))) st) cid' u
  = match Conversation_findById st cid' with
    | Some c =>
        default 0%nat ((if decide (cid' = cid) then g (unreadCount c)
                        else unreadCount c) !! u)
    | None => 0%nat
    end.
Proof.
  unfold unread_of, Conversation_findById, Conversation_findByIdAndUpdate; simpl.
  destruct (decide (cid' = cid)) as [->|Hne].
  - rewrite (find_update_first_same c_id) by reflexivity.
    destruct (find _ (conversations st)); reflexivity.
  - rewrite (find_update_first_other c_id) by (reflexivity || assumption).
    reflexivity.
Qed.

Lemma unread_of_reset (st : Store) (cid : ConvId) (u : UserId) :
  unread_of (resetUnreadCount cid u st) cid u = 0%nat.
Proof.
  unfold resetUnreadCount.
  rewrite (unread_of_update st cid cid u (fun m => <[u := 0%nat]> m) (fun x => x)).
  destruct (Conversation_findById st cid); [|reflexivity].
  destruct (decide (cid = cid)); [|congruence].
  rewrite lookup_insert_eq. reflexivity.
Qed.

Lemma unread_of_increment (st : Store) (cid cid' : ConvId) (u u' : UserId) :
  is_Some (Conversation_findById st cid) ->
  unread_of (incrementUnreadCount cid u st) cid' u'
  = if decide (cid' = cid /\ u' = u) then S (unread_of st cid' u')
    else unread_of st cid' u'.
Proof.
  intros [c Hc]. unfold incrementUnreadCount.
  rewrite (unread_of_update st cid cid' u'
             (fun m => <[u := S (default 0%nat (m !! u))]> m) (fun x => x)).
  unfold unread_of.
  destruct (decide (cid' = cid)) as [->|Hne].
  - rewrite Hc. destruct (decide (u' = u)) as [->|Hu].
    + rewrite lookup_insert_eq.
      destruct (decide _) as [_|Hn]; [reflexivity|tauto].
    + rewrite lookup_insert_ne by congruence.
      destruct (decide _) as [[_ ?]|_]; [congruence|reflexivity].
  - destruct (decide _) as [[? _]|_]; [congruence|].
    destruct (Conversation_findById st cid'); reflexivity.
Qed.

Lemma unread_of_lastMessage (st : Store) (cid cid' : ConvId) (u : UserId)
    (text : string) (from : UserId) (at' : Date) :
  unread_of (updateConversationLastMessage cid text from at' st) cid' u
  = unread_of st cid' u.
Proof.
  unfold updateConversationLastMessage.
  rewrite (unread_of_update st cid cid' u (fun m => m)
             (fun _ => mkLastMessage text (Some from) at')).
  unfold unread_of. destruct (Conversation_findById st cid'); [|reflexivity].
  destruct (decide _); reflexivity.
Qed.

(** ** Fetching messages *)

Lemma Conversation_findById_id (st : Store) (id : ConvId) (c : Conversation) :
  Conversation_findById st id = Some c -> c_id c = id.
Proof.
  intros H. apply find_holds in H as [H _]. apply N.eqb_eq in H. exact H.
Qed.

(** What a successful [GET /api/messages] did. *)
Lemma get_api_messages_200 (st : Store) (now : Date) (sub : UserId)
    (q : MessagesQuery) (st' : Store) (peer : User) (msgs : list Message)
    (cid : ConvId) :
  get_api_messages st now sub q
  = (st', mkResponse 200 (messages_body peer msgs cid)) ->
  exists st1 c,
    ((st1 = st /\ q_conversationId q = Some cid
      /\ Conversation_findById st cid = Some c)
     \/ (q_conversationId q = None /\ query_peer st q = Some peer
         /\ getOrCreateConversation st now [sub; u_id peer] = (st1, Ok c)))
    /\ c_id c = cid
    /\ st' = resetUnreadCount cid sub st1
    /\ msgs = reverse (Message_find st1 cid (q_before q) (query_limit (q_limit q))).
Proof.
  unfold get_api_messages, authWithUserValidation.
  destruct (User_findById st sub) as [me|]; [|discriminate].
  destruct (q_conversationId q) as [id|] eqn:Hq.
  - destruct (Conversation_findById st id) as [c|] eqn:Hc; [|discriminate].
    destruct (negb (mem_id sub (participants c))); [discriminate|].
    destruct (_ ≫= _) as [p|]; [|discriminate].
    intros [= <- <- <- Hcid].
    pose proof (Conversation_findById_id _ _ _ Hc) as Hid.
    assert (id = cid) as -> by congruence.
    exists st, c. split_and?; auto; rewrite Hid; reflexivity.
  - destruct (JS.truthy (q_peerId q) || JS.truthy (q_peerEmail q)); [|discriminate].
    destruct (query_peer st q) as [p|] eqn:Hp; [|discriminate].
    destruct (getOrCreateConversation st now [sub; u_id p]) as [st1 [c|e]] eqn:Hg;
      [|discriminate].
    intros [= <- <- <- <-].
    exists st1, c. split_and?; auto.
Qed.

Lemma messages_reset (st : Store) (cid : ConvId) (u : UserId) :
  messages (resetUnreadCount cid u st) = messages st.
Proof. reflexivity. Qed.

Lemma cursor_limit_sublist {A} (n : Z) (l : list A) (x : A) :
  x ∈ cursor_limit n l -> x ∈ l.
Proof.
  unfold cursor_limit. destruct (n =? 0); [auto|].
  intros H. apply elem_of_take in H as (i & H & _).
  apply list_elem_of_lookup. eauto.
Qed.

Lemma Message_find_elem (st : Store) (cid : ConvId) (before : option Date)
    (n : Z) (m : Message) :
  m ∈ Message_find st cid before n ->
  m ∈ messages st /\ matches_query cid before m = true.
Proof.
  unfold Message_find. intros H. apply cursor_limit_sublist in H.
  rewrite merge_sort_Permutation in H.
  apply list_elem_of_filter in H. tauto.
Qed.

(** C3.  A successful [getMessages] leaves the requesting user's unread
    counter for that conversation at 0, and changes no message: the message
    collection is the same afterwards, and every message returned is a
    stored message of that conversation, with the status it has in the
    store (a "sent" message stays "sent"). *)
Theorem getMessages_resets_unread_keeps_status
    (st : Store) (now : Date) (sub : UserId) (q : MessagesQuery)
    (st' : Store) (peer : User) (msgs : list Message) (cid : ConvId) :
  get_api_messages st now sub q
  = (st', mkResponse 200 (messages_body peer msgs cid)) ->
  unread_of st' cid sub = 0%nat
  /\ messages st' = messages st
  /\ (forall m, m ∈ msgs ->
        m ∈ messages st' /\ conversationId m = cid
        /\ Message_findById st (m_id m) = Message_findById st' (m_id m)).
Proof.
  intros H. apply get_api_messages_200 in H as (st1 & c & Hpath & Hid & -> & ->).
  assert (messages st1 = messages st) as Hm.
  { destruct Hpath as [(-> & _)|(_ & _ & Hg)]; [reflexivity|].
    apply getOrCreate_messages in Hg. tauto. }
  split; [apply unread_of_reset|]. split; [exact Hm|].
  intros m Hin. rewrite elem_of_reverse in Hin.
  apply Message_find_elem in Hin as [Hin Hq].
  unfold matches_query in Hq. apply andb_prop in Hq as [Hq _].
  apply N.eqb_eq in Hq.
  split; [exact Hin|]. split; [exact Hq|].
  unfold Message_findById. rewrite messages_reset, Hm. reflexivity.
Qed.

Lemma getMessages_resets_unread_keeps_status_witness :
  let r := get_api_messages Scenario.store1 1500 "u2"
             (mkMessagesQuery None None (Some 0%N) None None) in
  unread_of Scenario.store1 0%N "u2" = 1%nat
  /\ unread_of r.1 0%N "u2" = 0%nat
  /\ messages r.1 = messages Scenario.store1
  /\ status <$> Message_findById r.1 1%N = Some sent.
Proof.
  intros r.
  assert (r = (r.1, mkResponse 200
                      (messages_body Scenario.alice
                         [mkMessage 1 0 "u1" "u2" "hello" sent None "text" None 1000]
                         0%N))) as Hr.
  { vm_compute. reflexivity. }
  destruct (getMessages_resets_unread_keeps_status Scenario.store1 1500 "u2"
              (mkMessagesQuery None None (Some 0%N) None None) _ _ _ _ Hr)
    as (H0 & Hm & Hall).
  split; [vm_compute; reflexivity|]. split; [exact H0|]. split; [exact Hm|].
  destruct (Hall (mkMessage 1 0 "u1" "u2" "hello" sent None "text" None 1000))
    as (_ & _ & Heq).
  - apply list_elem_of_singleton. reflexivity.
  - simpl m_id in Heq. rewrite <- Heq. vm_compute. reflexivity.
Defined.

(** ** Pairs of participants *)

Lemma sort_insert_Permutation (x : string) (l : list string) :
  JS.sort_insert x l ≡ₚ x :: l.
Proof.
  induction l as [|y l IH]; simpl; [reflexivity|].
  destruct (String.leb x y); [reflexivity|].
  rewrite IH. apply Permutation_swap.
Qed.

Lemma sort_Permutation (l : list string) : JS.sort l ≡ₚ l.
Proof.
  induction l as [|x l IH]; simpl; [reflexivity|].
  unfold JS.sort in *. simpl. rewrite sort_insert_Permutation, IH. reflexivity.
Qed.

(** The filter [$all] + [$size] does not depend on the order of the ids:
    sorting them first changes nothing. *)
Lemma all_size_match_Permutation (ps ps' : list UserId) (c : Conversation) :
  ps ≡ₚ ps' -> all_size_match ps c = all_size_match ps' c.
Proof.
  intros Hp. unfold all_size_match. rewrite (Permutation_length Hp). f_equal.
  apply eq_true_iff_eq. rewrite !forallb_forall.
  split; intros H x Hx; apply H.
  - apply list_elem_of_In. rewrite Hp. apply list_elem_of_In. exact Hx.
  - apply list_elem_of_In. rewrite <- Hp. apply list_elem_of_In. exact Hx.
Qed.

Lemma all_size_match_sort (ps : list UserId) (c : Conversation) :
  all_size_match (JS.sort ps) c = all_size_match ps c.
Proof. apply all_size_match_Permutation, sort_Permutation. Qed.

Lemma find_ext {A} (p p' : A -> bool) (l : list A) :
  (forall x, p x = p' x) -> find p l = find p' l.
Proof.
  intros H. induction l as [|y l IH]; simpl; [reflexivity|].
  rewrite H, IH. reflexivity.
Qed.

Lemma find_none_filter {A} (p : A -> bool) (l : list A) :
  find p l = None <-> filter (fun x => p x = true) l = [].
Proof.
  induction l as [|y l IH]; simpl; [tauto|].
  rewrite filter_cons. destruct (p y) eqn:E.
  - destruct (decide (true = true)); [|congruence]. split; discriminate.
  - destruct (decide (false = true)); [discriminate|]. exact IH.
Qed.

Lemma findOne_pair (st : Store) (a b : UserId) :
  Conversation_findOne st (JS.sort [a; b]) = None
  <-> conversations_of_pair st a b = [].
Proof.
  unfold Conversation_findOne, conversations_of_pair.
  rewrite (find_ext _ (all_size_match [a; b])) by (intros; apply all_size_match_sort).
  apply find_none_filter.
Qed.

Lemma update_first_app_missing {A} (p : A -> bool) (f : A -> A) (l l' : list A) :
  find p l = None -> update_first p f (l ++ l') = (l ++ update_first p f l')%list.
Proof.
  induction l as [|y l IH]; simpl; [reflexivity|].
  destruct (p y); [discriminate|]. intros H. f_equal. auto.
Qed.

Lemma find_none_Forall {A} (p : A -> bool) (l : list A) :
  Forall (fun x => p x = false) l -> find p l = None.
Proof.
  induction 1 as [|y l Hy _ IH]; simpl; [reflexivity|]. rewrite Hy. exact IH.
Qed.

(** In a well-formed store the next object id is not in use. *)
Lemma wf_fresh_conversation (st : Store) :
  store_wf st -> Conversation_findById st (next_oid st) = None.
Proof.
  intros (_ & Hc & _). apply find_none_Forall.
  eapply Forall_impl; [exact Hc|]. simpl. intros c Hlt.
  apply N.eqb_neq. lia.
Qed.

Lemma wf_fresh_messages (st : Store) (before : option Date) :
  store_wf st ->
  filter (fun m => matches_query (next_oid st) before m = true) (messages st) = [].
Proof.
  intros (_ & _ & Hm). apply find_none_filter, find_none_Forall.
  eapply Forall_impl; [exact Hm|]. simpl. intros m [_ Hlt].
  unfold matches_query.
  assert (N.eqb (conversationId m) (next_oid st) = false) as ->
    by (apply N.eqb_neq; lia).
  reflexivity.
Qed.

(** C10.  [getMessages] by [peerId] or [peerEmail] is not read-only.  When
    the caller and the resolved peer have no conversation yet, the fetch
    itself inserts one: it has the sorted pair as participants, an empty
    [lastMessage] text and no message; the reply is 200 with an empty
    message list, although nothing was ever sent between the two. *)
Theorem getMessages_by_peer_creates_conversation
    (st : Store) (now : Date) (sub : UserId) (q : MessagesQuery) (peer : User) :
  store_wf st ->
  is_Some (User_findById st sub) ->
  q_conversationId q = None ->
  JS.truthy (q_peerId q) || JS.truthy (q_peerEmail q) = true ->
  query_peer st q = Some peer ->
  conversations_of_pair st sub (u_id peer) = [] ->
  exists c,
    conversations (get_api_messages st now sub q).1 = (conversations st ++ [c])%list
    /\ c_id c = next_oid st
    /\ participants c = JS.sort [sub; u_id peer]
    /\ lm_text (lastMessage c) = ""
    /\ messages (get_api_messages st now sub q).1 = messages st
    /\ Forall (fun m => conversationId m <> c_id c) (messages st)
    /\ (get_api_messages st now sub q).2
       = mkResponse 200 (messages_body peer [] (c_id c)).
Proof.
  intros Hwf [me Hme] Hq Htruthy Hpeer Hpair.
  apply findOne_pair in Hpair.
  unfold get_api_messages, authWithUserValidation.
  rewrite Hme, Hq, Htruthy, Hpeer.
  unfold getOrCreateConversation, Conversation_create, participants_1_conflict.
  rewrite Hpair. pose proof Hwf as (Hidx & Hc & Hm).
  rewrite Hidx. simpl.
  eexists. split_and?.
  - rewrite update_first_app_missing by (apply (wf_fresh_conversation st Hwf)).
    simpl. rewrite N.eqb_refl. reflexivity.
  - reflexivity.
  - reflexivity.
  - reflexivity.
  - reflexivity.
  - eapply Forall_impl; [exact Hm|]. simpl. intros m [_ Hlt]. lia.
  - unfold Message_find. simpl.
    rewrite (wf_fresh_messages st (q_before q) Hwf).
    unfold cursor_limit. destruct (_ =? 0); [reflexivity|].
    change (merge_sort newer_or_same []) with (@nil Message).
    rewrite take_nil. reflexivity.
Qed.

Lemma getMessages_by_peer_creates_conversation_witness :
  conversations_of_pair Scenario.store1 "u1" "u3" = []
  /\ exists c,
      conversations
        (get_api_messages Scenario.store1 1500 "u1"
           (mkMessagesQuery (Some "u3") None None None None)).1
      = (conversations Scenario.store1 ++ [c])%list
      /\ participants c = ["u1"; "u3"]
      /\ lm_text (lastMessage c) = "".
Proof.
  assert (conversations_of_pair Scenario.store1 "u1" "u3" = []) as Hnone
    by (vm_compute; reflexivity).
  split; [exact Hnone|].
  destruct (getMessages_by_peer_creates_conversation Scenario.store1 1500 "u1"
              (mkMessagesQuery (Some "u3") None None None None) Scenario.carol)
    as (c & Hc & _ & Hp & Ht & _).
  - split; [reflexivity|].
    split; repeat constructor; vm_compute; reflexivity.
  - eexists. vm_compute. reflexivity.
  - reflexivity.
  - reflexivity.
  - reflexivity.
  - exact Hnone.
  - exists c. auto.
Defined.

(** ** A successful send *)

Lemma unread_of_conversations (st st' : Store) (cid : ConvId) (u : UserId) :
  conversations st' = conversations st -> unread_of st' cid u = unread_of st cid u.
Proof. unfold unread_of, Conversation_findById. intros ->. reflexivity. Qed.

Lemma Message_create_ok (st : Store) (now : Date) (d : MessageDoc)
    (st2 : Store) (msg : Message) :
  Message_create st now d = (st2, Ok msg) ->
  messages st2 = (messages st ++ [msg])%list
  /\ conversations st2 = conversations st
  /\ status msg = d_status d /\ m_from msg = d_from d /\ m_to msg = d_to d
  /\ conversationId msg = d_conversationId d /\ seenAt msg = None
  /\ createdAt msg = now /\ m_id msg = next_oid st.
Proof.
  unfold Message_create. destruct (message_valid d); [|discriminate].
  intros [= <- <-]. simpl. split_and?; reflexivity.
Qed.

Lemma post_api_messages_201 (st : Store) (now : Date) (sub : UserId)
    (req : SendRequest) (st' : Store) (msg : Message) (cid : ConvId)
    (emits : list Emit) :
  post_api_messages st now sub req
  = (st', mkResponse 201 (sent_body msg cid), emits) ->
  persisted st now sub req st' msg cid.
Proof.
  unfold post_api_messages, validateUserExists.
  destruct (User_findById st sub) as [sender|] eqn:Hs; [|discriminate].
  pose proof (User_findById_id _ _ _ Hs) as Hsid.
  destruct (_ && _); [discriminate|].
  destruct (resolve_peer st req) as [peer|] eqn:Hp; [|discriminate].
  destruct (String.eqb (u_id sender) (u_id peer)) eqn:Hself; [discriminate|].
  apply String.eqb_neq in Hself. rewrite Hsid in *.
  destruct (getOrCreateConversation st now [sub; u_id peer]) as [st1 [c|e]] eqn:Hg;
    [|discriminate].
  destruct (Message_create st1 now _) as [st2 [m|e]] eqn:Hm; [|discriminate].
  intros [= <- <- <- <-].
  exists peer, st1, c, st2. split_and?; auto.
Qed.

Lemma socket_message_send_ok (st : Store) (now : Date) (socket : Socket)
    (req : SendRequest) (msg : Message) :
  so_ack (socket_message_send st now socket req) = Some (ack_ok msg) ->
  persisted st now (s_userId socket) req
    (so_store (socket_message_send st now socket req)) msg (conversationId msg).
Proof.
  unfold socket_message_send, validateUserExists.
  destruct (_ && _); [discriminate|].
  destruct (User_findById st (s_userId socket)) as [sender|] eqn:Hs; [|discriminate].
  pose proof (User_findById_id _ _ _ Hs) as Hsid.
  destruct (resolve_peer st req) as [peer|] eqn:Hp; [|discriminate].
  destruct (String.eqb (u_id sender) (u_id peer)) eqn:Hself; [discriminate|].
  apply String.eqb_neq in Hself. rewrite Hsid in *.
  destruct (getOrCreateConversation st now [s_userId socket; u_id peer])
    as [st1 [c|e]] eqn:Hg; [|discriminate].
  destruct (Message_create st1 now _) as [st2 [m|e]] eqn:Hm; [|discriminate].
  simpl. intros [= <-].
  pose proof (Message_create_ok _ _ _ _ _ Hm) as (_ & _ & _ & _ & _ & Hcid & _).
  simpl in Hcid. rewrite Hcid.
  exists peer, st1, c, st2. split_and?; auto.
Qed.

Lemma persisted_effect (st : Store) (now : Date) (senderId : UserId)
    (req : SendRequest) (st' : Store) (msg : Message) (cid : ConvId) :
  persisted st now senderId req st' msg cid ->
  send_effect st st' senderId msg cid.
Proof.
  intros (peer & st1 & c & st2 & Hp & Hne & Hg & Hcid & Hm & ->).
  pose proof (Message_create_ok _ _ _ _ _ Hm)
    as (Hms & Hcs & Hst & Hfrom & Hto & Hconv & _).
  simpl in Hst, Hfrom, Hto, Hconv.
  pose proof (getOrCreate_messages _ _ _ _ _ Hg) as (Hm1 & _).
  assert (is_Some (Conversation_findById
                     (updateConversationLastMessage cid (lastMessageText msg)
                        (m_from msg) (createdAt msg) st2) cid)) as Hex.
  { unfold Conversation_findById, updateConversationLastMessage,
      Conversation_findByIdAndUpdate; simpl.
    rewrite (find_update_first_same c_id) by reflexivity.
    rewrite Hcs, <- Hcid. apply fmap_is_Some, In_findById.
    eapply getOrCreate_stored; eauto. }
  assert (forall u, unread_of st2 cid u = unread_of st cid u) as Hun.
  { intros u. rewrite (unread_of_conversations st1 st2) by exact Hcs.
    eapply getOrCreate_unread; eauto. }
  assert (unread_of
            (incrementUnreadCount cid (u_id peer)
               (updateConversationLastMessage cid (lastMessageText msg)
                  (m_from msg) (createdAt msg) st2)) cid (m_to msg)
          = S (unread_of st cid (m_to msg))) as HB.
  { rewrite unread_of_increment by exact Hex.
    destruct (decide _) as [_|Hn]; [|rewrite Hto in Hn; tauto].
    rewrite unread_of_lastMessage. f_equal. apply Hun. }
  assert (unread_of
            (incrementUnreadCount cid (u_id peer)
               (updateConversationLastMessage cid (lastMessageText msg)
                  (m_from msg) (createdAt msg) st2)) cid senderId
          = unread_of st cid senderId) as HA.
  { rewrite unread_of_increment by exact Hex.
    destruct (decide _) as [[_ He]|_]; [congruence|].
    rewrite unread_of_lastMessage. apply Hun. }
  unfold send_effect. split_and?; try assumption.
  - simpl. rewrite Hms, Hm1. reflexivity.
  - congruence.
  - congruence.
  - intros Hwf Hpair. rewrite HA, HB.
    apply findOne_pair in Hpair. rewrite Hto in Hpair.
    apply getOrCreate_cases in Hg
      as [(c' & Hf & _)|[(_ & _ & _ & [= ->])|(_ & _ & _ & [=])]];
      [congruence|].
    simpl in Hcid. subst cid.
    unfold unread_of. rewrite (wf_fresh_conversation st Hwf). auto.
Qed.

(** C2.  A successful send from A to B, over HTTP (reply 201) or over the
    socket (acknowledged with the message), appends exactly one message,
    with status [sent]; B's unread counter for that conversation grows by
    exactly 1 and A's stays as it was.  On first contact, in a well-formed
    store, B's counter is 1 and A's is 0. *)
Theorem send_appends_one_and_counts_receiver
    (st : Store) (now : Date) (socket : Socket) (req : SendRequest) :
  (forall st' msg cid emits,
      post_api_messages st now (s_userId socket) req
      = (st', mkResponse 201 (sent_body msg cid), emits) ->
      send_effect st st' (s_userId socket) msg cid)
  /\ (forall msg,
        so_ack (socket_message_send st now socket req) = Some (ack_ok msg) ->
        send_effect st (so_store (socket_message_send st now socket req))
          (s_userId socket) msg (conversationId msg)).
Proof.
  split.
  - intros st' msg cid emits H.
    eapply persisted_effect, post_api_messages_201; eauto.
  - intros msg H.
    eapply persisted_effect, socket_message_send_ok; eauto.
Qed.

Lemma store0_wf : store_wf Scenario.store0.
Proof. split; [reflexivity|]. split; constructor. Qed.

Lemma send_appends_one_and_counts_receiver_witness :
  let msg := mkMessage 1 0 "u1" "u2" "hello" sent None "text" None 1000 in
  let answer := mkMessage 2 0 "u2" "u1" "hi" sent None "text" None 2000 in
  let out := socket_message_send Scenario.store1 2000 Scenario.bob_socket
               (mkSendRequest (Some "u1") None (Some "hi") None None) in
  store_wf Scenario.store0
  /\ conversations_of_pair Scenario.store0 "u1" "u2" = []
  /\ send_effect Scenario.store0 Scenario.store1 "u1" msg 0%N
  /\ unread_of Scenario.store1 0%N "u2" = 1%nat
  /\ unread_of Scenario.store1 0%N "u1" = 0%nat
  /\ so_ack out = Some (ack_ok answer)
  /\ send_effect Scenario.store1 (so_store out) "u2" answer 0%N
  /\ messages (so_store out) = [msg; answer]
  /\ unread_of (so_store out) 0%N "u1" = 1%nat
  /\ unread_of (so_store out) 0%N "u2" = 1%nat.
Proof.
  intros msg answer out.
  destruct (send_appends_one_and_counts_receiver Scenario.store0 1000
              Scenario.phone Scenario.hello) as [H _].
  destruct (send_appends_one_and_counts_receiver Scenario.store1 2000
              Scenario.bob_socket
              (mkSendRequest (Some "u1") None (Some "hi") None None)) as [_ Hs].
  specialize (H Scenario.store1 msg 0%N
                (post_api_messages Scenario.store0 1000 "u1" Scenario.hello).2).
  assert (conversations_of_pair Scenario.store0 "u1" "u2" = []) as Hnone
    by (vm_compute; reflexivity).
  split; [exact store0_wf|]. split; [exact Hnone|].
  assert (send_effect Scenario.store0 Scenario.store1 "u1" msg 0%N) as He.
  { apply H. vm_compute. reflexivity. }
  split; [exact He|].
  destruct He as (_ & _ & _ & _ & _ & _ & _ & Hfirst).
  destruct (Hfirst store0_wf Hnone) as [HB HA].
  split; [exact HB|]. split; [exact HA|].
  assert (so_ack out = Some (ack_ok answer)) as Hack by (vm_compute; reflexivity).
  split; [exact Hack|].
  assert (send_effect Scenario.store1 (so_store out) "u2" answer 0%N) as He'.
  { apply (Hs answer Hack). }
  split; [exact He'|].
  destruct He' as (Hm & _ & _ & _ & _ & HB' & HA' & _).
  split; [rewrite Hm; reflexivity|].
  split; [|rewrite HA'; exact HB].
  change (m_to answer) with "u1" in HB'. rewrite HB', HA. reflexivity.
Defined.

(** ** Message status over time *)

Lemma status_le_refl (s : Status) : status_le s s.
Proof. unfold status_le. lia. Qed.

Lemma status_le_read (s : Status) : status_le s read.
Proof. unfold status_le. destruct s; simpl; lia. Qed.

Lemma status_kept_refl (st : Store) : status_kept st st.
Proof. intros id m H. exists m. split; [exact H|apply status_le_refl]. Qed.

Lemma status_kept_trans (st1 st2 st3 : Store) :
  status_kept st1 st2 -> status_kept st2 st3 -> status_kept st1 st3.
Proof.
  intros H12 H23 id m H.
  destruct (H12 _ _ H) as (m2 & H2 & Hle2).
  destruct (H23 _ _ H2) as (m3 & H3 & Hle3).
  exists m3. split; [exact H3|]. unfold status_le in *. lia.
Qed.

(** Stores whose message collection only grew at the end. *)
Lemma status_kept_app (st st' : Store) (l : list Message) :
  messages st' = (messages st ++ l)%list -> status_kept st st'.
Proof.
  intros Hl id m H. exists m. split; [|apply status_le_refl].
  unfold Message_findById in *. rewrite Hl. apply find_app_found. exact H.
Qed.

Lemma status_kept_same (st st' : Store) :
  messages st' = messages st -> status_kept st st'.
Proof.
  intros H. apply (status_kept_app st st' []). rewrite H, app_nil_r. reflexivity.
Qed.

Lemma status_kept_getOrCreate (st : Store) (now : Date) (ids : list UserId) :
  status_kept st (getOrCreateConversation st now ids).1.
Proof.
  destruct (getOrCreateConversation st now ids) as [st1 r] eqn:Hg.
  apply getOrCreate_messages in Hg as (Hm & _).
  apply status_kept_same. exact Hm.
Qed.

Lemma status_kept_Message_create (st : Store) (now : Date) (d : MessageDoc) :
  status_kept st (Message_create st now d).1.
Proof.
  unfold Message_create. destruct (message_valid d); simpl.
  - eapply status_kept_app. reflexivity.
  - apply status_kept_refl.
Qed.

(** The persistence steps of a send, whatever the outcome. *)
Lemma status_kept_send_steps (st : Store) (now : Date) (senderId receiverId : UserId)
    (req : SendRequest) (st1 st2 : Store) (rc : Result Conversation)
    (rm : Result Message) (c : Conversation) :
  getOrCreateConversation st now [senderId; receiverId] = (st1, rc) ->
  Message_create st1 now (message_doc c senderId receiverId req) = (st2, rm) ->
  status_kept st st1 /\ status_kept st st2.
Proof.
  intros Hg Hm.
  pose proof (status_kept_getOrCreate st now [senderId; receiverId]) as H1.
  pose proof (status_kept_Message_create st1 now
                (message_doc c senderId receiverId req)) as H2.
  rewrite Hg in H1. rewrite Hm in H2. simpl in H1, H2.
  split; [exact H1|]. eapply status_kept_trans; eauto.
Qed.

Lemma status_kept_post_api_messages (st : Store) (now : Date) (sub : UserId)
    (req : SendRequest) :
  status_kept st (post_api_messages st now sub req).1.1.
Proof.
  unfold post_api_messages, validateUserExists.
  destruct (User_findById st sub) as [sender|]; [|apply status_kept_refl].
  destruct (_ && _); [apply status_kept_refl|].
  destruct (resolve_peer st req) as [peer|]; [|apply status_kept_refl].
  destruct (String.eqb _ _); [apply status_kept_refl|].
  destruct (getOrCreateConversation _ _ _) as [st1 [c|e]] eqn:Hg.
  - destruct (Message_create st1 now _) as [st2 [m|e]] eqn:Hm;
      destruct (status_kept_send_steps _ _ _ _ _ _ _ _ _ _ Hg Hm) as [_ H2];
      simpl.
    + eapply status_kept_trans; [exact H2|]. apply status_kept_same. reflexivity.
    + exact H2.
  - pose proof (status_kept_getOrCreate st now [u_id sender; u_id peer]) as H1.
    rewrite Hg in H1. exact H1.
Qed.

Lemma status_kept_socket_message_send (st : Store) (now : Date) (socket : Socket)
    (req : SendRequest) :
  status_kept st (so_store (socket_message_send st now socket req)).
Proof.
  unfold socket_message_send, validateUserExists.
  destruct (_ && _); [apply status_kept_refl|].
  destruct (User_findById st (s_userId socket)) as [sender|]; [|apply status_kept_refl].
  destruct (resolve_peer st req) as [peer|]; [|apply status_kept_refl].
  destruct (String.eqb _ _); [apply status_kept_refl|].
  destruct (getOrCreateConversation _ _ _) as [st1 [c|e]] eqn:Hg.
  - destruct (Message_create st1 now _) as [st2 [m|e]] eqn:Hm;
      destruct (status_kept_send_steps _ _ _ _ _ _ _ _ _ _ Hg Hm) as [_ H2];
      simpl.
    + eapply status_kept_trans; [exact H2|]. apply status_kept_same. reflexivity.
    + exact H2.
  - pose proof (status_kept_getOrCreate st now [u_id sender; u_id peer]) as H1.
    rewrite Hg in H1. exact H1.
Qed.

Lemma status_kept_get_api_messages (st : Store) (now : Date) (sub : UserId)
    (q : MessagesQuery) :
  status_kept st (get_api_messages st now sub q).1.
Proof.
  unfold get_api_messages, authWithUserValidation.
  destruct (User_findById st sub) as [me|]; [|apply status_kept_refl].
  destruct (q_conversationId q) as [id|].
  - destruct (Conversation_findById st id) as [c|]; [|apply status_kept_refl].
    destruct (negb _); [apply status_kept_refl|].
    destruct (_ ≫= _); [|apply status_kept_refl].
    apply status_kept_same. reflexivity.
  - destruct (_ || _); [|apply status_kept_refl].
    destruct (query_peer st q) as [p|]; [|apply status_kept_refl].
    pose proof (status_kept_getOrCreate st now [sub; u_id p]) as H1.
    destruct (getOrCreateConversation _ _ _) as [st1 [c|e]]; simpl in *.
    + eapply status_kept_trans; [exact H1|]. apply status_kept_same. reflexivity.
    + exact H1.
Qed.

Lemma status_kept_post_api_conversations (st : Store) (now : Date) (sub : UserId)
    (peerId : option string) :
  status_kept st (post_api_conversations st now sub peerId).1.
Proof.
  unfold post_api_conversations, authWithUserValidation, validateUserExists.
  destruct (User_findById st sub) as [me|]; [|apply status_kept_refl].
  destruct (negb _); [apply status_kept_refl|].
  destruct (User_findById st _) as [p|]; [|apply status_kept_refl].
  destruct (String.eqb _ _); [apply status_kept_refl|].
  pose proof (status_kept_getOrCreate st now [u_id me; u_id p]) as H1.
  destruct (getOrCreateConversation _ _ _) as [st1 [c|e]]; exact H1.
Qed.

(** A read receipt only ever writes [read], the last status. *)
Lemma status_kept_socket_message_read (st : Store) (now : Date) (socket : Socket)
    (messageId : option MsgId) :
  status_kept st (so_store (socket_message_read st now socket messageId)).
Proof.
  unfold socket_message_read.
  destruct messageId as [id|]; [|apply status_kept_refl].
  destruct (Message_findById st id) as [m|] eqn:Hm; [|apply status_kept_refl].
  destruct (String.eqb _ _); [|apply status_kept_refl].
  simpl. intros id' m' H'. rewrite Message_findById_save. simpl.
  destruct (decide (id' = m_id m)) as [->|Hne].
  - rewrite H'. simpl. eexists. split; [reflexivity|]. apply status_le_read.
  - exists m'. split; [exact H'|apply status_le_refl].
Qed.

Lemma status_kept_apply_op (st : Store) (op : Op) : status_kept st (apply_op st op).
Proof.
  destruct op; simpl.
  - apply status_kept_same. reflexivity.
  - apply status_kept_same. reflexivity.
  - apply status_kept_post_api_messages.
  - apply status_kept_socket_message_send.
  - apply status_kept_get_api_messages.
  - apply status_kept_socket_message_read.
  - apply status_kept_post_api_conversations.
Qed.

Lemma status_kept_run_ops (ops : list Op) (st : Store) :
  status_kept st (run_ops st ops).
Proof.
  revert st. induction ops as [|op ops IH]; intros st; simpl.
  - apply status_kept_refl.
  - eapply status_kept_trans; [apply status_kept_apply_op|apply IH].
Qed.

(** C6.  Status only moves forward in the order sent, delivered, read.
    Over any sequence of operations (connect, disconnect, send over HTTP or
    socket, fetch, read receipt, start a conversation) every stored message
    stays stored and its status never decreases.  Marking a message read a
    second time reports no error and leaves its status as the first call
    left it. *)
Theorem status_never_moves_backward
    (st : Store) (ops : list Op) (id : MsgId) (now1 now2 : Date) (socket : Socket) :
  (forall m, Message_findById st id = Some m ->
     exists m', Message_findById (run_ops st ops) id = Some m'
                /\ status_le (status m) (status m'))
  /\ (let st1 := so_store (socket_message_read st now1 socket (Some id)) in
      let out2 := socket_message_read st1 now2 socket (Some id) in
      so_ack out2 = None
      /\ status <$> Message_findById (so_store out2) id
         = status <$> Message_findById st1 id
      /\ forall m, Message_findById st id = Some m ->
           exists m2, Message_findById (so_store out2) id = Some m2
                      /\ status_le (status m) (status m2)).
Proof.
  split; [apply status_kept_run_ops|].
  intros st1 out2. split; [apply socket_message_read_ack|]. split.
  - subst out2. rewrite socket_message_read_lookup.
    destruct (Message_findById st1 id) as [m1|] eqn:H1; [|reflexivity].
    destruct (String.eqb (m_to m1) (s_userId socket)) eqn:Hto; [|reflexivity].
    rewrite bool_decide_eq_true_2 by reflexivity. simpl. f_equal.
    subst st1. rewrite socket_message_read_lookup in H1.
    destruct (Message_findById st id) as [m|] eqn:Hm; [|discriminate].
    destruct (String.eqb (m_to m) (s_userId socket)) eqn:Hto0; simpl in H1.
    + rewrite bool_decide_eq_true_2 in H1 by reflexivity.
      injection H1 as <-. reflexivity.
    + injection H1 as <-. congruence.
  - intros m Hm.
    assert (status_kept st (so_store out2)) as Hk.
    { eapply status_kept_trans; apply status_kept_socket_message_read. }
    apply (Hk id m Hm).
Qed.

Lemma status_never_moves_backward_witness :
  let ops := [OpMarkRead 3000 Scenario.bob_socket (Some 1%N);
              OpGetMessages 3500 "u2" (mkMessagesQuery None None (Some 0%N) None None);
              OpSendHttp 4000 "u2" (mkSendRequest (Some "u1") None (Some "hi") None None);
              OpMarkRead 5000 Scenario.bob_socket (Some 1%N)] in
  status <$> Message_findById Scenario.store2 1%N = Some sent
  /\ exists m', Message_findById (run_ops Scenario.store2 ops) 1%N = Some m'
                /\ status_le sent (status m').
Proof.
  intros ops. split; [vm_compute; reflexivity|].
  destruct (status_never_moves_backward Scenario.store2 ops 1%N 0 0
              Scenario.bob_socket) as [H _].
  apply (H (mkMessage 1 0 "u1" "u2" "hello" sent None "text" None 1000)).
  vm_compute. reflexivity.
Defined.

(** ** Pages of messages *)

#[local] Instance newer_or_same_total : Total newer_or_same.
Proof. intros m1 m2. unfold newer_or_same. lia. Qed.

#[local] Instance newer_or_same_trans : Transitive newer_or_same.
Proof. intros m1 m2 m3. unfold newer_or_same. lia. Qed.

Lemma cursor_limit_sorted (n : Z) (l : list Message) :
  StronglySorted newer_or_same l -> StronglySorted newer_or_same (cursor_limit n l).
Proof.
  unfold cursor_limit. destruct (n =? 0); [auto|].
  intros H. rewrite <- (take_drop (Z.to_nat (Z.abs n)) l) in H.
  apply StronglySorted_app_1_l in H. exact H.
Qed.

Lemma cursor_limit_length {A} (n : Z) (l : list A) :
  n <> 0 -> Z.of_nat (List.length (cursor_limit n l)) <= Z.abs n.
Proof.
  intros Hn. unfold cursor_limit.
  destruct (n =? 0) eqn:E; [apply Z.eqb_eq in E; contradiction|].
  rewrite length_take. lia.
Qed.

(** The page is sorted oldest first. *)
Lemma page_sorted (st : Store) (cid : ConvId) (before : option Date) (n : Z) :
  Sorted older_or_same (reverse (Message_find st cid before n)).
Proof.
  apply (Sorted_reverse newer_or_same).
  apply StronglySorted_Sorted, cursor_limit_sorted.
  apply StronglySorted_merge_sort; apply _.
Qed.

(** C7 (as stated, refuted).  With [limit=0] the page of conversation 0
    holds both stored messages, more than the limit 0 clamped to [1,100],
    which is 1. *)
Lemma getMessages_limit_zero_exceeds_clamp :
  let q := mkMessagesQuery None None (Some 0%N) (Some 0) (Some 5000) in
  let r := (get_api_messages Scenario.store2 6000 "u2" q).2 in
  res_status r = 200%nat
  /\ spec_limit (q_limit q) = 1
  /\ Z.of_nat (List.length (reply_messages r)) = 2
  /\ ~ (Z.of_nat (List.length (reply_messages r)) <= spec_limit (q_limit q)).
Proof. vm_compute. split_and?; try reflexivity. intros H. apply H. reflexivity. Qed.

(** C7 (amended).  In a successful [getMessages] with a [before] cursor
    every returned message was created strictly before the cursor, and the
    page is ordered oldest first.  A positive limit [n] bounds the page by
    [n] and by 100; without a limit, or with limit 0, the default 30 bounds
    it. *)
Theorem getMessages_page
    (st : Store) (now : Date) (sub : UserId) (q : MessagesQuery)
    (st' : Store) (peer : User) (msgs : list Message) (cid : ConvId) :
  get_api_messages st now sub q
  = (st', mkResponse 200 (messages_body peer msgs cid)) ->
  (forall b m, q_before q = Some b -> m ∈ msgs -> createdAt m < b)
  /\ Sorted older_or_same msgs
  /\ (forall n, q_limit q = Some n -> 0 < n ->
        Z.of_nat (List.length msgs) <= Z.min n 100)
  /\ (q_limit q = None \/ q_limit q = Some 0 ->
      Z.of_nat (List.length msgs) <= 30).
Proof.
  intros H. apply get_api_messages_200 in H as (st1 & c & _ & _ & _ & ->).
  split_and?.
  - intros b m Hb Hin. rewrite elem_of_reverse in Hin.
    apply Message_find_elem in Hin as [_ Hq].
    unfold matches_query in Hq. rewrite Hb in Hq.
    apply andb_prop in Hq as [_ Hq]. lia.
  - apply page_sorted.
  - intros n Hn Hpos. rewrite length_reverse. unfold Message_find.
    assert (query_limit (q_limit q) = Z.min n 100) as Hl.
    { unfold query_limit. rewrite Hn.
      destruct (n =? 0) eqn:E; [lia|reflexivity]. }
    rewrite Hl.
    etransitivity; [apply cursor_limit_length; lia|]. lia.
  - intros Hn. rewrite length_reverse. unfold Message_find.
    assert (query_limit (q_limit q) = 30) as Hl.
    { unfold query_limit. destruct Hn as [-> | ->]; reflexivity. }
    rewrite Hl. etransitivity; [apply cursor_limit_length; lia|]. lia.
Qed.

Lemma getMessages_page_witness :
  let q := mkMessagesQuery None None (Some 0%N) (Some 1) (Some 2000) in
  let r := (get_api_messages Scenario.store2 6000 "u2" q).2 in
  createdAt <$> reply_messages r = [1000]
  /\ (forall m, m ∈ reply_messages r -> createdAt m < 2000)
  /\ Z.of_nat (List.length (reply_messages r)) <= Z.min 1 100.
Proof.
  intros q r.
  assert (get_api_messages Scenario.store2 6000 "u2" q
          = ((get_api_messages Scenario.store2 6000 "u2" q).1,
             mkResponse 200
               (messages_body Scenario.alice
                  [mkMessage 1 0 "u1" "u2" "hello" sent None "text" None 1000]
                  0%N))) as Hr.
  { vm_compute. reflexivity. }
  destruct (getMessages_page Scenario.store2 6000 "u2" q _ _ _ _ Hr)
    as (Hb & _ & Hn & _).
  subst r. rewrite Hr. simpl reply_messages.
  split; [reflexivity|]. split.
  - intros m Hm. apply (Hb 2000 m); [reflexivity|exact Hm].
  - apply (Hn 1); [reflexivity|lia].
Defined.

(** ** One conversation per pair *)

(** Run without interruption, the steps of a call are the function: three
    steps always reach the result. *)
Lemma goc_run_atomic (st : Store) (now : Date) (ids : list UserId) :
  goc_run 3 st now (GocFind ids)
  = ((getOrCreateConversation st now ids).1,
     GocDone (getOrCreateConversation st now ids).2).
Proof.
  unfold getOrCreateConversation. simpl.
  destruct (Conversation_findOne st (JS.sort ids)) as [c|] eqn:Hf; simpl.
  - reflexivity.
  - unfold Conversation_create.
    destruct (participants_1_conflict st (JS.sort ids)); simpl.
    + rewrite Hf. reflexivity.
    + reflexivity.
Qed.

(** A stored conversation of the pair [{a, b}] has exactly these two
    participants, so a query for its participants is a query for the pair. *)
Lemma same_pair_query (ps : list UserId) (c c' : Conversation) (a b : UserId) :
  a <> b -> participants c = ps -> all_size_match [a; b] c = true ->
  all_size_match ps c' = all_size_match [a; b] c'.
Proof.
  intros Hab Hps Hm. unfold all_size_match in Hm. rewrite Hps in Hm.
  apply andb_prop in Hm as [Hall Hlen]. apply Nat.eqb_eq in Hlen.
  destruct ps as [|p [|q [|? ?]]]; try discriminate Hlen.
  simpl in Hall. unfold mem_id in Hall. simpl in Hall.
  rewrite !orb_false_r, andb_true_r in Hall.
  apply andb_prop in Hall as [Ha Hb].
  apply orb_prop in Ha as [Ha|Ha]; apply String.eqb_eq in Ha;
    apply orb_prop in Hb as [Hb|Hb]; apply String.eqb_eq in Hb; subst;
    try contradiction.
  - reflexivity.
  - apply all_size_match_Permutation, Permutation_swap.
Qed.

Lemma length_filter_update_first {A} (P : A -> bool) (p : A -> bool)
    (f : A -> A) (l : list A) :
  (forall x, P (f x) = P x) ->
  List.length (filter (fun x => P x = true) (update_first p f l))
  = List.length (filter (fun x => P x = true) l).
Proof.
  intros Hf. induction l as [|y l IH]; simpl; [reflexivity|].
  destruct (p y).
  - rewrite !filter_cons, Hf. destruct (decide (P y = true)); reflexivity.
  - rewrite !filter_cons. destruct (decide (P y = true)); simpl; congruence.
Qed.

Lemma pair_unique_same (st st' : Store) :
  conversations st' = conversations st -> pair_unique st -> pair_unique st'.
Proof.
  intros H Hu a b Hab. unfold conversations_of_pair. rewrite H. apply Hu, Hab.
Qed.

Lemma pair_unique_update (st : Store) (id : ConvId)
    (f : Conversation -> Conversation) :
  (forall c, participants (f c) = participants c) ->
  pair_unique st -> pair_unique (Conversation_findByIdAndUpdate id f st).
Proof.
  intros Hf Hu a b Hab. unfold conversations_of_pair; simpl.
  rewrite (length_filter_update_first (all_size_match [a; b])).
  - apply Hu, Hab.
  - intros c. unfold all_size_match. rewrite Hf. reflexivity.
Qed.

(** Calls that run one after the other keep the pairs unique. *)
Lemma pair_unique_getOrCreate (st : Store) (now : Date) (ids : list UserId) :
  pair_unique st -> pair_unique (getOrCreateConversation st now ids).1.
Proof.
  intros Hu.
  destruct (getOrCreateConversation st now ids) as [st1 r] eqn:Hg.
  apply getOrCreate_cases in Hg
    as [(c & _ & -> & _)|[(Hnone & _ & -> & _)|(_ & _ & -> & _)]];
    simpl; try exact Hu.
  intros a b Hab. unfold conversations_of_pair; simpl.
  rewrite filter_app, length_app, filter_cons, filter_nil.
  destruct (decide (all_size_match [a; b] (new_conversation st now (JS.sort ids)) = true))
    as [Hm|Hm]; simpl.
  - assert (filter (fun c => all_size_match [a; b] c = true) (conversations st) = [])
      as ->; [|simpl; lia].
    apply find_none_filter.
    rewrite <- Hnone. unfold Conversation_findOne. apply find_ext. intros c'.
    symmetry. eapply same_pair_query; eauto. reflexivity.
  - specialize (Hu a b Hab). unfold conversations_of_pair in Hu. lia.
Qed.

(** ** Every operation is a sequence of writes *)

Lemma send_writes (st : Store) (now : Date) (senderId receiverId : UserId)
    (req : SendRequest) (st1 st2 : Store) (c : Conversation) (rm : Result Message) :
  getOrCreateConversation st now [senderId; receiverId] = (st1, Ok c) ->
  Message_create st1 now (message_doc c senderId receiverId req) = (st2, rm) ->
  rtc write st st2.
Proof.
  intros Hg Hm.
  eapply rtc_l; [apply (write_getOrCreate st now [senderId; receiverId])|].
  rewrite Hg. simpl.
  apply rtc_once.
  replace st2 with (Message_create st1 now (message_doc c senderId receiverId req)).1
    by (rewrite Hm; reflexivity).
  apply (write_message st1 now c); [|reflexivity].
  eapply getOrCreate_stored; eauto.
Qed.

Lemma getOrCreate_writes (st : Store) (now : Date) (ids : list UserId)
    (st1 : Store) (r : Result Conversation) :
  getOrCreateConversation st now ids = (st1, r) -> rtc write st st1.
Proof.
  intros Hg. apply rtc_once.
  replace st1 with (getOrCreateConversation st now ids).1 by (rewrite Hg; reflexivity).
  constructor.
Qed.

Lemma post_api_messages_writes (st : Store) (now : Date) (sub : UserId)
    (req : SendRequest) :
  rtc write st (post_api_messages st now sub req).1.1.
Proof.
  unfold post_api_messages, validateUserExists.
  destruct (User_findById st sub) as [sender|]; [|apply rtc_refl].
  destruct (_ && _); [apply rtc_refl|].
  destruct (resolve_peer st req) as [peer|]; [|apply rtc_refl].
  destruct (String.eqb _ _); [apply rtc_refl|].
  destruct (getOrCreateConversation _ _ _) as [st1 [c|e]] eqn:Hg.
  - destruct (Message_create st1 now _) as [st2 [m|e]] eqn:Hm;
      pose proof (send_writes _ _ _ _ _ _ _ _ _ Hg Hm) as H2; simpl.
    + eapply rtc_trans; [exact H2|].
      eapply rtc_l; [apply write_lastMessage|]. apply rtc_once, write_increment.
    + exact H2.
  - simpl. eapply getOrCreate_writes; eauto.
Qed.

Lemma socket_message_send_writes (st : Store) (now : Date) (socket : Socket)
    (req : SendRequest) :
  rtc write st (so_store (socket_message_send st now socket req)).
Proof.
  unfold socket_message_send, validateUserExists.
  destruct (_ && _); [apply rtc_refl|].
  destruct (User_findById st (s_userId socket)) as [sender|]; [|apply rtc_refl].
  destruct (resolve_peer st req) as [peer|]; [|apply rtc_refl].
  destruct (String.eqb _ _); [apply rtc_refl|].
  destruct (getOrCreateConversation _ _ _) as [st1 [c|e]] eqn:Hg.
  - destruct (Message_create st1 now _) as [st2 [m|e]] eqn:Hm;
      pose proof (send_writes _ _ _ _ _ _ _ _ _ Hg Hm) as H2; simpl.
    + eapply rtc_trans; [exact H2|].
      eapply rtc_l; [apply write_lastMessage|]. apply rtc_once, write_increment.
    + exact H2.
  - simpl. eapply getOrCreate_writes; eauto.
Qed.

Lemma get_api_messages_writes (st : Store) (now : Date) (sub : UserId)
    (q : MessagesQuery) :
  rtc write st (get_api_messages st now sub q).1.
Proof.
  unfold get_api_messages, authWithUserValidation.
  destruct (User_findById st sub) as [me|]; [|apply rtc_refl].
  destruct (q_conversationId q) as [id|].
  - destruct (Conversation_findById st id) as [c|]; [|apply rtc_refl].
    destruct (negb _); [apply rtc_refl|].
    destruct (_ ≫= _); [|apply rtc_refl].
    apply rtc_once, write_reset.
  - destruct (_ || _); [|apply rtc_refl].
    destruct (query_peer st q) as [p|]; [|apply rtc_refl].
    destruct (getOrCreateConversation _ _ _) as [st1 [c|e]] eqn:Hg; simpl.
    + eapply rtc_trans; [eapply getOrCreate_writes; eauto|].
      apply rtc_once, write_reset.
    + eapply getOrCreate_writes; eauto.
Qed.

Lemma post_api_conversations_writes (st : Store) (now : Date) (sub : UserId)
    (peerId : option string) :
  rtc write st (post_api_conversations st now sub peerId).1.
Proof.
  unfold post_api_conversations, authWithUserValidation, validateUserExists.
  destruct (User_findById st sub) as [me|]; [|apply rtc_refl].
  destruct (negb _); [apply rtc_refl|].
  destruct (User_findById st _) as [p|]; [|apply rtc_refl].
  destruct (String.eqb _ _); [apply rtc_refl|].
  destruct (getOrCreateConversation _ _ _) as [st1 [c|e]] eqn:Hg; simpl;
    eapply getOrCreate_writes; eauto.
Qed.

Lemma socket_message_read_writes (st : Store) (now : Date) (socket : Socket)
    (messageId : option MsgId) :
  rtc write st (so_store (socket_message_read st now socket messageId)).
Proof.
  unfold socket_message_read.
  destruct messageId as [id|]; [|apply rtc_refl].
  destruct (Message_findById st id) as [m|] eqn:Hm; [|apply rtc_refl].
  destruct (String.eqb _ _); [|apply rtc_refl].
  simpl. apply rtc_once. apply (write_read st now m).
  apply find_holds in Hm. tauto.
Qed.

Lemma apply_op_writes (st : Store) (op : Op) : rtc write st (apply_op st op).
Proof.
  destruct op; simpl.
  - apply rtc_once. constructor.
  - apply rtc_once. constructor.
  - apply post_api_messages_writes.
  - apply socket_message_send_writes.
  - apply get_api_messages_writes.
  - apply socket_message_read_writes.
  - apply post_api_conversations_writes.
Qed.

Lemma run_ops_writes (ops : list Op) (st : Store) : rtc write st (run_ops st ops).
Proof.
  revert st. induction ops as [|op ops IH]; intros st; simpl.
  - apply rtc_refl.
  - eapply rtc_trans; [apply apply_op_writes|apply IH].
Qed.

(** An invariant of the writes is an invariant of the operations. *)
Lemma invariant_run_ops (I : Store -> Prop) :
  (forall st st', write st st' -> I st -> I st') ->
  forall ops st, I st -> I (run_ops st ops).
Proof.
  intros Hw ops st Hst.
  pose proof (run_ops_writes ops st) as Hr.
  induction Hr as [x|x y z Hxy _ IH]; [exact Hst|].
  apply IH. eapply Hw; eauto.
Qed.

(** *** Well-formed stores stay well-formed *)



(** *** Operations that run one at a time keep the pairs unique *)

Lemma write_pair_unique (st st' : Store) :
  write st st' -> pair_unique st -> pair_unique st'.
Proof.
  intros Hw Hu. destruct Hw.
  - apply pair_unique_getOrCreate, Hu.
  - eapply pair_unique_same; [|exact Hu].
    unfold Message_create. destruct (message_valid d); reflexivity.
  - apply pair_unique_update; [reflexivity|exact Hu].
  - apply pair_unique_update; [reflexivity|exact Hu].
  - apply pair_unique_update; [reflexivity|exact Hu].
  - eapply pair_unique_same; [|exact Hu]. reflexivity.
  - eapply pair_unique_same; [|exact Hu]. reflexivity.
  - eapply pair_unique_same; [|exact Hu]. reflexivity.
Qed.

Lemma pair_unique_run_ops (ops : list Op) (st : Store) :
  pair_unique st -> pair_unique (run_ops st ops).
Proof. apply invariant_run_ops. exact write_pair_unique. Qed.

(** *** Calls that interleave *)

Lemma new_conversation_matches (st : Store) (now : Date) (a b : UserId)
    (ps : list UserId) :
  ps ≡ₚ [a; b] -> all_size_match [a; b] (new_conversation st now ps) = true.
Proof.
  intros Hp. unfold all_size_match; simpl.
  rewrite (Permutation_length Hp); simpl. rewrite andb_true_r.
  assert (forall x, x ∈ [a; b] -> mem_id x ps = true) as Hmem.
  { intros x Hx. rewrite <- Hp in Hx. unfold mem_id. apply existsb_exists.
    exists x. split; [apply list_elem_of_In, Hx|apply String.eqb_refl]. }
  rewrite !Hmem by set_solver. reflexivity.
Qed.

Lemma goc_step_find_none (st : Store) (now : Date) (ids : list UserId) :
  Conversation_findOne st (JS.sort ids) = None ->
  goc_step st now (GocFind ids) = (st, GocCreate (JS.sort ids)).
Proof. intros H. simpl. rewrite H. reflexivity. Qed.

(** With the unique index dropped an insert is never refused. *)
Lemma goc_step_create (st : Store) (now : Date) (ps : list UserId) :
  participants_1_unique st = false ->
  goc_step st now (GocCreate ps)
  = (set_next_oid (next_oid st + 1)%N
       (set_conversations (conversations st ++ [new_conversation st now ps]) st),
     GocDone (Ok (new_conversation st now ps))).
Proof.
  intros H. simpl. unfold Conversation_create, participants_1_conflict.
  rewrite H. reflexivity.
Qed.

(** Two calls for the same pair, each suspended between its lookup and its
    insert: with the unique index dropped both inserts succeed, and the pair
    has two conversations more than before. *)
Lemma race_inserts_twice (st : Store) (now : Date) (a b : UserId) :
  participants_1_unique st = false ->
  conversations_of_pair st a b = [] ->
  List.length
    (conversations_of_pair
       (run_schedule st now [GocFind [a; b]; GocFind [b; a]] [0; 1; 0; 1]%nat).1
       a b) = 2%nat.
Proof.
  intros Hidx Hnone.
  pose proof (proj2 (findOne_pair st a b) Hnone) as Hab.
  assert (Conversation_findOne st (JS.sort [b; a]) = None) as Hba.
  { rewrite <- Hab. unfold Conversation_findOne. apply find_ext. intros c.
    apply all_size_match_Permutation.
    rewrite !sort_Permutation. apply Permutation_swap. }
  unfold run_schedule. cbn [lookup list_lookup].
  rewrite (goc_step_find_none _ _ _ Hab). cbn [insert list_insert lookup list_lookup].
  rewrite (goc_step_find_none _ _ _ Hba). cbn [insert list_insert lookup list_lookup].
  rewrite (goc_step_create _ _ _ Hidx). cbn [insert list_insert lookup list_lookup].
  rewrite goc_step_create by exact Hidx.
  cbn [fst]. unfold conversations_of_pair.
  cbn [conversations set_next_oid set_conversations].
  rewrite !filter_app. fold (conversations_of_pair st a b). rewrite Hnone.
  rewrite !filter_cons, !filter_nil.
  rewrite !new_conversation_matches; [reflexivity| |apply sort_Permutation].
  rewrite sort_Permutation. apply Permutation_swap.
Qed.

(** Had the unique index stayed, the same schedule would end with one
    conversation: the second insert is refused with E11000 and that call
    re-queries and returns the first call's record. *)
Lemma race_with_unique_index_recovers :
  let r := run_schedule Scenario.legacy_store 1000
             [GocFind ["u1"; "u2"]; GocFind ["u2"; "u1"]] [0; 1; 0; 1; 1]%nat in
  c_id <$> conversations r.1 = [0%N]
  /\ r.2 = [GocDone (Ok (mkConversation 0 ["u1"; "u2"] (mkLastMessage "" None 1000) ∅));
            GocDone (Ok (mkConversation 0 ["u1"; "u2"] (mkLastMessage "" None 1000) ∅))].
Proof. vm_compute. split; reflexivity. Qed.

(** Why start-up drops that index: being multikey, it also refuses Alice a
    conversation with Carol once she has one with Bob. *)
Lemma unique_index_refuses_second_peer :
  let st := (getOrCreateConversation Scenario.legacy_store 1000 ["u1"; "u2"]).1 in
  (getOrCreateConversation st 2000 ["u1"; "u3"]).2 = Throw FailedToCreateOrFind
  /\ (getOrCreateConversation (startup st) 2000 ["u1"; "u3"]).2
     = Ok (mkConversation 1 ["u1"; "u3"] (mkLastMessage "" None 2000) ∅).
Proof. vm_compute. split; reflexivity. Qed.

(** C1 (the code at the failing input).  Alice writes to Bob while Bob
    writes to Alice, before any conversation exists.  Both calls of
    [getOrCreateConversation] look the pair up, find nothing, and are
    suspended; then both insert.  No index is unique after start-up, so no
    insert is refused: the store ends with two conversations for the one
    pair, and the calls return different conversations.  Before the two
    calls the pairs were unique. *)
Theorem getOrCreate_race_leaves_two_conversations :
  let r := run_schedule Scenario.store0 1000
             [GocFind ["u1"; "u2"]; GocFind ["u2"; "u1"]] [0; 1; 0; 1]%nat in
  pair_unique Scenario.store0
  /\ participants_1_unique Scenario.store0 = false
  /\ c_id <$> conversations_of_pair r.1 "u1" "u2" = [0; 1]%N
  /\ participants <$> conversations r.1 = [["u1"; "u2"]; ["u1"; "u2"]]
  /\ r.2 = [GocDone (Ok (mkConversation 0 ["u1"; "u2"] (mkLastMessage "" None 1000) ∅));
            GocDone (Ok (mkConversation 1 ["u1"; "u2"] (mkLastMessage "" None 1000) ∅))]
  /\ ~ pair_unique r.1.
Proof.
  intros r. split_and?.
  - intros a b _. simpl. lia.
  - reflexivity.
  - vm_compute. reflexivity.
  - vm_compute. reflexivity.
  - vm_compute. reflexivity.
  - intros Hu. specialize (Hu "u1" "u2"). 
    assert (List.length (conversations_of_pair r.1 "u1" "u2") = 2%nat) as Hlen
      by (vm_compute; reflexivity).
    rewrite Hlen in Hu. assert ("u1" <> "u2") as Hne by discriminate.
    specialize (Hu Hne). lia.
Qed.

(** * Further properties *)

(** ** Get-or-create, called again *)

Lemma all_size_match_own (ps : list UserId) (c : Conversation) :
  participants c = ps -> all_size_match ps c = true.
Proof.
  intros Hp. unfold all_size_match. rewrite Hp, Nat.eqb_refl, andb_true_r.
  apply forallb_forall. intros x Hx. unfold mem_id. apply existsb_exists.
  exists x. split; [exact Hx|apply String.eqb_refl].
Qed.

Lemma getOrCreate_found (st : Store) (now : Date) (ids : list UserId)
    (c : Conversation) :
  Conversation_findOne st (JS.sort ids) = Some c ->
  getOrCreateConversation st now ids = (st, Ok c).
Proof. intros H. unfold getOrCreateConversation. rewrite H. reflexivity. Qed.

(** After a call has returned a conversation, a lookup for the same ids in
    any order finds that conversation. *)
Lemma getOrCreate_then_findOne (st : Store) (now : Date) (ids ids' : list UserId)
    (st1 : Store) (c : Conversation) :
  ids ≡ₚ ids' ->
  getOrCreateConversation st now ids = (st1, Ok c) ->
  Conversation_findOne st1 (JS.sort ids') = Some c.
Proof.
  intros Hp Hg.
  assert (forall x, all_size_match (JS.sort ids') x = all_size_match (JS.sort ids) x)
    as Hext.
  { intros x. apply all_size_match_Permutation.
    rewrite !sort_Permutation. symmetry. exact Hp. }
  apply getOrCreate_cases in Hg
    as [(c' & Hf & -> & [= <-])|[(Hf & _ & -> & [= ->])|(_ & _ & _ & [=])]];
    unfold Conversation_findOne in *.
  - rewrite (find_ext _ _ _ Hext), Hf. reflexivity.
  - simpl. rewrite (find_ext _ _ _ Hext), (find_app_missing _ _ _ Hf). simpl.
    rewrite all_size_match_own by reflexivity. reflexivity.
Qed.

(** X1.  Once a call of [getOrCreateConversation] has returned a
    conversation, any later call for the same ids, in whatever order they
    are given, returns that same conversation and leaves the store as it
    is. *)
Theorem getOrCreate_again
    (st : Store) (now now' : Date) (ids ids' : list UserId)
    (st1 : Store) (c : Conversation) :
  ids ≡ₚ ids' ->
  getOrCreateConversation st now ids = (st1, Ok c) ->
  getOrCreateConversation st1 now' ids' = (st1, Ok c).
Proof.
  intros Hp Hg. apply getOrCreate_found.
  eapply getOrCreate_then_findOne; eauto.
Qed.

Lemma getOrCreate_again_witness :
  ["u1"; "u2"] ≡ₚ ["u2"; "u1"]
  /\ getOrCreateConversation
       (getOrCreateConversation Scenario.store0 1000 ["u1"; "u2"]).1 2000 ["u2"; "u1"]
     = getOrCreateConversation Scenario.store0 1000 ["u1"; "u2"].
Proof.
  split; [apply Permutation_swap|].
  apply (getOrCreate_again Scenario.store0 1000 2000 ["u1"; "u2"] ["u2"; "u1"]).
  - apply Permutation_swap.
  - reflexivity.
Defined.

(** ** The unread ledger, over several updates *)

Lemma findById_increment (st : Store) (cid cid' : ConvId) (u : UserId) :
  is_Some (Conversation_findById (incrementUnreadCount cid u st) cid')
  <-> is_Some (Conversation_findById st cid').
Proof.
  unfold Conversation_findById, incrementUnreadCount,
    Conversation_findByIdAndUpdate; simpl.
  destruct (decide (cid' = cid)) as [->|Hne].
  - rewrite (find_update_first_same c_id) by reflexivity. apply fmap_is_Some.
  - rewrite (find_update_first_other c_id) by (reflexivity || assumption).
    reflexivity.
Qed.

Lemma findById_reset (st : Store) (cid cid' : ConvId) (u : UserId) :
  is_Some (Conversation_findById (resetUnreadCount cid u st) cid')
  <-> is_Some (Conversation_findById st cid').
Proof.
  unfold Conversation_findById, resetUnreadCount,
    Conversation_findByIdAndUpdate; simpl.
  destruct (decide (cid' = cid)) as [->|Hne].
  - rewrite (find_update_first_same c_id) by reflexivity. apply fmap_is_Some.
  - rewrite (find_update_first_other c_id) by (reflexivity || assumption).
    reflexivity.
Qed.

Lemma unread_of_reset_other (st : Store) (cid cid' : ConvId) (u u' : UserId) :
  cid' <> cid \/ u' <> u ->
  unread_of (resetUnreadCount cid u st) cid' u' = unread_of st cid' u'.
Proof.
  intros Hne. unfold resetUnreadCount.
  rewrite (unread_of_update st cid cid' u' (fun m => <[u := 0%nat]> m) (fun x => x)).
  unfold unread_of. destruct (Conversation_findById st cid'); [|reflexivity].
  destruct (decide (cid' = cid)) as [->|_]; [|reflexivity].
  destruct Hne as [Hne|Hne]; [congruence|].
  rewrite lookup_insert_ne by congruence. reflexivity.
Qed.

(** The counter after [n] increments. *)
Lemma unread_of_increments (n : nat) (st : Store) (cid cid' : ConvId) (u u' : UserId) :
  is_Some (Conversation_findById st cid) ->
  unread_of (Nat.iter n (incrementUnreadCount cid u) st) cid' u'
  = if decide (cid' = cid /\ u' = u) then (n + unread_of st cid' u')%nat
    else unread_of st cid' u'.
Proof.
  intros Hex. induction n as [|n IH]; simpl.
  - destruct (decide _); reflexivity.
  - rewrite unread_of_increment.
    + rewrite IH. destruct (decide _); reflexivity.
    + clear IH. induction n as [|n IHn]; simpl; [exact Hex|].
      apply findById_increment. exact IHn.
Qed.

(** X2.  In a stored conversation, a reset followed by [n] increments of
    the same user's counter leaves it at exactly [n]; every other counter,
    of another user or in another conversation, reads as before. *)
Theorem reset_then_increments
    (st : Store) (cid cid' : ConvId) (u u' : UserId) (n : nat) :
  is_Some (Conversation_findById st cid) ->
  cid' <> cid \/ u' <> u ->
  let st' := Nat.iter n (incrementUnreadCount cid u) (resetUnreadCount cid u st) in
  unread_of st' cid u = n
  /\ unread_of st' cid' u' = unread_of st cid' u'.
Proof.
  intros Hex Hne st'. subst st'.
  assert (is_Some (Conversation_findById (resetUnreadCount cid u st) cid)) as Hex'
    by (apply findById_reset; exact Hex).
  rewrite !unread_of_increments by exact Hex'. split.
  - destruct (decide _) as [_|Hn]; [|tauto]. rewrite unread_of_reset. lia.
  - destruct (decide _) as [[-> ->]|_]; [destruct Hne; congruence|].
    apply unread_of_reset_other. exact Hne.
Qed.

Lemma reset_then_increments_witness :
  is_Some (Conversation_findById Scenario.store1 0%N)
  /\ unread_of (Nat.iter 3 (incrementUnreadCount 0%N "u2")
                 (resetUnreadCount 0%N "u2" Scenario.store1)) 0%N "u2" = 3%nat.
Proof.
  assert (is_Some (Conversation_findById Scenario.store1 0%N)) as Hex
    by (eexists; vm_compute; reflexivity).
  split; [exact Hex|].
  apply (reset_then_increments Scenario.store1 0%N 0%N "u2" "u1" 3 Hex).
  right. discriminate.
Defined.

(** X3.  The ledger of a conversation that is not stored: increment and
    reset change nothing at all, and the counter reads 0 before and after. *)
Theorem ledger_of_missing_conversation
    (st : Store) (cid : ConvId) (u : UserId) :
  Conversation_findById st cid = None ->
  incrementUnreadCount cid u st = st
  /\ resetUnreadCount cid u st = st
  /\ unread_of st cid u = 0%nat.
Proof.
  intros Hnone. unfold incrementUnreadCount, resetUnreadCount,
    Conversation_findByIdAndUpdate, unread_of.
  unfold Conversation_findById in Hnone.
  rewrite !update_first_missing by exact Hnone.
  unfold Conversation_findById. rewrite Hnone.
  destruct st; auto.
Qed.

Lemma ledger_of_missing_conversation_witness :
  Conversation_findById Scenario.store1 7%N = None
  /\ incrementUnreadCount 7%N "u2" Scenario.store1 = Scenario.store1.
Proof.
  assert (Conversation_findById Scenario.store1 7%N = None) as Hnone
    by (vm_compute; reflexivity).
  split; [exact Hnone|].
  apply (ledger_of_missing_conversation Scenario.store1 7%N "u2" Hnone).
Defined.

(** ** The two send handlers *)

(** X4.  The socket handler and the HTTP route persist the same: for the
    same sender, request and clock reading they leave the same store,
    whether the send succeeds or fails. *)
Theorem send_paths_persist_alike
    (st : Store) (now : Date) (socket : Socket) (req : SendRequest) (msg : Message) :
  so_store (socket_message_send st now socket req)
  = (post_api_messages st now (s_userId socket) req).1.1
  /\ (so_ack (socket_message_send st now socket req) = Some (ack_ok msg)
      <-> (post_api_messages st now (s_userId socket) req).1.2
          = mkResponse 201 (sent_body msg (conversationId msg))).
Proof.
  unfold socket_message_send, post_api_messages, validateUserExists.
  destruct (User_findById st (s_userId socket)) as [sender|].
  - destruct (_ && _); [split; [reflexivity|split; discriminate]|].
    destruct (resolve_peer st req) as [peer|];
      [|split; [reflexivity|split; discriminate]].
    destruct (String.eqb _ _); [split; [reflexivity|split; discriminate]|].
    destruct (getOrCreateConversation _ _ _) as [st1 [c|e]];
      [|split; [reflexivity|split; discriminate]].
    destruct (Message_create _ _ _) as [st2 [m|e]] eqn:Hm;
      [|split; [reflexivity|split; discriminate]].
    split; [reflexivity|]. simpl.
    pose proof (Message_create_ok _ _ _ _ _ Hm) as (_ & _ & _ & _ & _ & Hcid & _).
    simpl in Hcid. split.
    + intros [= ->]. rewrite Hcid. reflexivity.
    + intros [= -> _]. reflexivity.
  - destruct (_ && _); (split; [reflexivity|split; discriminate]).
Qed.

(** X5.  A send that passes the checks of the handler but not those of the
    message schema (a text over 2000 characters, a type outside text, image
    and file) is answered 500 and stores no message and emits nothing; yet
    the get-or-create before it has run, so on first contact the pair is
    left with a new, empty conversation. *)
Theorem send_rejected_by_schema
    (st : Store) (now : Date) (sub : UserId) (req : SendRequest) (peer : User) :
  is_Some (User_findById st sub) ->
  JS.truthy (text req) = true \/ is_Some (r_fileAttachment req) ->
  resolve_peer st req = Some peer ->
  u_id peer <> sub ->
  (forall c, message_valid (message_doc c sub (u_id peer) req) = false) ->
  post_api_messages st now sub req
  = ((getOrCreateConversation st now [sub; u_id peer]).1,
     mkResponse 500 (error_body "Server error"), [])
  /\ messages (post_api_messages st now sub req).1.1 = messages st
  /\ (participants_1_unique st = false ->
      conversations_of_pair st sub (u_id peer) = [] ->
      conversations (post_api_messages st now sub req).1.1
      = (conversations st
         ++ [new_conversation st now (JS.sort [sub; u_id peer])])%list).
Proof.
  intros [sender Hs] Hbody Hp Hne Hbad.
  assert (post_api_messages st now sub req
          = ((getOrCreateConversation st now [sub; u_id peer]).1,
             mkResponse 500 (error_body "Server error"), [])) as Heq.
  { unfold post_api_messages, validateUserExists. rewrite Hs.
    pose proof (User_findById_id _ _ _ Hs) as Hsid.
    assert (negb (JS.truthy (text req))
            && negb (bool_decide (is_Some (r_fileAttachment req))) = false) as ->.
    { destruct Hbody as [-> | Hf]; [reflexivity|].
      rewrite (bool_decide_eq_true_2 _ Hf). apply andb_false_r. }
    rewrite Hp, Hsid.
    assert (String.eqb sub (u_id peer) = false) as ->
      by (apply String.eqb_neq; congruence).
    destruct (getOrCreateConversation st now [sub; u_id peer]) as [st1 [c|e]];
      [|reflexivity].
    unfold Message_create. rewrite Hbad. reflexivity. }
  rewrite Heq. simpl. split; [reflexivity|]. split.
  - destruct (getOrCreateConversation st now [sub; u_id peer]) as [st1 r] eqn:Hg.
    apply getOrCreate_messages in Hg. tauto.
  - intros Hidx Hnone. apply findOne_pair in Hnone.
    unfold getOrCreateConversation, Conversation_create, participants_1_conflict.
    rewrite Hnone, Hidx. reflexivity.
Qed.

Lemma send_rejected_by_schema_witness :
  let req := mkSendRequest (Some "u3") None (Some "album") (Some "multi_image") None in
  conversations_of_pair Scenario.store1 "u1" "u3" = []
  /\ (post_api_messages Scenario.store1 2000 "u1" req).1.2
     = mkResponse 500 (error_body "Server error")
  /\ messages (post_api_messages Scenario.store1 2000 "u1" req).1.1
     = messages Scenario.store1
  /\ participants <$> conversations (post_api_messages Scenario.store1 2000 "u1" req).1.1
     = [["u1"; "u2"]; ["u1"; "u3"]].
Proof.
  intros req.
  assert (conversations_of_pair Scenario.store1 "u1" "u3" = []) as Hnone
    by (vm_compute; reflexivity).
  destruct (send_rejected_by_schema Scenario.store1 2000 "u1" req Scenario.carol)
    as (Heq & Hm & Hc).
  - eexists. vm_compute. reflexivity.
  - left. reflexivity.
  - reflexivity.
  - discriminate.
  - intros c. reflexivity.
  - split; [exact Hnone|]. split; [rewrite Heq; reflexivity|].
    split; [exact Hm|]. rewrite (Hc eq_refl Hnone). vm_compute. reflexivity.
Defined.

(** The conversation record after the persistence steps of a send. *)
Lemma persisted_conversation (st : Store) (now : Date) (senderId : UserId)
    (req : SendRequest) (st' : Store) (msg : Message) (cid : ConvId) :
  persisted st now senderId req st' msg cid ->
  exists c', Conversation_findById st' cid = Some c'
    /\ lastMessage c' = mkLastMessage (lastMessageText msg) (Some senderId) now
    /\ createdAt msg = now
    /\ m_text msg = (if JS.truthy (text req)
                     then JS.trim (JS.or_else (text req) "") else "")
    /\ messageType msg = JS.or_else (r_messageType req) "text".
Proof.
  intros (peer & st1 & c & st2 & Hp & Hne & Hg & Hcid & Hm & ->).
  pose proof (Message_create_ok _ _ _ _ _ Hm)
    as (Hms & Hcs & Hst & Hfrom & Hto & Hconv & _ & Hat & _).
  simpl in Hfrom.
  assert (is_Some (find (fun x => N.eqb (c_id x) cid) (conversations st2))) as [c0 Hc0].
  { rewrite Hcs, <- Hcid. apply In_findById. eapply getOrCreate_stored; eauto. }
  unfold Conversation_findById, incrementUnreadCount, updateConversationLastMessage,
    Conversation_findByIdAndUpdate; simpl.
  rewrite !(find_update_first_same c_id) by reflexivity. rewrite Hc0. simpl.
  eexists. split; [reflexivity|]. simpl. rewrite Hfrom, Hat.
  split; [reflexivity|]. split; [reflexivity|].
  unfold Message_create in Hm. destruct (message_valid _); [|discriminate].
  injection Hm as _ <-. simpl. auto.
Qed.



(** X7.  The live events of a send.  A successful HTTP send emits exactly
    four events, [message:new] and [thread:update] to the sender's room and
    to the receiver's room; a successful socket send emits the sender's two
    to the sending socket alone, not to the sender's room.  A send that is
    not answered with success emits nothing. *)
Theorem send_events
    (st : Store) (now : Date) (socket : Socket) (req : SendRequest) :
  (forall st' msg cid emits,
      post_api_messages st now (s_userId socket) req
      = (st', mkResponse 201 (sent_body msg cid), emits) ->
      emits = [ (ToRoom (s_userId socket), message_new msg);
                (ToRoom (m_to msg), message_new msg);
                (ToRoom (s_userId socket), thread_update cid (m_to msg));
                (ToRoom (m_to msg), thread_update cid (s_userId socket)) ])
  /\ (res_status (post_api_messages st now (s_userId socket) req).1.2 <> 201%nat ->
      (post_api_messages st now (s_userId socket) req).2 = [])
  /\ (forall msg,
        so_ack (socket_message_send st now socket req) = Some (ack_ok msg) ->
        so_emits (socket_message_send st now socket req)
        = [ (ToSocket (s_id socket), message_new msg);
            (ToRoom (m_to msg), message_new msg);
            (ToSocket (s_id socket), thread_update (conversationId msg) (m_to msg));
            (ToRoom (m_to msg), thread_update (conversationId msg) (s_userId socket)) ])
  /\ (forall error,
        so_ack (socket_message_send st now socket req) = Some (ack_error error) ->
        so_emits (socket_message_send st now socket req) = []).
Proof.
  unfold post_api_messages, socket_message_send, validateUserExists.
  destruct (User_findById st (s_userId socket)) as [sender|] eqn:Hs.
  - pose proof (User_findById_id _ _ _ Hs) as Hsid.
    destruct (_ && _); [split_and?; try discriminate; reflexivity|].
    destruct (resolve_peer st req) as [peer|];
      [|split_and?; try discriminate; reflexivity].
    destruct (String.eqb _ _); [split_and?; try discriminate; reflexivity|].
    destruct (getOrCreateConversation _ _ _) as [st1 [c|e]];
      [|split_and?; try discriminate; reflexivity].
    destruct (Message_create _ _ _) as [st2 [m|e]] eqn:Hm;
      [|split_and?; try discriminate; reflexivity].
    pose proof (Message_create_ok _ _ _ _ _ Hm)
      as (_ & _ & _ & Hfrom & Hto & Hcid & _).
    simpl in Hfrom, Hto, Hcid. simpl. split_and?.
    + intros st' msg cid emits [= _ <- <- <-].
      rewrite Hfrom, Hsid. reflexivity.
    + intros Hn. contradiction.
    + intros msg [= <-]. rewrite Hto, Hcid, Hsid. reflexivity.
    + discriminate.
  - destruct (_ && _); split_and?; try discriminate; reflexivity.
Qed.

Lemma send_events_witness :
  let msg := mkMessage 1 0 "u1" "u2" "hello" sent None "text" None 1000 in
  let self := mkSendRequest (Some "u1") None (Some "me") None None in
  let out := socket_message_send Scenario.store0 1000 Scenario.phone Scenario.hello in
  (post_api_messages Scenario.store0 1000 "u1" Scenario.hello).2
  = [ (ToRoom "u1", message_new msg); (ToRoom "u2", message_new msg);
      (ToRoom "u1", thread_update 0%N "u2"); (ToRoom "u2", thread_update 0%N "u1") ]
  /\ (post_api_messages Scenario.store0 1000 "u1" self).2 = []
  /\ so_ack out = Some (ack_ok msg)
  /\ so_emits out
     = [ (ToSocket "s1", message_new msg); (ToRoom "u2", message_new msg);
         (ToSocket "s1", thread_update 0%N "u2"); (ToRoom "u2", thread_update 0%N "u1") ]
  /\ so_ack (socket_message_send Scenario.store0 1000 Scenario.phone self)
     = Some (ack_error "Cannot send message to yourself")
  /\ so_emits (socket_message_send Scenario.store0 1000 Scenario.phone self) = [].
Proof.
  intros msg self out.
  destruct (send_events Scenario.store0 1000 Scenario.phone Scenario.hello)
    as (H & _ & Hs & _).
  destruct (send_events Scenario.store0 1000 Scenario.phone self)
    as (_ & H' & _ & Hs').
  assert (so_ack out = Some (ack_ok msg)) as Hack by (vm_compute; reflexivity).
  assert (so_ack (socket_message_send Scenario.store0 1000 Scenario.phone self)
          = Some (ack_error "Cannot send message to yourself")) as Herr
    by (vm_compute; reflexivity).
  split.
  { rewrite (H Scenario.store1 msg 0%N
               (post_api_messages Scenario.store0 1000 "u1" Scenario.hello).2)
      by (vm_compute; reflexivity).
    reflexivity. }
  split; [apply H'; vm_compute; discriminate|].
  split; [exact Hack|].
  split; [exact (Hs msg Hack)|].
  split; [exact Herr|].
  apply (Hs' _ Herr).
Defined.

(** ** Fetching by conversation id *)

Lemma reset_fields (st : Store) (cid : ConvId) (u : UserId) :
  c_id <$> conversations (resetUnreadCount cid u st) = c_id <$> conversations st
  /\ participants <$> conversations (resetUnreadCount cid u st)
     = participants <$> conversations st
  /\ lastMessage <$> conversations (resetUnreadCount cid u st)
     = lastMessage <$> conversations st.
Proof.
  unfold resetUnreadCount, Conversation_findByIdAndUpdate; simpl.
  induction (conversations st) as [|c l (IH1 & IH2 & IH3)]; [auto|].
  cbn [update_first]. destruct (N.eqb (c_id c) cid); rewrite !fmap_cons; [auto|].
  rewrite IH1, IH2, IH3. auto.
Qed.

(** X8.  A fetch by conversation id, whatever its answer, stores and
    deletes nothing: the users, the messages, and the ids, participants and
    previews of the conversations are as before.  The only thing it may
    change is the caller's own unread counter in that conversation. *)
Theorem fetch_by_id_changes_one_counter
    (st : Store) (now : Date) (sub : UserId) (q : MessagesQuery)
    (cid cid' : ConvId) (u' : UserId) :
  q_conversationId q = Some cid ->
  cid' <> cid \/ u' <> sub ->
  let st' := (get_api_messages st now sub q).1 in
  users st' = users st
  /\ messages st' = messages st
  /\ connectedUsers st' = connectedUsers st
  /\ c_id <$> conversations st' = c_id <$> conversations st
  /\ participants <$> conversations st' = participants <$> conversations st
  /\ lastMessage <$> conversations st' = lastMessage <$> conversations st
  /\ unread_of st' cid' u' = unread_of st cid' u'.
Proof.
  intros Hq Hne st'. subst st'.
  unfold get_api_messages, authWithUserValidation. rewrite Hq.
  destruct (User_findById st sub) as [me|]; [|simpl; auto 10].
  destruct (Conversation_findById st cid) as [c|] eqn:Hc; [|simpl; auto 10].
  destruct (negb _); [simpl; auto 10|].
  destruct (_ ≫= _); [|simpl; auto 10].
  pose proof (Conversation_findById_id _ _ _ Hc) as Hid. rewrite Hid. simpl.
  pose proof (reset_fields st cid sub) as (H1 & H2 & H3).
  split_and?; try reflexivity; try assumption.
  apply unread_of_reset_other. exact Hne.
Qed.

Lemma fetch_by_id_changes_one_counter_witness :
  let st' := (get_api_messages Scenario.store1 1500 "u2"
                (mkMessagesQuery None None (Some 0%N) None None)).1 in
  unread_of Scenario.store1 0%N "u2" = 1%nat
  /\ unread_of st' 0%N "u2" = 0%nat
  /\ unread_of st' 0%N "u1" = unread_of Scenario.store1 0%N "u1"
  /\ messages st' = messages Scenario.store1.
Proof.
  intros st'.
  destruct (fetch_by_id_changes_one_counter Scenario.store1 1500 "u2"
              (mkMessagesQuery None None (Some 0%N) None None) 0%N 0%N "u1")
    as (_ & Hm & _ & _ & _ & _ & Hu).
  - reflexivity.
  - right. discriminate.
  - split; [vm_compute; reflexivity|]. split; [vm_compute; reflexivity|].
    split; [exact Hu|exact Hm].
Defined.

(** ** Read receipts, repeated *)

(** X9.  A read receipt by the receiver for a message already read stamps
    [seenAt] again, with the later time, and tells the sender again; the
    message is otherwise as it was stored. *)
Theorem read_receipt_again
    (st : Store) (now1 now2 : Date) (socket : Socket) (id : MsgId) (m : Message) :
  Message_findById st id = Some m ->
  m_to m = s_userId socket ->
  let st1 := so_store (socket_message_read st now1 socket (Some id)) in
  let out2 := socket_message_read st1 now2 socket (Some id) in
  Message_findById st1 id = Some (mark_read now1 m)
  /\ Message_findById (so_store out2) id = Some (mark_read now2 m)
  /\ so_emits out2 = [(ToRoom (m_from m), message_read id (s_userId socket))].
Proof.
  intros Hm Hto st1 out2.
  assert (Message_findById st1 id = Some (mark_read now1 m)) as H1.
  { subst st1. rewrite socket_message_read_lookup, Hm, Hto, String.eqb_refl.
    rewrite bool_decide_eq_true_2 by reflexivity. reflexivity. }
  split; [exact H1|]. subst out2. split.
  - rewrite socket_message_read_lookup, H1. simpl. rewrite Hto, String.eqb_refl.
    rewrite bool_decide_eq_true_2 by reflexivity. reflexivity.
  - unfold socket_message_read at 1. rewrite H1. simpl.
    rewrite Hto, String.eqb_refl. reflexivity.
Qed.

Lemma read_receipt_again_witness :
  let st1 := so_store (socket_message_read Scenario.store1 3000 Scenario.bob_socket (Some 1%N)) in
  let out2 := socket_message_read st1 4000 Scenario.bob_socket (Some 1%N) in
  seenAt <$> Message_findById st1 1%N = Some (Some 3000)
  /\ seenAt <$> Message_findById (so_store out2) 1%N = Some (Some 4000).
Proof.
  intros st1 out2.
  destruct (read_receipt_again Scenario.store1 3000 4000 Scenario.bob_socket 1%N
              (mkMessage 1 0 "u1" "u2" "hello" sent None "text" None 1000))
    as (H1 & H2 & _).
  - vm_compute. reflexivity.
  - reflexivity.
  - subst st1 out2. rewrite H1, H2. split; reflexivity.
Defined.

(** ** Pages, walking backward *)

Lemma query_limit_nonzero (limit : option Z) : query_limit limit <> 0.
Proof.
  unfold query_limit. destruct limit as [n|]; [|lia].
  destruct (n =? 0) eqn:E; [lia|]. apply Z.eqb_neq in E. lia.
Qed.

Lemma Message_find_take (st : Store) (cid : ConvId) (q : MessagesQuery) :
  Message_find st cid (q_before q) (query_limit (q_limit q))
  = take (page_size q)
      (merge_sort newer_or_same
         (filter (fun m => matches_query cid (q_before q) m = true) (messages st))).
Proof.
  unfold Message_find, cursor_limit, page_size.
  destruct (_ =? 0) eqn:E; [|reflexivity].
  apply Z.eqb_eq in E. destruct (query_limit_nonzero _ E).
Qed.

(** The page of a successful fetch, in terms of the store before it. *)
Lemma get_api_messages_page (st : Store) (now : Date) (sub : UserId)
    (q : MessagesQuery) (st' : Store) (peer : User) (msgs : list Message)
    (cid : ConvId) :
  get_api_messages st now sub q
  = (st', mkResponse 200 (messages_body peer msgs cid)) ->
  messages st' = messages st
  /\ msgs = reverse
              (take (page_size q)
                 (merge_sort newer_or_same
                    (filter (fun m => matches_query cid (q_before q) m = true)
                            (messages st)))).
Proof.
  intros H. apply get_api_messages_200 in H as (st1 & c & Hpath & _ & -> & ->).
  assert (messages st1 = messages st) as Hm.
  { destruct Hpath as [(-> & _)|(_ & _ & Hg)]; [reflexivity|].
    apply getOrCreate_messages in Hg. tauto. }
  split; [exact Hm|]. rewrite Message_find_take, Hm. reflexivity.
Qed.

(** What [take] leaves out of a list sorted newest first. *)
Lemma take_sorted_left_out (l : list Message) (k : nat) (m : Message) :
  StronglySorted newer_or_same l -> m ∈ l -> m ∉ take k l ->
  List.length (take k l) = k
  /\ forall m', m' ∈ take k l -> createdAt m <= createdAt m'.
Proof.
  intros Hs Hl Hout.
  rewrite <- (take_drop k l) in Hs, Hl.
  assert (m ∈ drop k l) as Hd.
  { apply elem_of_app in Hl as [Hl|Hl]; [contradiction|exact Hl]. }
  split.
  - rewrite length_take.
    destruct (decide (k <= List.length l)%nat) as [Hle|Hgt]; [lia|].
    rewrite drop_ge in Hd by lia. inversion Hd.
  - intros m' Hm'. apply (StronglySorted_app_1_elem_of _ _ _ m' m Hs Hm' Hd).
Qed.

Lemma sorted_range (st : Store) (cid : ConvId) (before : option Date) :
  StronglySorted newer_or_same
    (merge_sort newer_or_same
       (filter (fun m => matches_query cid before m = true) (messages st))).
Proof. apply StronglySorted_merge_sort; apply _. Qed.



#[local] Instance older_or_same_trans : Transitive older_or_same.
Proof. intros m1 m2 m3. unfold older_or_same. lia. Qed.

Lemma page_strongly_sorted (st : Store) (cid : ConvId) (q : MessagesQuery) :
  StronglySorted older_or_same
    (reverse
       (take (page_size q)
          (merge_sort newer_or_same
             (filter (fun m => matches_query cid (q_before q) m = true)
                     (messages st))))).
Proof.
  apply Sorted_StronglySorted; [apply _|].
  apply (Sorted_reverse newer_or_same), StronglySorted_Sorted.
  pose proof (sorted_range st cid (q_before q)) as Hs.
  rewrite <- (take_drop (page_size q)) in Hs.
  apply StronglySorted_app_1_l in Hs. exact Hs.
Qed.

Lemma page_in_range (st : Store) (cid : ConvId) (q : MessagesQuery) (m : Message) :
  m ∈ reverse
        (take (page_size q)
           (merge_sort newer_or_same
              (filter (fun m => matches_query cid (q_before q) m = true)
                      (messages st)))) ->
  m ∈ messages st /\ matches_query cid (q_before q) m = true.
Proof.
  rewrite elem_of_reverse. intros H.
  apply elem_of_take in H as (i & H & _).
  assert (m ∈ merge_sort newer_or_same
                (filter (fun m => matches_query cid (q_before q) m = true)
                        (messages st))) as Hin
    by (apply list_elem_of_lookup; eauto).
  rewrite merge_sort_Permutation in Hin.
  apply list_elem_of_filter in Hin. tauto.
Qed.

(** X11.  Walking backward.  When a second fetch of the conversation takes
    as cursor the creation time of the oldest message of the first page,
    every message of the second page is strictly older than every message
    of the first, so no message comes twice and the two pages read in
    order; and a message left out of the first page whose creation time
    differs from the cursor's is either on the second page or no newer
    than all of it. *)
Theorem next_page_is_older
    (st : Store) (now1 now2 : Date) (sub : UserId) (q1 q2 : MessagesQuery)
    (st1 st2 : Store) (peer1 peer2 : User) (msgs1 msgs2 : list Message)
    (cid : ConvId) (m0 : Message) :
  get_api_messages st now1 sub q1
  = (st1, mkResponse 200 (messages_body peer1 msgs1 cid)) ->
  head msgs1 = Some m0 ->
  q_before q2 = Some (createdAt m0) ->
  get_api_messages st1 now2 sub q2
  = (st2, mkResponse 200 (messages_body peer2 msgs2 cid)) ->
  (forall m m', m ∈ msgs2 -> m' ∈ msgs1 -> createdAt m < createdAt m')
  /\ Sorted older_or_same (msgs2 ++ msgs1)
  /\ (forall m, m ∈ messages st ->
        matches_query cid (q_before q1) m = true ->
        m ∉ msgs1 -> createdAt m <> createdAt m0 -> m ∉ msgs2 ->
        forall m', m' ∈ msgs2 -> createdAt m <= createdAt m').
Proof.
  intros H1 Hhead Hcur H2.
  apply get_api_messages_page in H1 as (Hm1 & ->).
  apply get_api_messages_page in H2 as (_ & ->).
  rewrite Hm1, Hcur in *.
  pose proof (page_strongly_sorted st cid q1) as Hs1.
  pose proof (page_strongly_sorted st cid q2) as Hs2. rewrite Hcur in Hs2.
  apply head_Some in Hhead as [rest Hrest]. rewrite Hrest in Hs1.
  assert (forall m', m' ∈ m0 :: rest -> createdAt m0 <= createdAt m') as Hold.
  { intros m' Hm'. apply StronglySorted_inv in Hs1 as [_ Hall].
    apply elem_of_cons in Hm' as [->|Hm']; [lia|].
    rewrite Forall_forall in Hall. apply Hall. exact Hm'. }
  assert (forall m, m ∈ reverse
                      (take (page_size q2)
                         (merge_sort newer_or_same
                            (filter (fun m => matches_query cid (Some (createdAt m0)) m = true)
                                    (messages st)))) ->
                    createdAt m < createdAt m0) as Hyoung.
  { intros m Hm. pose proof (page_in_range st cid q2 m) as Hr.
    rewrite Hcur in Hr. destruct (Hr Hm) as [_ Hq].
    unfold matches_query in Hq. apply andb_prop in Hq as [_ Hq]. lia. }
  rewrite Hrest. split_and?.
  - intros m m' Hm Hm'. specialize (Hyoung m Hm). specialize (Hold m' Hm'). lia.
  - apply StronglySorted_Sorted, StronglySorted_app. split_and?.
    + intros x1 x2 Hx1 Hx2. specialize (Hyoung x1 Hx1). specialize (Hold x2 Hx2).
      unfold older_or_same. lia.
    + exact Hs2.
    + exact Hs1.
  - intros m Hin Hq Hout1 Hne Hout2 m' Hm'.
    rewrite <- Hrest in Hout1. rewrite elem_of_reverse in Hout1, Hout2, Hm'.
    destruct (take_sorted_left_out _ (page_size q1) m
                (sorted_range st cid (q_before q1))) as [_ Hnew1].
    { rewrite merge_sort_Permutation. apply list_elem_of_filter. auto. }
    { exact Hout1. }
    assert (createdAt m <= createdAt m0) as Hle.
    { apply Hnew1. rewrite <- elem_of_reverse, Hrest. apply list_elem_of_here. }
    destruct (take_sorted_left_out _ (page_size q2) m
                (sorted_range st cid (Some (createdAt m0)))) as [_ Hnew2].
    { rewrite merge_sort_Permutation. apply list_elem_of_filter. split; [|exact Hin].
      unfold matches_query in *. apply andb_prop in Hq as [Hc _].
      rewrite Hc. simpl. lia. }
    { exact Hout2. }
    apply Hnew2. exact Hm'.
Qed.

Lemma next_page_is_older_witness :
  let q1 := mkMessagesQuery None None (Some 0%N) (Some 1) None in
  let q2 := mkMessagesQuery None None (Some 0%N) (Some 1) (Some 2000) in
  let r1 := get_api_messages Scenario.store2 6000 "u2" q1 in
  let r2 := get_api_messages r1.1 7000 "u2" q2 in
  createdAt <$> reply_messages r1.2 = [2000]
  /\ createdAt <$> reply_messages r2.2 = [1000]
  /\ Sorted older_or_same (reply_messages r2.2 ++ reply_messages r1.2).
Proof.
  intros q1 q2 r1 r2.
  assert (r1 = (r1.1, mkResponse 200
                        (messages_body Scenario.alice
                           [mkMessage 2 0 "u1" "u2" "hello" sent None "text" None 2000]
                           0%N))) as H1 by (vm_compute; reflexivity).
  assert (r2 = (r2.1, mkResponse 200
                        (messages_body Scenario.alice
                           [mkMessage 1 0 "u1" "u2" "hello" sent None "text" None 1000]
                           0%N))) as H2 by (vm_compute; reflexivity).
  destruct (next_page_is_older Scenario.store2 6000 7000 "u2" q1 q2 r1.1 r2.1
              Scenario.alice Scenario.alice
              [mkMessage 2 0 "u1" "u2" "hello" sent None "text" None 2000]
              [mkMessage 1 0 "u1" "u2" "hello" sent None "text" None 1000] 0%N
              (mkMessage 2 0 "u1" "u2" "hello" sent None "text" None 2000) H1)
    as (_ & Hsorted & _).
  - reflexivity.
  - reflexivity.
  - exact H2.
  - rewrite H1, H2. simpl reply_messages.
    split; [reflexivity|]. split; [reflexivity|exact Hsorted].
Defined.

(** ** A send, then a fetch *)

Lemma head_take_positive {A} (k : nat) (l : list A) :
  (0 < k)%nat -> head (take k l) = head l.
Proof. destruct k; [lia|]. destruct l; reflexivity. Qed.

Lemma page_size_positive (q : MessagesQuery) : (0 < page_size q)%nat.
Proof.
  unfold page_size. pose proof (query_limit_nonzero (q_limit q)). lia.
Qed.

(** X12.  A message just sent is the last one of the next page.  When the
    clock at the send is past the creation time of every stored message, a
    following fetch of that conversation without cursor, by either party or
    whatever the limit, returns the new message as its newest, last
    element. *)
Theorem sent_message_is_fetched_last
    (st : Store) (now now' : Date) (senderId sub : UserId) (req : SendRequest)
    (st' st'' : Store) (msg : Message) (cid : ConvId) (emits : list Emit)
    (q : MessagesQuery) (peer : User) (msgs : list Message) :
  post_api_messages st now senderId req
  = (st', mkResponse 201 (sent_body msg cid), emits) ->
  (forall m, m ∈ messages st -> createdAt m < now) ->
  q_before q = None ->
  get_api_messages st' now' sub q
  = (st'', mkResponse 200 (messages_body peer msgs cid)) ->
  last msgs = Some msg.
Proof.
  intros Hsend Hpast Hcur Hget.
  apply post_api_messages_201 in Hsend.
  pose proof (persisted_effect _ _ _ _ _ _ _ Hsend)
    as (Hms & _ & _ & _ & Hconv & _).
  apply persisted_conversation in Hsend as (_ & _ & _ & Hat & _).
  apply get_api_messages_page in Hget as (_ & ->).
  rewrite last_reverse, head_take_positive by apply page_size_positive.
  rewrite Hcur, Hms.
  set (l := merge_sort newer_or_same
              (filter (fun m => matches_query cid None m = true)
                      (messages st ++ [msg])%list)).
  assert (forall x, x ∈ l -> x ∈ messages st \/ x = msg) as Hmem.
  { intros x Hx. subst l. rewrite merge_sort_Permutation in Hx.
    apply list_elem_of_filter in Hx as [_ Hx].
    apply elem_of_app in Hx as [Hx|Hx]; [left; exact Hx|right].
    apply list_elem_of_singleton in Hx. exact Hx. }
  assert (msg ∈ l) as Hin.
  { subst l. rewrite merge_sort_Permutation. apply list_elem_of_filter. split.
    - unfold matches_query. rewrite Hconv, N.eqb_refl. reflexivity.
    - apply elem_of_app. right. apply list_elem_of_singleton. reflexivity. }
  assert (StronglySorted newer_or_same l) as Hs
    by (subst l; apply StronglySorted_merge_sort; apply _).
  destruct l as [|x l']; [inversion Hin|]. simpl. f_equal.
  apply elem_of_cons in Hin as [->|Hin]; [reflexivity|].
  apply StronglySorted_inv in Hs as [_ Hall].
  rewrite Forall_forall in Hall. specialize (Hall msg Hin).
  unfold newer_or_same in Hall. rewrite Hat in Hall.
  destruct (Hmem x) as [Hx|Hx]; [apply list_elem_of_here| |exact Hx].
  specialize (Hpast x Hx). lia.
Qed.

Lemma sent_message_is_fetched_last_witness :
  (forall m, m ∈ messages Scenario.store1 -> createdAt m < 2000)
  /\ last (reply_messages
            (get_api_messages Scenario.store2 2500 "u2"
               (mkMessagesQuery None None (Some 0%N) None None)).2)
     = Some (mkMessage 2 0 "u1" "u2" "hello" sent None "text" None 2000).
Proof.
  assert (forall m, m ∈ messages Scenario.store1 -> createdAt m < 2000) as Hpast.
  { intros m Hm.
    change (messages Scenario.store1) with
      [mkMessage 1 0 "u1" "u2" "hello" sent None "text" None 1000] in Hm.
    apply list_elem_of_singleton in Hm. subst m. reflexivity. }
  split; [exact Hpast|].
  assert (get_api_messages Scenario.store2 2500 "u2"
            (mkMessagesQuery None None (Some 0%N) None None)
          = ((get_api_messages Scenario.store2 2500 "u2"
                (mkMessagesQuery None None (Some 0%N) None None)).1,
             mkResponse 200
               (messages_body Scenario.alice
                  [mkMessage 1 0 "u1" "u2" "hello" sent None "text" None 1000;
                   mkMessage 2 0 "u1" "u2" "hello" sent None "text" None 2000]
                  0%N))) as Hget by (vm_compute; reflexivity).
  rewrite Hget. simpl reply_messages.
  apply (sent_message_is_fetched_last Scenario.store1 2000 2500 "u1" "u2"
           Scenario.hello Scenario.store2
           (get_api_messages Scenario.store2 2500 "u2"
              (mkMessagesQuery None None (Some 0%N) None None)).1
           (mkMessage 2 0 "u1" "u2" "hello" sent None "text" None 2000) 0%N
           (post_api_messages Scenario.store1 2000 "u1" Scenario.hello).2
           (mkMessagesQuery None None (Some 0%N) None None) Scenario.alice
           [mkMessage 1 0 "u1" "u2" "hello" sent None "text" None 1000;
            mkMessage 2 0 "u1" "u2" "hello" sent None "text" None 2000]).
  - vm_compute. reflexivity.
  - exact Hpast.
  - reflexivity.
  - exact Hget.
Defined.

(** ** Fetching "with yourself" *)

Lemma fmap_update_first {A B} (g : A -> B) (p : A -> bool) (f : A -> A)
    (l : list A) :
  (forall x, g (f x) = g x) -> g <$> update_first p f l = g <$> l.
Proof.
  intros Hg. induction l as [|x l IH]; [reflexivity|].
  cbn [update_first]. destruct (p x); rewrite !fmap_cons; [rewrite Hg|rewrite IH];
    reflexivity.
Qed.

Lemma leb_refl (x : string) : String.leb x x = true.
Proof. destruct (String.leb_total x x); assumption. Qed.

Lemma sort_same (a : UserId) : JS.sort [a; a] = [a; a].
Proof. unfold JS.sort. simpl. rewrite leb_refl. reflexivity. Qed.

Lemma all_size_match_same (a : UserId) (c : Conversation) :
  all_size_match [a; a] c
  = mem_id a (participants c) && (List.length (participants c) =? 2)%nat.
Proof.
  unfold all_size_match. simpl.
  destruct (mem_id a (participants c)); reflexivity.
Qed.

Lemma query_peer_by_id (st : Store) (q : MessagesQuery) (id : UserId) :
  q_peerId q = Some id -> id <> "" -> query_peer st q = User_findById st id.
Proof.
  intros Hq Hne. unfold query_peer, JS.truthy, JS.or_else. rewrite Hq.
  apply String.eqb_neq in Hne. rewrite Hne. reflexivity.
Qed.

Lemma truthy_peerId (q : MessagesQuery) (id : UserId) :
  q_peerId q = Some id -> id <> "" ->
  JS.truthy (q_peerId q) || JS.truthy (q_peerEmail q) = true.
Proof.
  intros Hq Hne. unfold JS.truthy. rewrite Hq.
  apply String.eqb_neq in Hne. rewrite Hne. reflexivity.
Qed.

(** X13.  A fetch that names the caller's own id as [peerId] is not
    refused.  If the caller is in some two-participant conversation, the
    first such conversation is fetched, with whomever it is, the caller is
    reported as the peer, and the caller's unread counter there is reset.
    If the caller is in none (and the unique index is dropped), a
    conversation whose two participants are both the caller is stored. *)
Theorem fetch_with_own_id
    (st : Store) (now : Date) (sub : UserId) (q : MessagesQuery) (me : User) :
  User_findById st sub = Some me ->
  sub <> "" ->
  q_conversationId q = None ->
  q_peerId q = Some sub ->
  match find (fun c => mem_id sub (participants c)
                       && (List.length (participants c) =? 2)%nat)
             (conversations st) with
  | Some c =>
      get_api_messages st now sub q
      = (resetUnreadCount (c_id c) sub st,
         mkResponse 200
           (messages_body me
              (reverse (Message_find st (c_id c) (q_before q)
                          (query_limit (q_limit q))))
              (c_id c)))
  | None =>
      participants_1_unique st = false ->
      participants <$> conversations (get_api_messages st now sub q).1
      = ((participants <$> conversations st) ++ [[sub; sub]])%list
  end.
Proof.
  intros Hme Hne Hq Hpeer.
  pose proof (User_findById_id _ _ _ Hme) as Hid.
  unfold get_api_messages, authWithUserValidation.
  rewrite Hme, Hq, (truthy_peerId _ _ Hpeer Hne), (query_peer_by_id _ _ _ Hpeer Hne),
    Hme, Hid.
  unfold getOrCreateConversation, Conversation_findOne. rewrite sort_same.
  rewrite (find_ext _ _ _ (all_size_match_same sub)).
  destruct (find _ (conversations st)) as [c|] eqn:Hf; [reflexivity|].
  intros Hidx. unfold Conversation_create, participants_1_conflict.
  rewrite Hidx. simpl.
  rewrite fmap_update_first by reflexivity. rewrite fmap_app. reflexivity.
Qed.

Lemma fetch_with_own_id_witness :
  let q := mkMessagesQuery (Some "u1") None None None None in
  (get_api_messages Scenario.store1 1500 "u1" q).2
  = mkResponse 200
      (messages_body Scenario.alice
         [mkMessage 1 0 "u1" "u2" "hello" sent None "text" None 1000] 0%N)
  /\ participants <$> conversations (get_api_messages Scenario.store0 1500 "u1" q).1
     = [["u1"; "u1"]].
Proof.
  intros q. split.
  - pose proof (fetch_with_own_id Scenario.store1 1500 "u1" q Scenario.alice) as H.
    assert (find (fun c => mem_id "u1" (participants c)
                           && (List.length (participants c) =? 2)%nat)
                 (conversations Scenario.store1)
            = Some (mkConversation 0 ["u1"; "u2"]
                      (mkLastMessage "hello" (Some "u1") 1000)
                      (<["u2" := 1%nat]> ∅))) as Hf by (vm_compute; reflexivity).
    rewrite Hf in H. rewrite H; [reflexivity|reflexivity|discriminate|reflexivity|reflexivity].
  - pose proof (fetch_with_own_id Scenario.store0 1500 "u1" q Scenario.alice) as H.
    simpl find in H. apply H; [reflexivity|discriminate|reflexivity|reflexivity|reflexivity].
Defined.

(** ** The thread list *)

#[local] Instance later_or_same_total : Total later_or_same.
Proof. intros c1 c2. unfold later_or_same. lia. Qed.

#[local] Instance later_or_same_trans : Transitive later_or_same.
Proof. intros c1 c2 c3. unfold later_or_same. lia. Qed.

Lemma Conversation_find_user_elem (st : Store) (userId : UserId) (c : Conversation) :
  c ∈ Conversation_find_user st userId
  <-> mem_id userId (participants c) = true /\ c ∈ conversations st.
Proof.
  unfold Conversation_find_user.
  rewrite merge_sort_Permutation, list_elem_of_filter. reflexivity.
Qed.

Lemma mem_id_elem (x : UserId) (l : list UserId) : mem_id x l = true <-> x ∈ l.
Proof.
  unfold mem_id. rewrite existsb_exists. split.
  - intros (y & Hy & He). apply String.eqb_eq in He. subst y.
    apply list_elem_of_In. exact Hy.
  - intros H. exists x. split; [apply list_elem_of_In, H|apply String.eqb_refl].
Qed.

(** What a row of the thread list says of its conversation. *)
Lemma thread_of_Some (st : Store) (userId : UserId) (c : Conversation) (t : Thread) :
  thread_of st userId c = Some t ->
  t_conversationId t = c_id c
  /\ t_peerId t <> userId
  /\ t_peerId t ∈ participants c
  /\ (exists u, User_findById st (t_peerId t) = Some u
                /\ t_name t = u_name u /\ t_email t = u_email u)
  /\ t_lastMessage t = lm_text (lastMessage c)
  /\ t_lastAt t = lm_timestamp (lastMessage c)
  /\ t_unreadCount t = default 0%nat (unreadCount c !! userId).
Proof.
  unfold thread_of.
  destruct (find _ (populate st (participants c))) as [other|] eqn:Hf; [|discriminate].
  intros [= <-]. simpl. apply find_holds in Hf as [Hne Hin].
  apply negb_true_iff, String.eqb_neq in Hne.
  apply list_elem_of_In in Hin. unfold populate in Hin.
  apply list_elem_of_omap in Hin as (p & Hp & Hu).
  pose proof (User_findById_id _ _ _ Hu) as Hid.
  split_and?; try reflexivity.
  - exact Hne.
  - rewrite Hid. exact Hp.
  - exists other. rewrite Hid. auto.
Qed.

Lemma Forall2_Sorted {A B} (P : A -> B -> Prop) (R1 : relation A) (R2 : relation B)
    (l : list A) (k : list B) :
  (forall x y x' y', P x x' -> P y y' -> R1 x y -> R2 x' y') ->
  Forall2 P l k -> Sorted R1 l -> Sorted R2 k.
Proof.
  intros HR HF. induction HF as [|x x' l k Hx HF IH]; intros Hs; [constructor|].
  apply Sorted_inv in Hs as [Hs Hhd]. constructor; [auto|].
  destruct HF as [|y y' l k Hy HF]; constructor.
  apply HdRel_inv in Hhd. eauto.
Qed.

(** X14.  A thread list that is answered lists each conversation of the
    user once, latest first.  Each row names its conversation, a peer other
    than the user who is a participant and a stored user, with that user's
    name and email, the conversation's last-message text and time, and the
    user's own unread counter there (0 when there is none). *)
Theorem thread_list
    (st : Store) (sub : UserId) (threads : list Thread) :
  get_api_threads st sub = replied 200 threads ->
  List.length threads
  = List.length (filter (fun c => mem_id sub (participants c) = true)
                        (conversations st))
  /\ Sorted (fun t1 t2 => t_lastAt t2 <= t_lastAt t1) threads
  /\ (forall c, c ∈ conversations st -> sub ∈ participants c ->
        exists t, t ∈ threads /\ t_conversationId t = c_id c)
  /\ (forall t, t ∈ threads ->
        exists c, c ∈ conversations st /\ sub ∈ participants c
          /\ t_conversationId t = c_id c
          /\ t_peerId t <> sub
          /\ t_peerId t ∈ participants c
          /\ (exists u, User_findById st (t_peerId t) = Some u
                        /\ t_name t = u_name u /\ t_email t = u_email u)
          /\ t_lastMessage t = lm_text (lastMessage c)
          /\ t_lastAt t = lm_timestamp (lastMessage c)
          /\ t_unreadCount t = default 0%nat (unreadCount c !! sub)).
Proof.
  unfold get_api_threads.
  destruct (User_findById st sub) as [me|]; [|discriminate].
  destruct (mapM _ _) as [ts|] eqn:Hm; [|discriminate].
  intros [= <-]. apply mapM_Some in Hm. split_and?.
  - rewrite <- (Forall2_length _ _ _ Hm). unfold Conversation_find_user.
    apply Permutation_length, merge_sort_Permutation.
  - eapply (Forall2_Sorted _ later_or_same); [|exact Hm|].
    + intros x y x' y' Hx Hy HR. apply thread_of_Some in Hx, Hy.
      destruct Hx as (_ & _ & _ & _ & _ & -> & _).
      destruct Hy as (_ & _ & _ & _ & _ & -> & _). exact HR.
    + apply Sorted_merge_sort. apply _.
  - intros c Hc Hsub.
    assert (c ∈ Conversation_find_user st sub) as Hin
      by (apply Conversation_find_user_elem; rewrite mem_id_elem; auto).
    apply list_elem_of_lookup in Hin as [i Hi].
    destruct (Forall2_lookup_l _ _ _ _ _ Hm Hi) as (t & Ht & Hrow).
    exists t. split; [apply list_elem_of_lookup; eauto|].
    apply thread_of_Some in Hrow. tauto.
  - intros t Ht. apply list_elem_of_lookup in Ht as [i Hi].
    destruct (Forall2_lookup_r _ _ _ _ _ Hm Hi) as (c & Hc & Hrow).
    assert (c ∈ Conversation_find_user st sub) as Hin
      by (apply list_elem_of_lookup; eauto).
    apply Conversation_find_user_elem in Hin as [Hmem Hin].
    apply mem_id_elem in Hmem. apply thread_of_Some in Hrow.
    exists c. tauto.
Qed.

Lemma thread_list_witness :
  get_api_threads Scenario.store1 "u2"
  = replied 200 [mkThread 0 "u1" "Alice" "alice@example.org" "hello" 1000 1]
  /\ Sorted (fun t1 t2 => t_lastAt t2 <= t_lastAt t1)
       [mkThread 0 "u1" "Alice" "alice@example.org" "hello" 1000 1].
Proof.
  assert (get_api_threads Scenario.store1 "u2"
          = replied 200 [mkThread 0 "u1" "Alice" "alice@example.org" "hello" 1000 1])
    as H by (vm_compute; reflexivity).
  split; [exact H|].
  apply (thread_list Scenario.store1 "u2" _ H).
Defined.

(** The store after a fetch with the caller's own id, when the caller is in
    no two-participant conversation. *)
Lemma own_id_fetch_participants (st : Store) (now : Date) (sub : UserId)
    (q : MessagesQuery) (me : User) :
  User_findById st sub = Some me -> sub <> "" ->
  q_conversationId q = None -> q_peerId q = Some sub ->
  participants_1_unique st = false ->
  find (fun c => mem_id sub (participants c)
                 && (List.length (participants c) =? 2)%nat)
       (conversations st) = None ->
  users (get_api_messages st now sub q).1 = users st
  /\ participants <$> conversations (get_api_messages st now sub q).1
     = ((participants <$> conversations st) ++ [[sub; sub]])%list.
Proof.
  intros Hme Hne Hq Hpeer Hidx Hnone.
  pose proof (User_findById_id _ _ _ Hme) as Hid.
  unfold get_api_messages, authWithUserValidation.
  rewrite Hme, Hq, (truthy_peerId _ _ Hpeer Hne), (query_peer_by_id _ _ _ Hpeer Hne),
    Hme, Hid.
  unfold getOrCreateConversation, Conversation_findOne. rewrite sort_same.
  rewrite (find_ext _ _ _ (all_size_match_same sub)), Hnone.
  unfold Conversation_create, participants_1_conflict.
  rewrite Hidx. simpl. split; [reflexivity|].
  rewrite fmap_update_first by reflexivity. rewrite fmap_app. reflexivity.
Qed.

(** X15.  A fetch with the caller's own id breaks the caller's thread list.
    For a caller who is in no two-participant conversation, the fetch stores
    a conversation of the caller with the caller; that conversation has no
    other participant for its row, so the thread list is from then on
    answered 500. *)
Theorem own_id_fetch_breaks_thread_list
    (st : Store) (now : Date) (sub : UserId) (q : MessagesQuery) (me : User) :
  User_findById st sub = Some me ->
  sub <> "" ->
  q_conversationId q = None ->
  q_peerId q = Some sub ->
  participants_1_unique st = false ->
  find (fun c => mem_id sub (participants c)
                 && (List.length (participants c) =? 2)%nat)
       (conversations st) = None ->
  get_api_threads (get_api_messages st now sub q).1 sub
  = refused 500 "Server error".
Proof.
  intros Hme Hne Hq Hpeer Hidx Hnone.
  destruct (own_id_fetch_participants st now sub q me Hme Hne Hq Hpeer Hidx Hnone)
    as [Hu Hp].
  set (st' := (get_api_messages st now sub q).1) in *.
  assert (User_findById st' sub = Some me) as Hme'
    by (unfold User_findById; rewrite Hu; exact Hme).
  assert ([sub; sub] ∈ participants <$> conversations st') as Hin.
  { rewrite Hp. apply elem_of_app. right. apply list_elem_of_here. }
  apply list_elem_of_fmap in Hin as (c & Hpc & Hc).
  unfold get_api_threads. rewrite Hme'.
  rewrite (mapM_None_2 (thread_of st' sub)); [reflexivity|].
  apply Exists_exists. exists c. split.
  - apply Conversation_find_user_elem. split; [|exact Hc].
    rewrite <- Hpc. unfold mem_id. simpl. rewrite String.eqb_refl. reflexivity.
  - unfold thread_of, populate. rewrite <- Hpc. simpl. rewrite Hme'. simpl.
    rewrite (User_findById_id _ _ _ Hme), String.eqb_refl. reflexivity.
Qed.

Lemma own_id_fetch_breaks_thread_list_witness :
  get_api_threads Scenario.store0 "u1" = replied 200 []
  /\ get_api_threads
       (get_api_messages Scenario.store0 1500 "u1"
          (mkMessagesQuery (Some "u1") None None None None)).1 "u1"
     = refused 500 "Server error".
Proof.
  split; [vm_compute; reflexivity|].
  apply (own_id_fetch_breaks_thread_list Scenario.store0 1500 "u1"
           (mkMessagesQuery (Some "u1") None None None None) Scenario.alice);
    try reflexivity.
  discriminate.
Defined.

(** ** Presence, as the routes report it *)

(** X16.  After a connection the status route reports the user online since
    the connection time, and the list of connected users holds exactly one
    entry for the user, the one of this socket, however many sockets of
    the user connected before; after the disconnect the user is reported
    offline with no time.  The status of any other user is not affected,
    and the list never holds two entries for one user. *)
Theorem presence_reported
    (st : Store) (now : Date) (socket : Socket) (u : UserId) (p : Presence) :
  u <> s_userId socket ->
  let st1 := io_connection st now socket in
  get_api_user_status st1 (s_userId socket)
  = mkUserStatus (s_userId socket) true (Some now)
  /\ ((s_userId socket, p) ∈ getConnectedUsers st1
      <-> p = mkPresence (s_id socket) (s_userEmail socket) (s_userName socket) now)
  /\ get_api_user_status (socket_disconnect st1 socket) (s_userId socket)
     = mkUserStatus (s_userId socket) false None
  /\ get_api_user_status st1 u = get_api_user_status st u
  /\ get_api_user_status (socket_disconnect st1 socket) u = get_api_user_status st u
  /\ NoDup (fst <$> getConnectedUsers st1).
Proof.
  intros Hu st1. subst st1. unfold get_api_user_status, getConnectedUsers.
  split_and?.
  - rewrite connectedUsers_connection. reflexivity.
  - rewrite elem_of_map_to_list, connectedUsers_connection.
    split; [intros [= <-]; reflexivity|intros ->; reflexivity].
  - rewrite connectedUsers_disconnect.
    destruct (decide _) as [_|Hn]; [reflexivity|contradiction].
  - unfold io_connection; simpl. rewrite lookup_insert_ne by congruence. reflexivity.
  - rewrite connectedUsers_disconnect.
    destruct (decide _) as [He|_]; [congruence|].
    unfold io_connection; simpl. rewrite lookup_insert_ne by congruence. reflexivity.
  - apply NoDup_fst_map_to_list.
Qed.

Lemma presence_reported_witness :
  let st1 := io_connection (io_connection Scenario.store0 10 Scenario.phone)
               20 Scenario.laptop in
  get_api_user_status st1 "u1" = mkUserStatus "u1" true (Some 20)
  /\ get_api_user_status (socket_disconnect st1 Scenario.laptop) "u1"
     = mkUserStatus "u1" false None
  /\ get_api_user_status st1 "u2" = mkUserStatus "u2" false None.
Proof.
  intros st1.
  destruct (presence_reported (io_connection Scenario.store0 10 Scenario.phone)
              20 Scenario.laptop "u2"
              (mkPresence "s2" "alice@example.org" "Alice" 20))
    as (H1 & _ & H3 & H4 & _).
  - discriminate.
  - split; [exact H1|]. split; [exact H3|]. subst st1. rewrite H4. reflexivity.
Defined.

(** ** Starting a conversation *)

Lemma post_api_conversations_200 (st : Store) (now : Date) (sub : UserId)
    (peerId : option string) (st1 : Store) (cid : ConvId) (ps : list UserId)
    (peer : User) :
  post_api_conversations st now sub peerId
  = (st1, mkResponse 200 (created_body cid ps peer)) ->
  exists c, getOrCreateConversation st now [sub; u_id peer] = (st1, Ok c)
    /\ c_id c = cid /\ ps = [sub; u_id peer] /\ u_id peer <> sub
    /\ is_Some (User_findById st sub)
    /\ validateUserExists st (JS.or_else peerId "") = Some peer
    /\ JS.truthy peerId = true.
Proof.
  unfold post_api_conversations, authWithUserValidation, validateUserExists.
  destruct (User_findById st sub) as [me|] eqn:Hme; [|discriminate].
  pose proof (User_findById_id _ _ _ Hme) as Hid.
  destruct (JS.truthy peerId); [|discriminate]. simpl.
  destruct (User_findById st (JS.or_else peerId "")) as [p|] eqn:Hp; [|discriminate].
  destruct (String.eqb (u_id me) (u_id p)) eqn:Hself; [discriminate|].
  apply String.eqb_neq in Hself. rewrite Hid in *.
  destruct (getOrCreateConversation st now [sub; u_id p]) as [st' [c|e]] eqn:Hg;
    [|discriminate].
  intros [= <- <- <- <-]. exists c. split_and?; eauto.
Qed.

Lemma getOrCreate_users (st : Store) (now : Date) (ids : list UserId)
    (st1 : Store) (r : Result Conversation) (id : UserId) :
  getOrCreateConversation st now ids = (st1, r) ->
  User_findById st1 id = User_findById st id.
Proof.
  intros Hg. apply getOrCreate_messages in Hg as (_ & Hu & _).
  unfold User_findById. rewrite Hu. reflexivity.
Qed.

(** X17.  Starting a conversation is repeatable and is what a send then
    uses.  After [POST /api/conversations] has answered with a conversation
    id, the same request again gets the same answer and changes nothing;
    and a successful send between the two users, in either direction,
    goes to that conversation and stores no further conversation. *)
Theorem started_conversation_is_reused
    (st : Store) (now now' : Date) (sub : UserId) (peerId : option string)
    (st1 : Store) (cid : ConvId) (ps : list UserId) (peer : User) :
  post_api_conversations st now sub peerId
  = (st1, mkResponse 200 (created_body cid ps peer)) ->
  post_api_conversations st1 now' sub peerId
  = (st1, mkResponse 200 (created_body cid ps peer))
  /\ forall senderId req st2 msg cid' emits,
       post_api_messages st1 now' senderId req
       = (st2, mkResponse 201 (sent_body msg cid'), emits) ->
       [senderId; m_to msg] ≡ₚ [sub; u_id peer] ->
       cid' = cid
       /\ List.length (conversations st2) = List.length (conversations st1).
Proof.
  intros H. apply post_api_conversations_200 in H
    as (c & Hg & Hcid & -> & Hne & [me Hme] & Hpeer & Htruthy).
  split.
  - unfold post_api_conversations, authWithUserValidation, validateUserExists in *.
    rewrite !(getOrCreate_users _ _ _ _ _ _ Hg), Hme, Htruthy, Hpeer.
    rewrite (User_findById_id _ _ _ Hme).
    assert (String.eqb sub (u_id peer) = false) as ->
      by (apply String.eqb_neq; congruence).
    simpl. rewrite (getOrCreate_found st1 now' [sub; u_id peer] c).
    + rewrite Hcid. reflexivity.
    + eapply getOrCreate_then_findOne; eauto.
  - intros senderId req st2 msg cid' emits Hsend Hperm.
    apply post_api_messages_201 in Hsend
      as (peer' & st1' & c' & st2' & Hp' & Hne' & Hg' & Hcid' & Hm' & ->).
    pose proof (Message_create_ok _ _ _ _ _ Hm') as (_ & Hcs & _ & _ & Hto & _).
    simpl in Hto. rewrite Hto in Hperm.
    assert (Conversation_findOne st1 (JS.sort [senderId; u_id peer']) = Some c) as Hf.
    { eapply getOrCreate_then_findOne; [|exact Hg]. symmetry. exact Hperm. }
    rewrite (getOrCreate_found st1 now' _ c Hf) in Hg'.
    injection Hg' as <- <-. split; [congruence|].
    unfold incrementUnreadCount, updateConversationLastMessage,
      Conversation_findByIdAndUpdate; simpl.
    rewrite !length_update_first, Hcs. reflexivity.
Qed.

Lemma started_conversation_is_reused_witness :
  let r := post_api_conversations Scenario.store0 500 "u2" (Some "u1") in
  r.2 = mkResponse 200 (created_body 0%N ["u2"; "u1"] Scenario.alice)
  /\ post_api_conversations r.1 600 "u2" (Some "u1") = r
  /\ participants <$> conversations r.1 = [["u1"; "u2"]].
Proof.
  intros r.
  assert (r = (r.1, mkResponse 200 (created_body 0%N ["u2"; "u1"] Scenario.alice)))
    as Hr by (vm_compute; reflexivity).
  destruct (started_conversation_is_reused Scenario.store0 500 600 "u2" (Some "u1")
              r.1 0%N ["u2"; "u1"] Scenario.alice Hr) as [H _].
  split; [rewrite Hr; reflexivity|]. split; [rewrite H; symmetry; exact Hr|].
  vm_compute. reflexivity.
Defined.

(** ** The profile route *)

Lemma findOne_unsorted (st : Store) (a b : UserId) :
  Conversation_findOne st (JS.sort [a; b]) = Conversation_findOne st [a; b].
Proof.
  unfold Conversation_findOne. apply find_ext. intros c.
  apply all_size_match_sort.
Qed.

(** X18.  The profile route tells the conversation a later get-or-create
    would return.  For a caller whose token names a printed id, an answered
    request has a route parameter that reads as the id of the user
    returned.  When an existing conversation id is reported, a
    get-or-create for the caller and that user returns the conversation
    with that id and stores nothing; when none is reported, no conversation
    of the two is stored. *)
Theorem profile_reports_conversation
    (st : Store) (now : Date) (sub userId : string) (user : User)
    (existing : option ConvId) :
  ObjectId sub = Some sub ->
  get_api_user st sub userId = replied 200 (user, existing) ->
  exists oid,
    ObjectId userId = Some oid
    /\ User_findById st oid = Some user
    /\ userId <> sub
    /\ match existing with
       | Some cid =>
           exists c, getOrCreateConversation st now [sub; oid] = (st, Ok c)
                     /\ c_id c = cid
       | None => conversations_of_pair st sub oid = []
       end.
Proof.
  intros Hsub. unfold get_api_user. rewrite Hsub.
  destruct (String.eqb userId sub) eqn:Hself; [discriminate|].
  apply String.eqb_neq in Hself.
  destruct (ObjectId userId) as [oid|]; [|discriminate].
  destruct (User_findById st oid) as [u|] eqn:Hu; [|discriminate].
  intros [= <- <-]. exists oid. split; [reflexivity|]. split; [exact Hu|].
  split; [exact Hself|].
  destruct (Conversation_findOne st [sub; oid]) as [c|] eqn:Hf; simpl.
  - exists c. split; [|reflexivity]. apply getOrCreate_found.
    rewrite findOne_unsorted. exact Hf.
  - apply findOne_pair. rewrite findOne_unsorted. exact Hf.
Qed.

Lemma profile_reports_conversation_witness :
  let dana := "65a1b2c3d4e5f60718293a4b" in
  let eli := "65a1b2c3d4e5f60718293a4c" in
  let fay := "65a1b2c3d4e5f60718293a4d" in
  ObjectId eli = Some eli
  /\ get_api_user Registered.store eli "65A1B2C3D4E5F60718293A4B"
     = replied 200 (Registered.dana, Some 0%N)
  /\ (exists c, getOrCreateConversation Registered.store 9000 [eli; dana]
                = (Registered.store, Ok c) /\ c_id c = 0%N)
  /\ get_api_user Registered.store eli fay = replied 200 (Registered.fay, None)
  /\ conversations_of_pair Registered.store eli fay = [].
Proof.
  intros dana eli fay.
  assert (ObjectId eli = Some eli) as Hsub by reflexivity.
  assert (get_api_user Registered.store eli "65A1B2C3D4E5F60718293A4B"
          = replied 200 (Registered.dana, Some 0%N)) as H by (vm_compute; reflexivity).
  assert (get_api_user Registered.store eli fay = replied 200 (Registered.fay, None))
    as H' by (vm_compute; reflexivity).
  split; [exact Hsub|]. split; [exact H|].
  destruct (profile_reports_conversation Registered.store 9000 eli _ _ _ Hsub H)
    as (oid & Hoid & _ & _ & Hc).
  injection Hoid as <-.
  split; [exact Hc|]. split; [exact H'|].
  destruct (profile_reports_conversation Registered.store 9000 eli _ _ _ Hsub H')
    as (oid & Hoid & _ & _ & Hn).
  injection Hoid as <-. exact Hn.
Defined.

(** X26.  The guard of the profile route compares the text of the route
    parameter with the printed id of the caller, while the lookup reads the
    parameter as an id.  The answer is 400 for the printed id itself and
    for no other text.  A caller who spells their own id in another way,
    with capital digits for one, is therefore not refused: the answer is
    200 with the caller's own record, and the conversation reported is the
    first two-participant conversation the caller is in, with whomever it
    is. *)
Theorem own_profile_by_other_spelling
    (st : Store) (sub userId : string) (me : User) :
  ObjectId sub = Some sub ->
  User_findById st sub = Some me ->
  (get_api_user st sub userId = refused 400 "Cannot get own profile via this endpoint"
   <-> userId = sub)
  /\ (ObjectId userId = Some sub -> userId <> sub ->
      get_api_user st sub userId
      = replied 200
          (me, c_id <$> find (fun c => mem_id sub (participants c)
                                       && (List.length (participants c) =? 2)%nat)
                          (conversations st))).
Proof.
  intros Hsub Hme. unfold get_api_user. rewrite Hsub. split.
  - destruct (String.eqb userId sub) eqn:Hself.
    + apply String.eqb_eq in Hself. tauto.
    + apply String.eqb_neq in Hself. split; [|contradiction].
      destruct (ObjectId userId) as [oid|]; [|discriminate].
      destruct (User_findById st oid); discriminate.
  - intros Hcast Hne. apply String.eqb_neq in Hne. rewrite Hne, Hcast, Hme.
    unfold Conversation_findOne.
    rewrite (find_ext _ _ _ (all_size_match_same sub)). reflexivity.
Qed.

Lemma own_profile_by_other_spelling_witness :
  let eli := "65a1b2c3d4e5f60718293a4c" in
  get_api_user Registered.store eli "65A1B2C3D4E5F60718293A4C"
  = replied 200 (Registered.eli, Some 0%N)
  /\ participants <$> Conversation_findById Registered.store 0%N
     = Some ["65a1b2c3d4e5f60718293a4b"; eli]
  /\ get_api_user Registered.store eli eli
     = refused 400 "Cannot get own profile via this endpoint".
Proof.
  intros eli.
  destruct (own_profile_by_other_spelling Registered.store eli
              "65A1B2C3D4E5F60718293A4C" Registered.eli) as [_ H];
    [reflexivity|reflexivity|].
  destruct (own_profile_by_other_spelling Registered.store eli eli Registered.eli)
    as [H' _]; [reflexivity|reflexivity|].
  split; [rewrite H by (reflexivity || discriminate); vm_compute; reflexivity|].
  split; [vm_compute; reflexivity|]. apply H'. reflexivity.
Defined.

(** ** What the handlers have checked before they write *)

Lemma In_users_findById (st : Store) (u : User) :
  In u (users st) -> is_Some (User_findById st (u_id u)).
Proof.
  unfold User_findById. induction (users st) as [|x l IH]; simpl; [tauto|].
  destruct (String.eqb (u_id x) (u_id u)) eqn:E; [eauto|].
  intros [->|H]; [|auto]. rewrite String.eqb_refl in E. discriminate.
Qed.

Lemma findById_known (st : Store) (id : UserId) (u : User) :
  User_findById st id = Some u -> is_Some (User_findById st (u_id u)).
Proof. intros H. apply In_users_findById. apply find_holds in H. tauto. Qed.

Lemma findByEmail_known (st : Store) (email : string) (u : User) :
  User_findByEmail st email = Some u -> is_Some (User_findById st (u_id u)).
Proof. intros H. apply In_users_findById. apply find_holds in H. tauto. Qed.

Lemma resolve_peer_known (st : Store) (req : SendRequest) (peer : User) :
  resolve_peer st req = Some peer -> is_Some (User_findById st (u_id peer)).
Proof.
  unfold resolve_peer, validateUserExists.
  destruct (JS.truthy (toId req)); [apply findById_known|].
  destruct (JS.truthy (toEmail req)); [apply findByEmail_known|discriminate].
Qed.

Lemma query_peer_known (st : Store) (q : MessagesQuery) (peer : User) :
  query_peer st q = Some peer -> is_Some (User_findById st (u_id peer)).
Proof.
  unfold query_peer.
  destruct (JS.truthy (q_peerId q)); [apply findById_known|apply findByEmail_known].
Qed.

(** The conversation returned for two ids holds both. *)
Lemma getOrCreate_holds_both (st : Store) (now : Date) (a b : UserId)
    (st1 : Store) (c : Conversation) :
  getOrCreateConversation st now [a; b] = (st1, Ok c) ->
  In a (participants c) /\ In b (participants c).
Proof.
  intros Hg.
  assert (all_size_match [a; b] c = true) as Hm.
  { apply getOrCreate_cases in Hg
      as [(c' & Hf & _ & [= <-])|[(_ & _ & _ & [= ->])|(_ & _ & _ & [=])]].
    - apply find_holds in Hf as [Hf _]. rewrite all_size_match_sort in Hf. exact Hf.
    - rewrite <- all_size_match_sort. apply all_size_match_own. reflexivity. }
  unfold all_size_match in Hm. simpl in Hm.
  apply andb_prop in Hm as [Hm _]. apply andb_prop in Hm as [Ha Hm].
  apply andb_prop in Hm as [Hb _].
  apply mem_id_elem in Ha, Hb. rewrite <- !list_elem_of_In. auto.
Qed.

Lemma send_checked_writes (st : Store) (now : Date) (senderId : UserId)
    (peer : User) (req : SendRequest) (st1 st2 : Store) (c : Conversation)
    (rm : Result Message) :
  is_Some (User_findById st senderId) ->
  is_Some (User_findById st (u_id peer)) ->
  senderId <> u_id peer ->
  getOrCreateConversation st now [senderId; u_id peer] = (st1, Ok c) ->
  Message_create st1 now (message_doc c senderId (u_id peer) req) = (st2, rm) ->
  rtc checked_write st st2.
Proof.
  intros Hs Hp Hne Hg Hm.
  eapply rtc_l; [apply (checked_getOrCreate st now senderId (u_id peer) Hs Hp)|].
  rewrite Hg. simpl. apply rtc_once.
  replace st2 with (Message_create st1 now (message_doc c senderId (u_id peer) req)).1
    by (rewrite Hm; reflexivity).
  destruct (getOrCreate_holds_both _ _ _ _ _ _ Hg) as [Ha Hb].
  apply (checked_message st1 now c); simpl; auto.
  eapply getOrCreate_stored; eauto.
Qed.

Lemma getOrCreate_checked_writes (st : Store) (now : Date) (a b : UserId)
    (st1 : Store) (r : Result Conversation) :
  is_Some (User_findById st a) -> is_Some (User_findById st b) ->
  getOrCreateConversation st now [a; b] = (st1, r) -> rtc checked_write st st1.
Proof.
  intros Ha Hb Hg. apply rtc_once.
  replace st1 with (getOrCreateConversation st now [a; b]).1 by (rewrite Hg; reflexivity).
  constructor; assumption.
Qed.

Lemma post_api_messages_checked (st : Store) (now : Date) (sub : UserId)
    (req : SendRequest) :
  rtc checked_write st (post_api_messages st now sub req).1.1.
Proof.
  unfold post_api_messages, validateUserExists.
  destruct (User_findById st sub) as [sender|] eqn:Hs; [|apply rtc_refl].
  pose proof (findById_known _ _ _ Hs) as Hsk.
  destruct (_ && _); [apply rtc_refl|].
  destruct (resolve_peer st req) as [peer|] eqn:Hp; [|apply rtc_refl].
  pose proof (resolve_peer_known _ _ _ Hp) as Hpk.
  destruct (String.eqb _ _) eqn:Hself; [apply rtc_refl|].
  apply String.eqb_neq in Hself.
  destruct (getOrCreateConversation _ _ _) as [st1 [c|e]] eqn:Hg.
  - destruct (Message_create st1 now _) as [st2 [m|e]] eqn:Hm;
      pose proof (send_checked_writes _ _ _ _ _ _ _ _ _ Hsk Hpk Hself Hg Hm) as H2;
      simpl.
    + eapply rtc_trans; [exact H2|].
      eapply rtc_l; [apply checked_lastMessage|]. apply rtc_once, checked_increment.
    + exact H2.
  - simpl. apply (getOrCreate_checked_writes _ _ _ _ _ _ Hsk Hpk Hg).
Qed.

Lemma socket_message_send_checked (st : Store) (now : Date) (socket : Socket)
    (req : SendRequest) :
  rtc checked_write st (so_store (socket_message_send st now socket req)).
Proof.
  unfold socket_message_send, validateUserExists.
  destruct (_ && _); [apply rtc_refl|].
  destruct (User_findById st (s_userId socket)) as [sender|] eqn:Hs; [|apply rtc_refl].
  pose proof (findById_known _ _ _ Hs) as Hsk.
  destruct (resolve_peer st req) as [peer|] eqn:Hp; [|apply rtc_refl].
  pose proof (resolve_peer_known _ _ _ Hp) as Hpk.
  destruct (String.eqb _ _) eqn:Hself; [apply rtc_refl|].
  apply String.eqb_neq in Hself.
  destruct (getOrCreateConversation _ _ _) as [st1 [c|e]] eqn:Hg.
  - destruct (Message_create st1 now _) as [st2 [m|e]] eqn:Hm;
      pose proof (send_checked_writes _ _ _ _ _ _ _ _ _ Hsk Hpk Hself Hg Hm) as H2;
      simpl.
    + eapply rtc_trans; [exact H2|].
      eapply rtc_l; [apply checked_lastMessage|]. apply rtc_once, checked_increment.
    + exact H2.
  - simpl. apply (getOrCreate_checked_writes _ _ _ _ _ _ Hsk Hpk Hg).
Qed.

Lemma get_api_messages_checked (st : Store) (now : Date) (sub : UserId)
    (q : MessagesQuery) :
  rtc checked_write st (get_api_messages st now sub q).1.
Proof.
  unfold get_api_messages, authWithUserValidation.
  destruct (User_findById st sub) as [me|] eqn:Hme; [|apply rtc_refl].
  assert (is_Some (User_findById st sub)) as Hsk by eauto.
  destruct (q_conversationId q) as [id|].
  - destruct (Conversation_findById st id) as [c|]; [|apply rtc_refl].
    destruct (negb _); [apply rtc_refl|].
    destruct (_ ≫= _); [|apply rtc_refl].
    apply rtc_once, checked_reset.
  - destruct (_ || _); [|apply rtc_refl].
    destruct (query_peer st q) as [p|] eqn:Hp; [|apply rtc_refl].
    pose proof (query_peer_known _ _ _ Hp) as Hpk.
    destruct (getOrCreateConversation _ _ _) as [st1 [c|e]] eqn:Hg; simpl.
    + eapply rtc_trans; [apply (getOrCreate_checked_writes _ _ _ _ _ _ Hsk Hpk Hg)|].
      apply rtc_once, checked_reset.
    + apply (getOrCreate_checked_writes _ _ _ _ _ _ Hsk Hpk Hg).
Qed.

Lemma post_api_conversations_checked (st : Store) (now : Date) (sub : UserId)
    (peerId : option string) :
  rtc checked_write st (post_api_conversations st now sub peerId).1.
Proof.
  unfold post_api_conversations, authWithUserValidation, validateUserExists.
  destruct (User_findById st sub) as [me|] eqn:Hme; [|apply rtc_refl].
  pose proof (findById_known _ _ _ Hme) as Hsk.
  destruct (negb _); [apply rtc_refl|].
  destruct (User_findById st (JS.or_else peerId "")) as [p|] eqn:Hp; [|apply rtc_refl].
  pose proof (findById_known _ _ _ Hp) as Hpk.
  destruct (String.eqb _ _); [apply rtc_refl|].
  destruct (getOrCreateConversation _ _ _) as [st1 [c|e]] eqn:Hg; simpl;
    apply (getOrCreate_checked_writes _ _ _ _ _ _ Hsk Hpk Hg).
Qed.

Lemma socket_message_read_checked (st : Store) (now : Date) (socket : Socket)
    (messageId : option MsgId) :
  rtc checked_write st (so_store (socket_message_read st now socket messageId)).
Proof.
  unfold socket_message_read.
  destruct messageId as [id|]; [|apply rtc_refl].
  destruct (Message_findById st id) as [m|] eqn:Hm; [|apply rtc_refl].
  destruct (String.eqb _ _); [|apply rtc_refl].
  simpl. apply rtc_once. apply (checked_read st now m).
  apply find_holds in Hm. tauto.
Qed.

Lemma apply_op_checked (st : Store) (op : Op) : rtc checked_write st (apply_op st op).
Proof.
  destruct op; simpl.
  - apply rtc_once. constructor.
  - apply rtc_once. constructor.
  - apply post_api_messages_checked.
  - apply socket_message_send_checked.
  - apply get_api_messages_checked.
  - apply socket_message_read_checked.
  - apply post_api_conversations_checked.
Qed.

Lemma run_ops_checked (ops : list Op) (st : Store) :
  rtc checked_write st (run_ops st ops).
Proof.
  revert st. induction ops as [|op ops IH]; intros st; simpl.
  - apply rtc_refl.
  - eapply rtc_trans; [apply apply_op_checked|apply IH].
Qed.

Lemma checked_invariant_run_ops (I : Store -> Prop) :
  (forall st st', checked_write st st' -> I st -> I st') ->
  forall ops st, I st -> I (run_ops st ops).
Proof.
  intros Hw ops st Hst.
  pose proof (run_ops_checked ops st) as Hr.
  induction Hr as [x|x y z Hxy _ IH]; [exact Hst|].
  apply IH. eapply Hw; eauto.
Qed.

(** ** Invariants over the operations *)

Lemma In_update_first (p : Conversation -> bool) (f : Conversation -> Conversation)
    (l : list Conversation) (c : Conversation) :
  (forall x, c_id (f x) = c_id x /\ participants (f x) = participants x) ->
  In c l ->
  exists c', In c' (update_first p f l)
             /\ c_id c' = c_id c /\ participants c' = participants c.
Proof.
  intros Hf. induction l as [|x l IH]; simpl; [tauto|].
  intros [->|Hin].
  - destruct (p c).
    + exists (f c). split; [left; reflexivity|apply Hf].
    + exists c. split; [left; reflexivity|auto].
  - destruct (p x).
    + exists c. split; [right; exact Hin|auto].
    + destruct (IH Hin) as (c' & Hc' & Hid). exists c'. split; [right; exact Hc'|exact Hid].
Qed.

(** Soundness of a message depends on the conversations only through their
    ids and participants. *)
Lemma message_sound_transfer (st st' : Store) (m : Message) :
  (forall c, In c (conversations st) ->
     exists c', In c' (conversations st')
                /\ c_id c' = c_id c /\ participants c' = participants c) ->
  message_sound st m -> message_sound st' m.
Proof.
  intros Hc (Hlen & Hty & Hne & c & Hin & Hid & Hf & Ht).
  destruct (Hc c Hin) as (c' & Hin' & Hid' & Hp').
  unfold message_sound. split; [exact Hlen|]. split; [exact Hty|].
  split; [exact Hne|]. exists c'. rewrite Hid', Hp'. auto.
Qed.

Lemma messages_sound_update (st : Store) (id : ConvId)
    (f : Conversation -> Conversation) :
  (forall x, c_id (f x) = c_id x /\ participants (f x) = participants x) ->
  messages_sound st -> messages_sound (Conversation_findByIdAndUpdate id f st).
Proof.
  intros Hf Hs. unfold messages_sound in *. simpl.
  eapply Forall_impl; [exact Hs|]. intros m. apply message_sound_transfer.
  intros c Hin. simpl. apply In_update_first; assumption.
Qed.

Lemma checked_write_messages_sound (st st' : Store) :
  checked_write st st' -> messages_sound st -> messages_sound st'.
Proof.
  intros Hw Hs. destruct Hw.
  - destruct (getOrCreateConversation st now [a; b]) as [st1 r] eqn:Hg.
    pose proof (getOrCreate_messages _ _ _ _ _ Hg) as (Hm & _).
    unfold messages_sound in *. simpl. rewrite Hm.
    eapply Forall_impl; [exact Hs|]. intros m. apply message_sound_transfer.
    intros c Hin. exists c. split; [|auto].
    apply getOrCreate_cases in Hg
      as [(c' & _ & -> & _)|[(_ & _ & -> & _)|(_ & _ & -> & _)]]; try exact Hin.
    simpl. apply in_or_app. left. exact Hin.
  - unfold Message_create. destruct (message_valid d) eqn:Hv; simpl; [|exact Hs].
    unfold messages_sound in *. simpl. apply Forall_app. split.
    + eapply Forall_impl; [exact Hs|]. intros m. apply message_sound_transfer.
      intros c' Hin. exists c'. auto.
    + constructor; [|constructor]. unfold message_sound; simpl.
      unfold message_valid in Hv. apply andb_prop in Hv as [Hlen Hty].
      split; [apply Nat.leb_le; exact Hlen|]. split.
      * apply existsb_exists in Hty as (x & Hx & He).
        apply String.eqb_eq in He. rewrite He. exact Hx.
      * split; [assumption|]. exists c. auto.
  - apply messages_sound_update; [intros; split; reflexivity|exact Hs].
  - apply messages_sound_update; [intros; split; reflexivity|exact Hs].
  - apply messages_sound_update; [intros; split; reflexivity|exact Hs].
  - unfold messages_sound in *. simpl.
    assert (message_sound st m) as Hm.
    { rewrite Forall_forall in Hs. apply Hs. apply list_elem_of_In. assumption. }
    apply Forall_update_first.
    + intros _ _. exact Hm.
    + exact Hs.
  - exact Hs.
  - exact Hs.
Qed.

(** X19.  Every stored message stays sound under the operations of the
    engine.  If in the store every message has a text within 2000
    characters, a type among text, image and file, a sender different from
    its receiver, and a stored conversation that holds both, then the same
    is true after any sequence of connects, disconnects, sends, fetches,
    read receipts and conversation starts. *)
Theorem operations_keep_messages_sound (st : Store) (ops : list Op) :
  messages_sound st -> messages_sound (run_ops st ops).
Proof.
  intros Hs.
  apply (checked_invariant_run_ops messages_sound); [|exact Hs].
  intros st0 st1 Hw. apply checked_write_messages_sound. exact Hw.
Qed.

Lemma operations_keep_messages_sound_witness :
  let ops := [OpSendHttp 1000 "u1" Scenario.hello;
              OpSendSocket 2000 Scenario.bob_socket
                (mkSendRequest (Some "u1") None (Some "hi") (Some "image") None);
              OpSendHttp 3000 "u1"
                (mkSendRequest (Some "u1") None (Some "to myself") None None);
              OpMarkRead 4000 Scenario.bob_socket (Some 1%N)] in
  messages_sound Scenario.store0
  /\ List.length (messages (run_ops Scenario.store0 ops)) = 2%nat
  /\ messages_sound (run_ops Scenario.store0 ops).
Proof.
  intros ops.
  assert (messages_sound Scenario.store0) as H0 by constructor.
  split; [exact H0|]. split; [vm_compute; reflexivity|].
  apply (operations_keep_messages_sound Scenario.store0 ops H0).
Defined.

(** *** Participants are stored users *)

Lemma participants_known_same (st st' : Store) :
  users st' = users st -> conversations st' = conversations st ->
  participants_known st -> participants_known st'.
Proof.
  intros Hu Hc. unfold participants_known, User_findById. rewrite Hu, Hc. auto.
Qed.

Lemma participants_known_update (st : Store) (id : ConvId)
    (f : Conversation -> Conversation) :
  (forall x, participants (f x) = participants x) ->
  participants_known st -> participants_known (Conversation_findByIdAndUpdate id f st).
Proof.
  intros Hf Hk. unfold participants_known in *. simpl.
  apply Forall_update_first; [|exact Hk]. intros x Hx. rewrite Hf. exact Hx.
Qed.

Lemma checked_write_participants_known (st st' : Store) :
  checked_write st st' -> participants_known st -> participants_known st'.
Proof.
  intros Hw Hk. destruct Hw.
  - destruct (getOrCreateConversation st now [a; b]) as [st1 r] eqn:Hg.
    apply getOrCreate_cases in Hg
      as [(c' & _ & -> & _)|[(_ & _ & -> & _)|(_ & _ & -> & _)]]; try exact Hk.
    unfold participants_known in *.
    cbn [conversations set_next_oid set_conversations].
    apply Forall_app. split; [exact Hk|].
    constructor; [|constructor]. cbn [participants new_conversation].
    apply Forall_forall. intros x Hx.
    rewrite sort_Permutation in Hx.
    apply elem_of_cons in Hx as [->|Hx]; [assumption|].
    apply list_elem_of_singleton in Hx. subst x. assumption.
  - eapply participants_known_same; [| |exact Hk];
      unfold Message_create; destruct (message_valid d); reflexivity.
  - apply participants_known_update; [reflexivity|exact Hk].
  - apply participants_known_update; [reflexivity|exact Hk].
  - apply participants_known_update; [reflexivity|exact Hk].
  - eapply participants_known_same; [| |exact Hk]; reflexivity.
  - eapply participants_known_same; [| |exact Hk]; reflexivity.
  - eapply participants_known_same; [| |exact Hk]; reflexivity.
Qed.

Lemma populate_known (st : Store) (ps : list UserId) :
  Forall (fun p => is_Some (User_findById st p)) ps ->
  u_id <$> populate st ps = ps.
Proof.
  unfold populate. induction 1 as [|p l [u Hu] _ IH]; [reflexivity|].
  cbn [omap list_omap]. rewrite Hu, fmap_cons, IH.
  rewrite (User_findById_id _ _ _ Hu). reflexivity.
Qed.

(** X20.  No operation of the engine puts a user that is not stored into a
    conversation: from a store where every participant of every
    conversation is a stored user, after any sequence of operations this
    is still so, and populating the participants of a stored conversation
    yields a user for each of them, in their order. *)
Theorem operations_keep_participants_known (st : Store) (ops : list Op) :
  participants_known st ->
  participants_known (run_ops st ops)
  /\ forall c, In c (conversations (run_ops st ops)) ->
       u_id <$> populate (run_ops st ops) (participants c) = participants c.
Proof.
  intros Hk.
  assert (participants_known (run_ops st ops)) as Hk'.
  { apply (checked_invariant_run_ops participants_known); [|exact Hk].
    intros st0 st1 Hw. apply checked_write_participants_known. exact Hw. }
  split; [exact Hk'|].
  intros c Hc. apply populate_known.
  unfold participants_known in Hk'. rewrite Forall_forall in Hk'.
  apply Hk'. apply list_elem_of_In. exact Hc.
Qed.

Lemma operations_keep_participants_known_witness :
  let ops := [OpSendHttp 1000 "u1" Scenario.hello;
              OpGetMessages 1500 "u3"
                (mkMessagesQuery None (Some "Bob@example.org") None None None);
              OpSendSocket 2000 Scenario.bob_socket
                (mkSendRequest (Some "nobody") None (Some "hi") None None)] in
  participants <$> conversations (run_ops Scenario.store0 ops)
  = [["u1"; "u2"]; ["u2"; "u3"]]
  /\ participants_known (run_ops Scenario.store0 ops)
  /\ populate (run_ops Scenario.store0 ops) ["u2"; "u3"]
     = [Scenario.bob; Scenario.carol].
Proof.
  intros ops. split; [vm_compute; reflexivity|].
  destruct (operations_keep_participants_known Scenario.store0 ops) as [Hk _].
  { constructor. }
  split; [exact Hk|]. vm_compute. reflexivity.
Defined.

(** ** The clean-up *)

Lemma valid_all (st : Store) (c : Conversation) :
  Forall (fun p => is_Some (User_findById st p)) (participants c) ->
  validParticipants st c = participants c.
Proof.
  unfold validParticipants. induction 1 as [|p l Hp _ IH]; [reflexivity|].
  rewrite filter_cons. destruct (decide _); [|contradiction]. rewrite IH. reflexivity.
Qed.

(** Where every participant is a stored user the loop has nothing to do. *)
Lemma cleanup_nothing (db : Collections) (l : list Conversation) (n : nat) :
  Forall (fun c => Forall (fun p => is_Some (User_findById (stored db) p))
                     (participants c)) l ->
  foldl cleanup_conversation (db, n) l = (db, n).
Proof.
  induction 1 as [|c l Hc _ IH]; [reflexivity|]. simpl.
  rewrite (valid_all (stored db) c Hc), Nat.eqb_refl. exact IH.
Qed.

Lemma validParticipants_users (st st' : Store) (c : Conversation) :
  users st' = users st -> validParticipants st' c = validParticipants st c.
Proof. intros Hu. unfold validParticipants, User_findById. rewrite Hu. reflexivity. Qed.

Lemma cleaned_users (st st' : Store) (c : Conversation) :
  users st' = users st -> cleaned st' c = cleaned st c.
Proof. intros Hu. unfold cleaned. rewrite (validParticipants_users _ _ _ Hu). reflexivity. Qed.

Lemma removed_users (st st' : Store) (l : list Conversation) (id : ConvId) :
  users st' = users st -> removed st' l id = removed st l id.
Proof.
  intros Hu. unfold removed. induction l as [|c l IH]; [reflexivity|].
  cbn [existsb]. rewrite IH, (cleaned_users _ _ c Hu). reflexivity.
Qed.

Lemma kept_document_users (st st' : Store) (l : list Conversation) (d : Document) :
  users st' = users st -> kept_document st' l d = kept_document st l d.
Proof.
  intros Hu. unfold kept_document. destruct (doc_conversationId d); [|reflexivity].
  rewrite (removed_users _ _ _ _ Hu). reflexivity.
Qed.

Lemma removed_cons_kept (st : Store) (c c' : Conversation) (l : list Conversation)
    (id : ConvId) :
  cleaned st c = Some c' -> removed st (c :: l) id = removed st l id.
Proof.
  intros Hc. unfold removed. cbn [existsb]. rewrite Hc.
  rewrite bool_decide_eq_true_2 by eauto. rewrite andb_false_r. reflexivity.
Qed.

Lemma removed_cons_gone (st : Store) (c : Conversation) (l : list Conversation)
    (id : ConvId) :
  cleaned st c = None -> removed st (c :: l) id = N.eqb (c_id c) id || removed st l id.
Proof.
  intros Hc. unfold removed. cbn [existsb]. rewrite Hc.
  rewrite bool_decide_eq_false_2 by (intros [? ?]; discriminate).
  rewrite andb_true_r. reflexivity.
Qed.

Lemma filter_same {A} (P Q : A -> Prop) `{forall x, Decision (P x)}
    `{forall x, Decision (Q x)} (l : list A) :
  (forall x, P x <-> Q x) -> filter P l = filter Q l.
Proof.
  intros Hpq. induction l as [|x l IH]; [reflexivity|].
  rewrite !filter_cons, IH.
  destruct (decide (P x)) as [Hp|Hp], (decide (Q x)) as [Hq|Hq];
    try reflexivity; exfalso; apply Hpq in Hp || apply Hpq in Hq; contradiction.
Qed.

Lemma filter_all {A} (P : A -> Prop) `{forall x, Decision (P x)} (l : list A) :
  (forall x, P x) -> filter P l = l.
Proof.
  intros Hp. induction l as [|x l IH]; [reflexivity|].
  rewrite filter_cons. destruct (decide (P x)) as [_|Hn]; [|destruct (Hn (Hp x))].
  rewrite IH. reflexivity.
Qed.

Lemma delete_first_app_missing {A} (p : A -> bool) (l r : list A) (x : A) :
  find p l = None -> p x = true -> delete_first p (l ++ x :: r) = (l ++ r)%list.
Proof.
  intros Hl Hx. induction l as [|y l IH]; simpl in *; [rewrite Hx; reflexivity|].
  destruct (p y); [discriminate|]. f_equal. auto.
Qed.

Lemma unique_id_not_before (pre suf : list Conversation) (c : Conversation) :
  NoDup (c_id <$> (pre ++ c :: suf)%list) ->
  find (fun x => N.eqb (c_id x) (c_id c)) pre = None.
Proof.
  rewrite fmap_app, fmap_cons. intros Hnd.
  apply NoDup_app in Hnd as (_ & Hdisj & _).
  apply find_none_Forall, Forall_forall. intros x Hx. apply N.eqb_neq. intros He.
  apply (Hdisj (c_id x)).
  - apply list_elem_of_fmap. exists x. auto.
  - rewrite He. apply list_elem_of_here.
Qed.

Lemma unique_ids_without (pre suf : list Conversation) (c : Conversation) :
  NoDup (c_id <$> (pre ++ c :: suf)%list) -> NoDup (c_id <$> (pre ++ suf)%list).
Proof.
  rewrite !fmap_app, fmap_cons. intros Hnd.
  apply NoDup_app in Hnd as (Hp & Hdisj & Hs).
  apply NoDup_cons in Hs as [_ Hs].
  apply NoDup_app. split; [exact Hp|]. split; [|exact Hs].
  intros x Hx Hin. apply (Hdisj x Hx). apply list_elem_of_further. exact Hin.
Qed.

(** The three things the loop does to a conversation. *)
Lemma cleanup_cases (db : Collections) (n : nat) (c : Conversation) :
  (cleaned (stored db) c = Some c /\ cleanup_conversation (db, n) c = (db, n))
  \/ (cleaned (stored db) c = None
      /\ cleanup_conversation (db, n) c
         = (Document_deleteMany (c_id c)
              (mkCollections (Conversation_findByIdAndDelete (c_id c) (stored db))
                 (incomplete db)),
            S n))
  \/ (exists valid,
        cleaned (stored db) c
        = Some (mkConversation (c_id c) valid (lastMessage c) (unreadCount c))
        /\ cleanup_conversation (db, n) c
           = (mkCollections
                (Conversation_findByIdAndUpdate (c_id c)
                   (fun x => mkConversation (c_id x) valid (lastMessage x)
                               (unreadCount x)) (stored db))
                (incomplete db), n)).
Proof.
  unfold cleaned, cleanup_conversation.
  destruct (List.length (validParticipants (stored db) c)
            =? List.length (participants c))%nat; [left; auto|].
  destruct (List.length (validParticipants (stored db) c) <? 2)%nat;
    [right; left; auto|].
  right. right. eexists. split; reflexivity.
Qed.

Lemma length_omap_le {A B} (f : A -> option B) (l : list A) :
  (List.length (omap f l) <= List.length l)%nat.
Proof.
  induction l as [|x l IH]; [reflexivity|].
  cbn [omap list_omap]. destruct (f x); simpl; lia.
Qed.

Lemma omap_cleaned_users (st st' : Store) (l : list Conversation) :
  users st' = users st -> omap (cleaned st') l = omap (cleaned st) l.
Proof.
  intros Hu. induction l as [|c l IH]; [reflexivity|].
  cbn [omap list_omap]. rewrite (cleaned_users _ _ c Hu), IH. reflexivity.
Qed.

Lemma filter_messages_users (st st' : Store) (l : list Conversation)
    (ms : list Message) :
  users st' = users st ->
  filter (fun m => removed st' l (conversationId m) = false) ms
  = filter (fun m => removed st l (conversationId m) = false) ms.
Proof.
  intros Hu. apply filter_same. intros m.
  rewrite (removed_users _ _ _ _ Hu). reflexivity.
Qed.

Lemma filter_documents_users (st st' : Store) (l : list Conversation)
    (ds : list Document) :
  users st' = users st ->
  filter (fun d => kept_document st' l d = true) ds
  = filter (fun d => kept_document st l d = true) ds.
Proof.
  intros Hu. apply filter_same. intros d.
  rewrite (kept_document_users _ _ _ _ Hu). reflexivity.
Qed.

(** The loop of the clean-up over the conversations still to visit, in a
    store whose conversation ids are unique. *)
Lemma cleanup_fold (suf : list Conversation) :
  forall (pre : list Conversation) (db : Collections) (n : nat),
    conversations (stored db) = (pre ++ suf)%list ->
    NoDup (c_id <$> (pre ++ suf)%list) ->
    exists db',
      foldl cleanup_conversation (db, n) suf
      = (db', (n + (List.length suf
                    - List.length (omap (cleaned (stored db)) suf)))%nat)
      /\ users (stored db') = users (stored db)
      /\ conversations (stored db') = (pre ++ omap (cleaned (stored db)) suf)%list
      /\ messages (stored db')
         = filter (fun m => removed (stored db) suf (conversationId m) = false)
             (messages (stored db))
      /\ incomplete db'
         = filter (fun d => kept_document (stored db) suf d = true) (incomplete db).
Proof.
  induction suf as [|c suf IH]; intros pre db n Hcs Hnd.
  - exists db. cbn [foldl omap list_omap List.length].
    rewrite Nat.add_0_r. split; [reflexivity|]. split; [reflexivity|].
    split; [exact Hcs|]. split.
    + symmetry. apply filter_all. intros m. reflexivity.
    + symmetry. apply filter_all. intros d.
      unfold kept_document. destruct (doc_conversationId d); reflexivity.
  - pose proof (unique_id_not_before _ _ _ Hnd) as Hfresh.
    pose proof (length_omap_le (cleaned (stored db)) suf) as Hle.
    cbn [foldl].
    destruct (cleanup_cases db n c) as [[Hcl ->]|[[Hcl ->]|(valid & Hcl & ->)]].
    + destruct (IH (pre ++ [c])%list db n) as (db' & Hf & Hu & Hc' & Hm' & Hd').
      { rewrite <- app_assoc. exact Hcs. }
      { rewrite <- app_assoc. exact Hnd. }
      exists db'. rewrite Hf. cbn [omap list_omap]. rewrite Hcl.
      cbn [List.length]. split; [f_equal; lia|]. split; [exact Hu|].
      split; [rewrite Hc', <- app_assoc; reflexivity|]. split.
      * rewrite Hm'. apply filter_same. intros m.
        rewrite (removed_cons_kept _ _ _ _ _ Hcl). reflexivity.
      * rewrite Hd'. apply filter_same. intros d. unfold kept_document.
        destruct (doc_conversationId d); [|reflexivity].
        rewrite (removed_cons_kept _ _ _ _ _ Hcl). reflexivity.
    + set (db1 := Document_deleteMany (c_id c)
                    (mkCollections
                       (Conversation_findByIdAndDelete (c_id c) (stored db))
                       (incomplete db))).
      assert (conversations (stored db1) = (pre ++ suf)%list) as Hcs1.
      { subst db1. simpl. rewrite Hcs.
        apply delete_first_app_missing; [exact Hfresh|apply N.eqb_refl]. }
      assert (users (stored db1) = users (stored db)) as Hu1 by reflexivity.
      destruct (IH pre db1 (S n) Hcs1 (unique_ids_without _ _ _ Hnd))
        as (db' & Hf & Hu & Hc' & Hm' & Hd').
      rewrite (omap_cleaned_users _ _ _ Hu1) in Hf, Hc'.
      rewrite (filter_messages_users _ _ _ _ Hu1) in Hm'.
      rewrite (filter_documents_users _ _ _ _ Hu1) in Hd'.
      exists db'. rewrite Hf. cbn [omap list_omap]. rewrite Hcl.
      cbn [List.length]. split; [f_equal; lia|]. split; [exact Hu|].
      split; [exact Hc'|]. split.
      * rewrite Hm'. subst db1.
        cbn [Document_deleteMany Message_deleteMany Conversation_findByIdAndDelete
             stored incomplete messages set_messages set_conversations].
        rewrite list_filter_filter. apply filter_same. intros m.
        rewrite (removed_cons_gone _ _ _ _ Hcl), orb_false_iff, !N.eqb_neq.
        split; intros [H1 H2]; split; auto.
      * rewrite Hd'. subst db1.
        cbn [Document_deleteMany Message_deleteMany Conversation_findByIdAndDelete
             stored incomplete messages set_messages set_conversations].
        rewrite list_filter_filter. apply filter_same. intros d.
        unfold kept_document.
        destruct (doc_conversationId d) as [id|].
        -- rewrite (removed_cons_gone _ _ _ _ Hcl), !negb_true_iff, orb_false_iff,
             N.eqb_neq.
           split; [intros [H1 H2]; split; [congruence|exact H1]
                  |intros [H1 H2]; split; [exact H2|congruence]].
        -- split; [tauto|]. intros _. split; [reflexivity|discriminate].
    + set (f := fun x : Conversation =>
                  mkConversation (c_id x) valid (lastMessage x) (unreadCount x)).
      set (db1 := mkCollections
                    (Conversation_findByIdAndUpdate (c_id c) f (stored db))
                    (incomplete db)).
      assert (conversations (stored db1) = ((pre ++ [f c]) ++ suf)%list) as Hcs1.
      { subst db1. simpl. rewrite Hcs, update_first_app_missing by exact Hfresh.
        simpl. rewrite N.eqb_refl, <- app_assoc. reflexivity. }
      assert (users (stored db1) = users (stored db)) as Hu1 by reflexivity.
      destruct (IH (pre ++ [f c])%list db1 n Hcs1) as (db' & Hf & Hu & Hc' & Hm' & Hd').
      { rewrite <- app_assoc. simpl.
        rewrite !fmap_app, !fmap_cons in *. exact Hnd. }
      rewrite (omap_cleaned_users _ _ _ Hu1) in Hf, Hc'.
      rewrite (filter_messages_users _ _ _ _ Hu1) in Hm'.
      rewrite (filter_documents_users _ _ _ _ Hu1) in Hd'.
      exists db'. rewrite Hf. cbn [omap list_omap]. rewrite Hcl.
      cbn [List.length]. split; [f_equal; lia|]. split; [exact Hu|].
      split; [rewrite Hc', <- app_assoc; reflexivity|]. split.
      * rewrite Hm'. subst db1. apply filter_same. intros m.
        rewrite (removed_cons_kept _ _ _ _ _ Hcl). reflexivity.
      * rewrite Hd'. subst db1. apply filter_same. intros d.
        unfold kept_document. destruct (doc_conversationId d); [|reflexivity].
        rewrite (removed_cons_kept _ _ _ _ _ Hcl). reflexivity.
Qed.

Lemma filter_all_length {A} (P : A -> Prop) `{forall x, Decision (P x)} (l : list A) :
  List.length (filter P l) = List.length l -> Forall P l.
Proof.
  induction l as [|x l IH]; [constructor|].
  rewrite filter_cons. destruct (decide (P x)) as [Hx|Hx]; simpl.
  - intros [= Hl]. constructor; auto.
  - pose proof (length_filter P l). lia.
Qed.

Lemma cleaned_known (st : Store) (c c' : Conversation) :
  cleaned st c = Some c' ->
  c_id c' = c_id c
  /\ Forall (fun p => is_Some (User_findById st p)) (participants c').
Proof.
  unfold cleaned.
  destruct (List.length (validParticipants st c) =? List.length (participants c))%nat
    eqn:Hall.
  - intros [= <-]. split; [reflexivity|].
    apply Nat.eqb_eq in Hall. apply filter_all_length in Hall. exact Hall.
  - destruct (List.length (validParticipants st c) <? 2)%nat; [discriminate|].
    intros [= <-]. split; [reflexivity|]. simpl.
    apply Forall_forall. intros p Hp. unfold validParticipants in Hp.
    apply list_elem_of_filter in Hp. tauto.
Qed.

(** A message the store holds has its three references. *)
Lemma message_has_references (ms : list Message) :
  filter (fun d => lacks_reference d = true) (document_of <$> ms) = []
  /\ filter (fun m => lacks_reference (document_of m) = false) ms = ms.
Proof.
  split.
  - induction ms as [|m ms IH]; [reflexivity|].
    rewrite fmap_cons, filter_cons. destruct (decide _) as [H|_]; [discriminate H|].
    exact IH.
  - apply filter_all. intros m. reflexivity.
Qed.

Lemma filter_none_length {A} (p : A -> bool) (l : list A) :
  List.length (filter (fun x => p x = true) l) = 0%nat ->
  filter (fun x => p x = false) l = l.
Proof.
  induction l as [|x l IH]; [reflexivity|].
  rewrite !filter_cons. destruct (decide (p x = true)) as [Hp|Hp]; [discriminate|].
  intros Hl. destruct (decide (p x = false)) as [_|Hn].
  - rewrite IH by exact Hl. reflexivity.
  - destruct (p x); congruence.
Qed.

Lemma filter_filter_none {A} (p : A -> bool) (l : list A) :
  filter (fun x => p x = true) (filter (fun x => p x = false) l) = [].
Proof.
  induction l as [|x l IH]; [reflexivity|].
  rewrite filter_cons. destruct (decide (p x = false)) as [Hp|_]; [|exact IH].
  rewrite filter_cons. destruct (decide (p x = true)); [congruence|exact IH].
Qed.

Lemma find_orphaned_incomplete (db : Collections) :
  Message_find_orphaned db
  = filter (fun d => lacks_reference d = true) (incomplete db).
Proof.
  unfold Message_find_orphaned.
  rewrite filter_app, (proj1 (message_has_references _)). reflexivity.
Qed.

Lemma deleteMany_orphaned_stored (db : Collections) :
  stored (Message_deleteMany_orphaned db) = stored db.
Proof.
  unfold Message_deleteMany_orphaned. cbn [stored].
  rewrite (proj2 (message_has_references _)). destruct (stored db). reflexivity.
Qed.

(** X21.  What the clean-up leaves.  In a store with unique conversation
    ids, a clean-up that is answered keeps the conversations whose
    participants are all stored users, cuts the others down to their
    stored participants, and removes those left with fewer than two,
    together with every message document that names them.  Of the message
    documents left it then removes those that lack a conversation, a sender
    or a receiver.  The first count reported is the number of conversations
    removed; the second counts the documents that lack a reference among
    those left by the first step, so that such a document of a removed
    conversation is deleted without being counted.  Afterwards every
    participant is a stored user, no document lacks a reference, and a
    second clean-up reports 0 and 0 and changes nothing. *)
Theorem cleanup_outcome
    (db : Collections) (sub : UserId) (db' : Collections) (n k : nat) :
  conversation_ids_unique (stored db) ->
  post_api_admin_cleanup db sub = (db', replied 200 (n, k)) ->
  let st := stored db in
  let gone := removed st (conversations st) in
  users (stored db') = users st
  /\ conversations (stored db') = omap (cleaned st) (conversations st)
  /\ participants_known (stored db')
  /\ messages (stored db')
     = filter (fun m => gone (conversationId m) = false) (messages st)
  /\ incomplete db'
     = filter (fun d => lacks_reference d = false)
         (filter (fun d => kept_document st (conversations st) d = true)
            (incomplete db))
  /\ n = (List.length (conversations st) - List.length (conversations (stored db')))%nat
  /\ k = List.length
           (filter (fun d => lacks_reference d = true)
              (filter (fun d => kept_document st (conversations st) d = true)
                 (incomplete db)))
  /\ post_api_admin_cleanup db' sub = (db', replied 200 (0%nat, 0%nat)).
Proof.
  intros Hnd Hpost st gone. subst st gone. revert Hpost.
  unfold post_api_admin_cleanup.
  destruct (User_findById (stored db) sub) as [me|] eqn:Hme; [|discriminate].
  destruct (cleanup_fold (conversations (stored db)) [] db 0%nat eq_refl Hnd)
    as (db1 & Hf & Hu & Hc & Hm & Hd).
  rewrite Hf. simpl in Hc. rewrite find_orphaned_incomplete.
  assert (participants_known (stored db1)) as Hk.
  { unfold participants_known. rewrite Hc. apply Forall_forall. intros c' Hc'.
    apply list_elem_of_omap in Hc' as (c & _ & Hcl).
    apply cleaned_known in Hcl as [_ Hcl].
    unfold User_findById. rewrite Hu. exact Hcl. }
  destruct (0 <? List.length (filter (fun d => lacks_reference d = true)
                                (incomplete db1)))%nat eqn:Hpos;
    intros [= <- <- <-].
  - rewrite deleteMany_orphaned_stored.
    split_and?; try assumption; try reflexivity.
    + cbn [incomplete Message_deleteMany_orphaned]. rewrite Hd. reflexivity.
    + rewrite Hc. reflexivity.
    + rewrite Hd. reflexivity.
    + unfold User_findById. rewrite Hu.
      fold (User_findById (stored db) sub). rewrite Hme.
      rewrite cleanup_nothing
        by (rewrite deleteMany_orphaned_stored; exact Hk).
      rewrite find_orphaned_incomplete.
      cbn [incomplete Message_deleteMany_orphaned].
      rewrite filter_filter_none. reflexivity.
  - apply Nat.ltb_ge in Hpos.
    assert (List.length (filter (fun d => lacks_reference d = true) (incomplete db1))
            = 0%nat) as Hzero by lia.
    split_and?; try assumption; try reflexivity.
    + rewrite (filter_none_length lacks_reference) by (rewrite <- Hd; exact Hzero).
      exact Hd.
    + rewrite Hc. reflexivity.
    + rewrite Hd. reflexivity.
    + unfold User_findById. rewrite Hu.
      fold (User_findById (stored db) sub). rewrite Hme.
      rewrite cleanup_nothing by exact Hk.
      rewrite find_orphaned_incomplete, Hzero. reflexivity.
Qed.

Lemma cleanup_outcome_witness :
  let r := post_api_admin_cleanup Leftover.collections "u1" in
  conversation_ids_unique Leftover.store
  /\ r.2 = replied 200 (1%nat, 2%nat)
  /\ (c_id <$> conversations (stored r.1), participants <$> conversations (stored r.1))
     = ([1%N; 2%N], [["u1"; "u2"]; ["u1"; "u2"]])
  /\ messages (stored r.1) = [mkMessage 4 1 "u1" "u2" "hello" sent None "text" None 200]
  /\ incomplete r.1 = []
  /\ participants_known (stored r.1)
  /\ post_api_admin_cleanup r.1 "u1" = (r.1, replied 200 (0%nat, 0%nat)).
Proof.
  intros r.
  assert (conversation_ids_unique Leftover.store) as Hnd.
  { unfold conversation_ids_unique. apply (bool_decide_unpack _). vm_compute. exact I. }
  assert (r = (r.1, replied 200 (1%nat, 2%nat))) as Hr by (vm_compute; reflexivity).
  destruct (cleanup_outcome Leftover.collections "u1" r.1 1 2 Hnd Hr)
    as (_ & _ & Hk & _ & _ & _ & _ & Hagain).
  split; [exact Hnd|]. split; [rewrite Hr; reflexivity|].
  split; [vm_compute; reflexivity|]. split; [vm_compute; reflexivity|].
  split; [vm_compute; reflexivity|]. split; [exact Hk|exact Hagain].
Defined.

(** ** One conversation per pair, when calls do not interleave *)

Lemma pair_of_two (c : Conversation) (a b : UserId) :
  a <> b -> all_size_match [a; b] c = true -> participants c ≡ₚ [a; b].
Proof.
  intros Hab Hm. unfold all_size_match in Hm.
  apply andb_prop in Hm as [Hall Hlen]. apply Nat.eqb_eq in Hlen.
  destruct (participants c) as [|p [|q [|? ?]]]; try discriminate Hlen.
  simpl in Hall. unfold mem_id in Hall. simpl in Hall.
  rewrite !orb_false_r, andb_true_r in Hall.
  apply andb_prop in Hall as [Ha Hb].
  apply orb_prop in Ha as [Ha|Ha]; apply String.eqb_eq in Ha;
    apply orb_prop in Hb as [Hb|Hb]; apply String.eqb_eq in Hb; subst;
    try contradiction.
  - reflexivity.
  - apply Permutation_swap.
Qed.

(** X22.  As long as operations run one at a time, a pair has exactly the
    conversation get-or-create returns.  From a store with at most one
    conversation per pair, after any sequence of operations, a call for
    two distinct ids that returns a conversation leaves that conversation
    as the only one of the pair, and its participants are the two ids. *)
Theorem sequential_calls_one_conversation
    (st : Store) (ops : list Op) (now : Date) (a b : UserId)
    (st1 : Store) (c : Conversation) :
  pair_unique st ->
  a <> b ->
  getOrCreateConversation (run_ops st ops) now [a; b] = (st1, Ok c) ->
  conversations_of_pair st1 a b = [c]
  /\ participants c ≡ₚ [a; b].
Proof.
  intros Hu Hab Hg.
  assert (pair_unique st1) as Hu1.
  { pose proof (pair_unique_getOrCreate (run_ops st ops) now [a; b]
                  (pair_unique_run_ops ops st Hu)) as H.
    rewrite Hg in H. exact H. }
  assert (all_size_match [a; b] c = true) as Hm.
  { pose proof (getOrCreate_then_findOne _ _ _ [a; b] _ _ (reflexivity _) Hg) as Hf.
    apply find_holds in Hf as [Hf _]. rewrite all_size_match_sort in Hf. exact Hf. }
  split; [|apply pair_of_two; assumption].
  assert (c ∈ conversations_of_pair st1 a b) as Hin.
  { unfold conversations_of_pair. apply list_elem_of_filter. split; [exact Hm|].
    apply list_elem_of_In. eapply getOrCreate_stored; eauto. }
  specialize (Hu1 a b Hab).
  destruct (conversations_of_pair st1 a b) as [|x [|y l]]; simpl in Hu1.
  - inversion Hin.
  - apply list_elem_of_singleton in Hin. subst x. reflexivity.
  - lia.
Qed.

Lemma sequential_calls_one_conversation_witness :
  let ops := [OpSendHttp 1000 "u1" Scenario.hello;
              OpSendSocket 2000 Scenario.bob_socket
                (mkSendRequest (Some "u1") None (Some "hi") None None);
              OpCreateConversation 2500 "u2" (Some "u1")] in
  pair_unique Scenario.store0
  /\ exists c, conversations_of_pair
                 (getOrCreateConversation (run_ops Scenario.store0 ops) 3000 ["u2"; "u1"]).1
                 "u2" "u1" = [c]
               /\ c_id c = 0%N.
Proof.
  intros ops.
  assert (pair_unique Scenario.store0) as Hu by (intros a b _; simpl; lia).
  split; [exact Hu|].
  destruct (getOrCreateConversation (run_ops Scenario.store0 ops) 3000 ["u2"; "u1"])
    as [st1 r] eqn:Hg.
  assert (exists c, r = Ok c /\ c_id c = 0%N) as (c & -> & Hid).
  { assert (r = (getOrCreateConversation (run_ops Scenario.store0 ops) 3000
                   ["u2"; "u1"]).2) as -> by (rewrite Hg; reflexivity).
    eexists. split; vm_compute; reflexivity. }
  destruct (sequential_calls_one_conversation Scenario.store0 ops 3000 "u2" "u1"
              st1 c Hu) as [H _].
  - discriminate.
  - exact Hg.
  - exists c. split; [exact H|exact Hid].
Defined.

(** ** A send, then the receiver's thread list *)





